(** * glog: rotating file writer and slog handler

    A shallow embedding of [file_writer.go], [handler.go] and
    [line_handler.go] of
    github.com/lyuangg/glog, and the properties of the specification that
    were checked against it.

    Layout of the file:
    - [regexp], [strings_]: the two library routines the writer uses on file
      names ([regexp.ReplaceAllString] with leftmost-first alternation and
      [strings.Contains]);
    - [layout]: the numeric tokens of Go time layouts;
    - [os]: a small file system with fallible system calls, [bufio]: the
      buffered writer;
    - [FileWriter]: the writer itself, one definition per method;
    - [slog] handler construction, trace extraction and [Close];
    - [ParseLevel], [LineHandler] of [line_handler.go] and [Handler.Handle]:
      logging a record;
    - the theorems, one block per claim, and after them further properties
      of the writer and of the handlers. *)

From Stdlib Require Import ZArith Ascii String List Lia Bool Permutation Sorted.
From stdpp Require Import base gmap strings list fin_maps.

(* ===================================================================== *)
(** ** Strings as Go sees them: sequences of bytes *)
(* ===================================================================== *)

Module strings_.

(** [strings.HasPrefix(s, prefix)] *)
Fixpoint HasPrefix (s prefix : string) : bool :=
  match prefix with
  | EmptyString => true
  | String a prefix' =>
      match s with
      | EmptyString => false
      | String b s' => Ascii.eqb a b && HasPrefix s' prefix'
      end
  end.

(** [strings.Contains(s, substr)]: some suffix of [s] starts with [substr]. *)
Fixpoint Contains (s substr : string) : bool :=
  HasPrefix s substr ||
  match s with
  | EmptyString => false
  | String _ s' => Contains s' substr
  end.

(** [s[n:]] for [n <= len(s)] (the whole tail is dropped beyond that). *)
Fixpoint drop (n : nat) (s : string) : string :=
  match n, s with
  | O, _ => s
  | S n', String _ s' => drop n' s'
  | S _, EmptyString => EmptyString
  end.

End strings_.

(* ===================================================================== *)
(** ** package regexp: the fragment used by [buildGlobPattern] *)
(* ===================================================================== *)

Module regexp.

(** Syntax of the expressions the writer compiles: literals, one-byte
    ranges [[a-b]], concatenation, alternation [a|b] and [a+]. *)
Inductive Regexp : Type :=
| Char (c : ascii)
| Range (lo hi : ascii)
| Concat (r1 r2 : Regexp)
| Alternate (r1 r2 : Regexp)
| Plus (r : Regexp).

Definition inRange (lo hi c : ascii) : bool :=
  (N_of_ascii lo <=? N_of_ascii c)%N && (N_of_ascii c <=? N_of_ascii hi)%N.

(** A matcher reads from a position ([n] bytes consumed so far, [s] still
    unread) and hands the position it reaches to its continuation. *)
Definition matcher (X : Type) : Type :=
  nat -> string -> (nat -> string -> option X) -> option X.

(** [a+], greedy: after one match of [a] try another one first, as long
    as the last one consumed input.  [fuel] bounds the repetitions. *)
Fixpoint plusLoop {X : Type} (m : matcher X) (k : nat -> string -> option X)
    (fuel : nat) (n : nat) (s : string) : option X :=
  match fuel with
  | O => None
  | S fuel' =>
      m n s (fun n1 s1 =>
        if (n <? n1)%nat then
          match plusLoop m k fuel' n1 s1 with
          | Some x => Some x
          | None => k n1 s1
          end
        else k n1 s1)
  end.

(** Backtracking matcher anchored at the current position.  Go's regexp
    (non-POSIX) prefers the leftmost alternative that lets the whole
    expression match and makes [+] greedy.  A repetition that consumes
    input can run at most once per unread byte, hence the fuel. *)
Fixpoint run {X : Type} (r : Regexp) : matcher X :=
  fun n s k =>
  match r with
  | Char c =>
      match s with
      | String c' s' => if Ascii.eqb c c' then k (S n) s' else None
      | EmptyString => None
      end
  | Range lo hi =>
      match s with
      | String c' s' => if inRange lo hi c' then k (S n) s' else None
      | EmptyString => None
      end
  | Concat a b => run a n s (fun n1 s1 => run b n1 s1 k)
  | Alternate a b =>
      match run a n s k with
      | Some x => Some x
      | None => run b n s k
      end
  | Plus a => plusLoop (run a) k (S (String.length s)) n s
  end.

(** Length of the match of [r] at the start of [s], if there is one. *)
Definition matchLen (r : Regexp) (s : string) : option nat :=
  run r 0 s (fun n _ => Some n).

(** [ReplaceAllString]: scan left to right; where [r] matches, emit [repl]
    and resume after the match, otherwise copy one byte.  [skip] counts the
    bytes of the current match still to be passed over.  Neither expression
    of the writer matches the empty string, so the rule for empty matches
    never applies; [repl] is the literal "*" and holds no [$] expansion. *)
Fixpoint replaceFrom (r : Regexp) (repl : string) (skip : nat) (s : string)
  : string :=
  match s with
  | EmptyString => EmptyString
  | String c s' =>
      match skip with
      | S k => replaceFrom r repl k s'
      | O =>
          match matchLen r s with
          | Some (S n) => repl +:+ replaceFrom r repl n s'
          | _ => String c (replaceFrom r repl 0 s')
          end
      end
  end.

Definition ReplaceAllString (r : Regexp) (src repl : string) : string :=
  replaceFrom r repl 0 src.

(** A literal word, as a concatenation of its bytes. *)
Fixpoint word (c : ascii) (s : string) : Regexp :=
  match s with
  | EmptyString => Char c
  | String c' s' => Concat (Char c) (word c' s')
  end.

End regexp.

(* ===================================================================== *)
(** ** Numeric tokens of a Go time layout *)
(* ===================================================================== *)

Module layout.

(** A file name cut into layout tokens and literal bytes. *)
Inductive piece : Type :=
| Tok (t : string)
| Lit (c : ascii).

(** The first token of [tokens] the input starts with. *)
Definition tokenAt (tokens : list string) (s : string) : option string :=
  List.find (fun t => strings_.HasPrefix s t) tokens.

(** Left-to-right tokenisation; a token wins over a literal byte and
    earlier entries of [tokens] win over later ones. *)
Fixpoint scan (tokens : list string) (skip : nat) (s : string) : list piece :=
  match s with
  | EmptyString => []
  | String c s' =>
      match skip with
      | S k => scan tokens k s'
      | O =>
          match tokenAt tokens s with
          | Some t => Tok t :: scan tokens (String.length t - 1) s'
          | None => Lit c :: scan tokens 0 s'
          end
      end
  end.

Definition tokenize (tokens : list string) (s : string) : list piece :=
  scan tokens 0 s.

(** The bytes a piece stands for, and the bytes of a whole tokenisation. *)
Definition text (p : piece) : string :=
  match p with
  | Tok t => t
  | Lit c => String c EmptyString
  end.

Definition unparse (ps : list piece) : string :=
  fold_right (fun p acc => text p +:+ acc) EmptyString ps.

(** A token becomes the wildcard, a literal byte stays. *)
Definition wild (p : piece) : string :=
  match p with
  | Tok _ => "*"
  | Lit c => String c EmptyString
  end.

Definition wildcarded (ps : list piece) : string :=
  fold_right (fun p acc => wild p +:+ acc) EmptyString ps.

(** Runs of the wildcard shrink to one. *)
Fixpoint collapse (s : string) : string :=
  match s with
  | EmptyString => EmptyString
  | String c s' =>
      if Ascii.eqb c "*" then
        match s' with
        | String c' _ => if Ascii.eqb c' "*" then collapse s'
                         else String c (collapse s')
        | EmptyString => String c EmptyString
        end
      else String c (collapse s')
  end.

(** [collapse] is a fold: what one more byte in front does to a
    collapsed string. *)
Definition consC (c : ascii) (z : string) : string :=
  if Ascii.eqb c "*" then
    match z with
    | String c' _ => if Ascii.eqb c' "*" then z else String c z
    | EmptyString => String c EmptyString
    end
  else String c z.

(** Number of leading wildcards. *)
Fixpoint stars (s : string) : nat :=
  match s with
  | String c s' => if Ascii.eqb c "*" then S (stars s') else 0
  | EmptyString => 0
  end.

(** The tokens the specification names: the 4-digit year, the 2-digit
    month, day, hour (12- and 24-hour), minute and second, and the
    single-digit variants. *)
Definition namedTokens : list string :=
  ["2006"; "15"; "01"; "02"; "03"; "04"; "05"; "1"; "2"; "3"; "4"; "5"].

(** The numeric tokens of package time that [buildGlobPattern] covers:
    the named ones and the 2-digit year. Longer tokens come first, as in
    time's own chunking ("15" is the hour, not month then second). *)
Definition numericTokens : list string :=
  ["2006"; "15"; "01"; "02"; "03"; "04"; "05"; "06"; "1"; "2"; "3"; "4"; "5"].

(** Every token of a tokenisation comes from the list. *)
Definition fromTokens (tokens : list string) (p : piece) : Prop :=
  match p with
  | Tok t => In t tokens
  | Lit _ => True
  end.

(** The seconds field: [05] and [5]. *)
Definition isSecondsToken (p : piece) : bool :=
  match p with
  | Tok t => String.eqb t "05" || String.eqb t "5"
  | Lit _ => false
  end.

Definition hasSecondsToken (s : string) : bool :=
  existsb isSecondsToken (tokenize numericTokens s).

End layout.

(* ===================================================================== *)
(** ** Go values shared by the packages below *)
(* ===================================================================== *)

(** The [error] values that can reach the writer. *)
Inductive error : Type :=
| ErrNotExist      (* ENOENT: "no such file or directory" *)
| ErrPermission    (* EACCES / EPERM *)
| ErrIsDir         (* EISDIR: opening a directory for writing *)
| ErrNotDir        (* ENOTDIR *)
| ErrNotEmpty      (* ENOTEMPTY *)
| ErrNoSpace       (* ENOSPC *)
| ErrIO            (* EIO reported when a descriptor is closed *)
| ErrClosed        (* os.ErrClosed: "file already closed" *)
| ErrInvalid       (* os.ErrInvalid: method called on a nil *os.File *)
| ErrShortWrite    (* io.ErrShortWrite *)
| ErrBadPattern.   (* filepath.ErrBadPattern *)

#[global] Instance error_eq_dec : EqDecision error.
Proof. solve_decision. Defined.

(** What running a method can end in: a normal return or a run-time panic
    (here only a nil pointer dereference can cause one). *)
Inductive outcome (A : Type) : Type :=
| Done (a : A)
| Panic.
Arguments Done {A} a.
Arguments Panic {A}.

(** [time.Duration] and [int] are 64-bit: arithmetic wraps around. *)
Definition wrap64 (z : Z) : Z := ((z + 2 ^ 63) mod 2 ^ 64 - 2 ^ 63)%Z.

Module time.
Definition Second : Z := 1000000000.
Definition Minute : Z := 60 * Second.
End time.

(* ===================================================================== *)
(** ** package os: a file system with fallible calls *)
(* ===================================================================== *)

Module os.

Inductive kind : Type :=
| Regular
| Directory
| Dangling.  (* a symbolic link whose target and its directory are gone *)

#[global] Instance kind_eq_dec : EqDecision kind.
Proof. solve_decision. Defined.

(** One directory entry.  [immutable] and [closeErr] are facts of the
    environment: an immutable entry can be neither unlinked nor opened
    for writing, and [closeErr] makes [close] report a deferred I/O
    error. *)
Record Node : Type := mkNode {
  nkind : kind;
  modTime : Z;
  data : string;
  immutable : bool;
  closeErr : bool
}.

(** The file system: entries by path, open descriptors, the next free
    descriptor, the bytes the device still accepts ([None]: no limit)
    and the wall clock. *)
Record FS : Type := mkFS {
  nodes : gmap string Node;
  handles : gmap nat string;
  nextFd : nat;
  free : option nat;
  clock : Z
}.

Definition setNodes (m : gmap string Node) (s : FS) : FS :=
  mkFS m (handles s) (nextFd s) (free s) (clock s).
Definition setHandles (h : gmap nat string) (s : FS) : FS :=
  mkFS (nodes s) h (nextFd s) (free s) (clock s).
Definition setFree (q : option nat) (s : FS) : FS :=
  mkFS (nodes s) (handles s) (nextFd s) q (clock s).
Definition setClock (t : Z) (s : FS) : FS :=
  mkFS (nodes s) (handles s) (nextFd s) (free s) t.

(** The directory part of a path: everything before the last separator;
    [None] when the path holds no separator. *)
Fixpoint beforeLastSlash (p : string) : option string :=
  match p with
  | EmptyString => None
  | String c p' =>
      match beforeLastSlash p' with
      | Some d => Some (String c d)
      | None => if Ascii.eqb c "/" then Some EmptyString else None
      end
  end.

Definition parent (p : string) : string :=
  match beforeLastSlash p with
  | Some EmptyString => "/"
  | Some d => d
  | None => "."
  end.

(** [*os.File] *)
Definition File : Type := nat.

(** [os.OpenFile(name, O_CREATE|O_WRONLY|O_APPEND, 0644)] *)
Definition OpenFile (name : string) (s : FS) : (error + File) * FS :=
  match nodes s !! name with
  | Some n =>
      match nkind n with
      | Directory => (inl ErrIsDir, s)
      | Dangling => (inl ErrNotExist, s)
      | Regular =>
          if immutable n then (inl ErrPermission, s)
          else (inr (nextFd s),
                mkFS (nodes s) (<[nextFd s := name]> (handles s))
                     (S (nextFd s)) (free s) (clock s))
      end
  | None =>
      match nodes s !! parent name with
      | None => (inl ErrNotExist, s)
      | Some d =>
          match nkind d with
          | Regular => (inl ErrNotDir, s)
          | Dangling => (inl ErrNotExist, s)
          | Directory =>
              if immutable d then (inl ErrPermission, s)
              else (inr (nextFd s),
                    mkFS (<[name := mkNode Regular (clock s) EmptyString
                                            false false]> (nodes s))
                         (<[nextFd s := name]> (handles s))
                         (S (nextFd s)) (free s) (clock s))
          end
      end
  end.

(** The bytes of [p] the device takes: all of them, or the first
    [free] with [ErrNoSpace]. *)
Definition accepted (q : option nat) (p : string) : nat * option error :=
  match q with
  | None => (String.length p, None)
  | Some k =>
      if (String.length p <=? k)%nat then (String.length p, None)
      else (k, Some ErrNoSpace)
  end.

(** [File.Write(p)] on an append-mode descriptor.  A nil receiver
    gives [ErrInvalid], a closed descriptor [ErrClosed]; writing no bytes
    to a live descriptor has no effect; bytes written to a file that was
    unlinked meanwhile reach no path. *)
Definition Write (f : option File) (p : string) (s : FS)
  : (nat * option error) * FS :=
  match f with
  | None => ((O, Some ErrInvalid), s)
  | Some fd =>
      match handles s !! fd with
      | None => ((O, Some ErrClosed), s)
      | Some name =>
          match p with
          | EmptyString => ((O, None), s)
          | String _ _ =>
              let '(n, e) := accepted (free s) p in
              let s1 := setFree (option_map (fun k => (k - n)%nat) (free s)) s in
              match n with
              | O => ((O, e), s1)
              | S _ =>
                  match nodes s !! name with
                  | Some nd =>
                      ((n, e),
                       setNodes (<[name := mkNode (nkind nd) (clock s)
                                    (data nd +:+ substring 0 n p)
                                    (immutable nd) (closeErr nd)]> (nodes s)) s1)
                  | None => ((n, e), s1)
                  end
              end
          end
      end
  end.

(** [File.Close()]: the descriptor is released even when the
    system call reports an error. *)
Definition Close (f : option File) (s : FS) : option error * FS :=
  match f with
  | None => (Some ErrInvalid, s)
  | Some fd =>
      match handles s !! fd with
      | None => (Some ErrClosed, s)
      | Some name =>
          let s1 := setHandles (delete fd (handles s)) s in
          match nodes s !! name with
          | Some nd => (if closeErr nd then Some ErrIO else None, s1)
          | None => (None, s1)
          end
      end
  end.

(** [os.FileInfo], as far as the writer reads it. *)
Record FileInfo : Type := mkInfo { IsDir : bool; ModTime : Z }.

(** [os.Stat(name)] follows links, so a dangling link does not exist. *)
Definition Stat (name : string) (s : FS) : error + FileInfo :=
  match nodes s !! name with
  | None => inl ErrNotExist
  | Some n =>
      match nkind n with
      | Dangling => inl ErrNotExist
      | Directory => inr (mkInfo true (modTime n))
      | Regular => inr (mkInfo false (modTime n))
      end
  end.

Definition paths (s : FS) : list string := (map_to_list (nodes s)).*1.

(** [os.Remove(name)] *)
Definition Remove (name : string) (s : FS) : option error * FS :=
  match nodes s !! name with
  | None => (Some ErrNotExist, s)
  | Some n =>
      if immutable n then (Some ErrPermission, s)
      else
        match nkind n with
        | Directory =>
            if existsb (fun p => String.eqb (parent p) name) (paths s)
            then (Some ErrNotEmpty, s)
            else (None, setNodes (delete name (nodes s)) s)
        | _ => (None, setNodes (delete name (nodes s)) s)
        end
  end.

(** The bytes stored at a path. *)
Definition contents (s : FS) (name : string) : option string :=
  data <$> nodes s !! name.

(** The device holds a live descriptor [fd]. *)
Definition live (s : FS) (f : option File) : bool :=
  match f with
  | Some fd => bool_decide (is_Some (handles s !! fd))
  | None => false
  end.

End os.

(* ===================================================================== *)
(** ** package bufio: the buffered writer *)
(* ===================================================================== *)

Module bufio.

Definition defaultBufSize : nat := 4096.

(** [bufio.Writer]: the wrapped file, the bytes held back, and the first
    write error, which sticks. *)
Record Writer : Type := mkWriter {
  wr : option os.File;
  pending : string;
  err : option error
}.

Definition NewWriter (w : option os.File) : Writer :=
  mkWriter w EmptyString None.

Definition Buffered (b : Writer) : nat := String.length (pending b).
Definition Available (b : Writer) : nat := (defaultBufSize - Buffered b)%nat.

(** [Flush]: hand the pending bytes to the file; on an error keep what
    was not written and remember the error. *)
Definition Flush (b : Writer) (s : os.FS) : option error * Writer * os.FS :=
  match err b with
  | Some e => (Some e, b, s)
  | None =>
      match pending b with
      | EmptyString => (None, b, s)
      | String _ _ =>
          let '((n, e), s1) := os.Write (wr b) (pending b) s in
          let e := match e with
                   | None => if (n <? Buffered b)%nat then Some ErrShortWrite
                             else None
                   | Some _ => e
                   end in
          match e with
          | Some x => (Some x, mkWriter (wr b) (strings_.drop n (pending b)) (Some x), s1)
          | None => (None, mkWriter (wr b) EmptyString None, s1)
          end
      end
  end.

(** The condition of the loop of [Write]: [p] does not fit and no error
    is recorded. *)
Definition guard (b : Writer) (p : string) : bool :=
  (Available b <? String.length p)%nat && bool_decide (err b = None).

(** One round of the loop of [Write], entered while the guard holds: an
    empty buffer passes [p] straight to the file, otherwise the buffer is
    filled up and flushed.  The round returns the writer, the bytes of [p]
    still to place, the running count and the file system. *)
Definition round (b : Writer) (p : string) (nn : nat) (s : os.FS)
  : Writer * string * nat * os.FS :=
  if guard b p then
    if (Buffered b =? 0)%nat then
      let '((n, e), s1) := os.Write (wr b) p s in
      (mkWriter (wr b) (pending b) e, strings_.drop n p, (nn + n)%nat, s1)
    else
      let n := Available b in
      let b1 := mkWriter (wr b) (pending b +:+ substring 0 n p) (err b) in
      let '(_, b2, s1) := Flush b1 s in
      (b2, strings_.drop n p, (nn + n)%nat, s1)
  else (b, p, nn, s).

(** [Write]: the loop runs at most twice (a fill-and-flush round empties
    the buffer, the next round writes the rest directly; see
    [Write_rounds]), then what is left is copied into the buffer. *)
Definition Write (b : Writer) (p : string) (s : os.FS)
  : (nat * option error) * Writer * os.FS :=
  let '(b1, p1, n1, s1) := round b p 0 s in
  let '(b2, p2, n2, s2) := round b1 p1 n1 s1 in
  match err b2 with
  | Some e => ((n2, Some e), b2, s2)
  | None =>
      ((n2 + String.length p2)%nat, None,
       mkWriter (wr b2) (pending b2 +:+ p2) None, s2)
  end.

End bufio.

(* ===================================================================== *)
(** ** Library routines taken as given *)
(* ===================================================================== *)

(** Routines of the standard library whose code is not part of glog:
    [Time.Format], the lexical path functions, glob matching ([None] stands
    for [ErrBadPattern]) and [sort.Slice], which is not stable. *)
Class GoLib : Type := {
  time_Format : Z -> string -> string;
  filepath_Dir : string -> string;
  filepath_Base : string -> string;
  filepath_Join : string -> string -> string;
  filepath_Match : string -> string -> option bool;
  sort_Slice : forall A : Type, (A -> A -> bool) -> list A -> list A
}.
Arguments sort_Slice {_ A} less l.

(** What [sort.Slice] promises for a strict weak order [less]: it permutes
    the slice and leaves no later element [less] than an earlier one. *)
Definition sorts {H : GoLib} {A : Type} (less : A -> A -> bool) : Prop :=
  forall l : list A,
    Permutation (sort_Slice less l) l /\
    StronglySorted (fun x y => less y x = false) (sort_Slice less l).

(** [filepath.Glob]: the existing paths that match, or [ErrBadPattern]. *)
Definition filepath_Glob {H : GoLib} (pattern : string) (s : os.FS)
  : error + list string :=
  match filepath_Match pattern EmptyString with
  | None => inl ErrBadPattern
  | Some _ =>
      inr (filter (fun p => filepath_Match pattern p = Some true) (os.paths s))
  end.

(* ===================================================================== *)
(** ** file_writer.go *)
(* ===================================================================== *)

(** [type FileWriter struct].  The mutex is not a field here: every method
    below runs as one atomic step, which is what holding [mu] for the whole
    body gives.  [done] stands for the cancelled context together with the
    closed [done] channel: the rotation goroutine has exited.

    [ctx], [cancel] and the channel are set by the constructor and never
    assigned again, so a value of this record is a writer that came from
    the constructor, in whatever state it is by now.  The zero value of the
    exported type has a nil [cancel], and [Close] panics on it at its first
    statement; it is no value of this record, and nothing below speaks
    about it. *)
Record FileWriter : Type := mkFileWriter {
  path : string;
  dir : string;
  fileName : string;
  current : string;
  file : option os.File;
  buf : option bufio.Writer;
  maxFiles : Z;
  flushInterval : Z;
  done : bool
}.

Definition set_current (c : string) (f : FileWriter) : FileWriter :=
  mkFileWriter (path f) (dir f) (fileName f) c (file f) (buf f)
               (maxFiles f) (flushInterval f) (done f).
Definition set_file (x : option os.File) (f : FileWriter) : FileWriter :=
  mkFileWriter (path f) (dir f) (fileName f) (current f) x (buf f)
               (maxFiles f) (flushInterval f) (done f).
Definition set_buf (x : option bufio.Writer) (f : FileWriter) : FileWriter :=
  mkFileWriter (path f) (dir f) (fileName f) (current f) (file f) x
               (maxFiles f) (flushInterval f) (done f).
Definition set_done (x : bool) (f : FileWriter) : FileWriter :=
  mkFileWriter (path f) (dir f) (fileName f) (current f) (file f) (buf f)
               (maxFiles f) (flushInterval f) x.

(** Methods run on the file system and the receiver, and may panic. *)
Definition M (A : Type) : Type :=
  os.FS * FileWriter -> outcome (A * (os.FS * FileWriter)).

#[global] Instance M_ret : MRet M := fun A a st => Done (a, st).
#[global] Instance M_bind : MBind M := fun A B k m st =>
  match m st with
  | Done (a, st') => k a st'
  | Panic => Panic
  end.

(** The receiver, a field update, a system call, a read of the system. *)
Definition this : M FileWriter := fun st => Done (st.2, st).
Definition update (g : FileWriter -> FileWriter) : M unit :=
  fun st => Done (tt, (st.1, g st.2)).
Definition sys {A : Type} (call : os.FS -> A * os.FS) : M A :=
  fun st => let '(a, s) := call st.1 in Done (a, (s, st.2)).
Definition ask {A : Type} (q : os.FS -> A) : M A :=
  fun st => Done (q st.1, st).

(** [f.buf.Flush()] and [f.buf.Write(p)]: calls through the pointer
    [f.buf], which panic when it is nil. *)
Definition buf_Flush : M (option error) := fun st =>
  match buf st.2 with
  | None => Panic
  | Some b =>
      let '(e, b', s) := bufio.Flush b st.1 in
      Done (e, (s, set_buf (Some b') st.2))
  end.

Definition buf_Write (p : string) : M (nat * option error) := fun st =>
  match buf st.2 with
  | None => Panic
  | Some b =>
      let '(r, b', s) := bufio.Write b p st.1 in
      Done (r, (s, set_buf (Some b') st.2))
  end.

(** One stat'ed match of [cleanOldFiles]. *)
Record entry : Type := mkEntry { name : string; modTime : Z }.

(** [a.modTime.After(b.modTime)] *)
Definition After (a b : entry) : bool := (modTime b <? modTime a)%Z.

Section file_writer.
Context `{GoLib}.

(** [getCheckInterval] *)
Definition getCheckInterval (f : FileWriter) : Z :=
  if strings_.Contains (fileName f) "05" || strings_.Contains (fileName f) "5"
  then time.Second
  else time.Minute.

(** The two expressions of [buildGlobPattern]:
    [2006|0[1-6]|[1-5]|15] and [\*+]. *)
Definition timeRe : regexp.Regexp :=
  regexp.Alternate (regexp.word "2" "006")
    (regexp.Alternate (regexp.Concat (regexp.Char "0") (regexp.Range "1" "6"))
       (regexp.Alternate (regexp.Range "1" "5") (regexp.word "1" "5"))).

Definition starsRe : regexp.Regexp := regexp.Plus (regexp.Char "*").

(** The file-name part of [buildGlobPattern], before [filepath.Join]. *)
Definition globName (fileName : string) : string :=
  let pattern := regexp.ReplaceAllString timeRe fileName "*" in
  regexp.ReplaceAllString starsRe pattern "*".

(** [buildGlobPattern] *)
Definition buildGlobPattern (f : FileWriter) : string :=
  filepath_Join (dir f) (globName (fileName f)).

(** [openCurrentLocked] *)
Definition openCurrentLocked : M (option error) :=
  f ← this;
  r ← sys (os.OpenFile (current f));
  match r with
  | inl err =>
      update (set_file None);;
      update (set_buf None);;
      mret (Some err)
  | inr file =>
      update (set_file (Some file));;
      (if (0 <? flushInterval f)%Z
       then update (set_buf (Some (bufio.NewWriter (Some file))))
       else update (set_buf None));;
      mret None
  end.

(** [Write] *)
Definition Write (p : string) : M (nat * option error) :=
  f ← this;
  opened ← match file f with
           | None => openCurrentLocked
           | Some _ => mret None
           end;
  match opened with
  | Some err => mret (O, Some err)
  | None =>
      f ← this;
      if (flushInterval f =? 0)%Z then sys (os.Write (file f) p)
      else
        match buf f with
        | None => update (set_buf (Some (bufio.NewWriter (file f))))
        | Some _ => mret tt
        end;;
        buf_Write p
  end.

(** [Close], on a writer from the constructor.  Cancelling the context and
    waiting for the goroutine are folded into [set_done]; with [cancel] and
    the channel in place both are harmless when repeated. *)
Definition Close : M (option error) :=
  update (set_done true);;
  f ← this;
  flushed ← match buf f with
            | Some _ =>
                e ← buf_Flush;
                match e with
                | Some err => mret (Some err)
                | None => update (set_buf None);; mret None
                end
            | None => mret None
            end;
  match flushed with
  | Some err => mret (Some err)
  | None =>
      f ← this;
      match file f with
      | Some _ =>
          e ← sys (os.Close (file f));
          match e with
          | Some err => mret (Some err)
          | None => update (set_file None);; mret None
          end
      | None => mret None
      end
  end.

(** [flushBuffer] *)
Definition flushBuffer : M unit :=
  f ← this;
  match buf f with
  | Some _ => buf_Flush;; mret tt
  | None => mret tt
  end.

(** The stat loop of [cleanOldFiles]: matches other than the current
    file that stat as something that is not a directory. *)
Definition candidate (cur : string) (s : os.FS) (m : string) : option entry :=
  if String.eqb m cur then None
  else match os.Stat m s with
       | inl _ => None
       | inr info => if os.IsDir info then None
                     else Some (mkEntry m (os.ModTime info))
       end.

Definition candidates (cur : string) (s : os.FS) (matches : list string)
  : list entry :=
  omap (candidate cur s) matches.

(** The removal loop of [cleanOldFiles]: stop at the first failure. *)
Fixpoint removeEach (files : list entry) : M (option error) :=
  match files with
  | [] => mret None
  | x :: rest =>
      e ← sys (os.Remove (name x));
      match e with
      | Some err => mret (Some err)
      | None => removeEach rest
      end
  end.

(** [cleanOldFiles] *)
Definition cleanOldFiles : M (option error) :=
  f ← this;
  if (maxFiles f <=? 0)%Z then mret None
  else
    r ← ask (filepath_Glob (buildGlobPattern f));
    match r with
    | inl err => mret (Some err)
    | inr matches =>
        files ← ask (fun s => candidates (current f) s matches);
        if (Z.of_nat (length files) <=? maxFiles f)%Z then mret None
        else
          let files := sort_Slice After files in
          removeEach (drop (Z.to_nat (maxFiles f)) files)
    end.

(** [checkAndRotate] *)
Definition checkAndRotate : M unit :=
  f ← this;
  now ← ask os.clock;
  let formattedFileName := time_Format now (fileName f) in
  let current' := filepath_Join (dir f) formattedFileName in
  if String.eqb current' (current f) then mret tt
  else
    flushed ← match buf f with
              | Some _ =>
                  e ← buf_Flush;
                  match e with
                  | Some _ => mret false
                  | None => update (set_buf None);; mret true
                  end
              | None => mret true
              end;
    if negb flushed then mret tt
    else
      f ← this;
      closed ← match file f with
               | Some _ =>
                   e ← sys (os.Close (file f));
                   match e with
                   | Some _ => mret false
                   | None => update (set_file None);; mret true
                   end
               | None => mret true
               end;
      if negb closed then mret tt
      else
        update (set_current current');;
        e ← openCurrentLocked;
        match e with
        | Some _ => mret tt
        | None =>
            f ← this;
            if (0 <? maxFiles f)%Z then cleanOldFiles;; mret tt
            else mret tt
        end.

(** [NewFileWriterWithFlushInterval]: build the struct, open the first
    file; the rotation goroutine is running on return. *)
Definition NewFileWriterWithFlushInterval
    (path : string) (maxFiles flushIntervalSeconds : Z) (s : os.FS)
  : outcome (FileWriter * os.FS) :=
  let fw := mkFileWriter path (filepath_Dir path) (filepath_Base path)
              EmptyString None None maxFiles
              (wrap64 (flushIntervalSeconds * time.Second)) false in
  match checkAndRotate (s, fw) with
  | Done (_, (s', fw')) => Done (fw', s')
  | Panic => Panic
  end.

(** [NewFileWriter] *)
Definition NewFileWriter (path : string) (maxFiles : Z) (s : os.FS)
  : outcome (FileWriter * os.FS) :=
  NewFileWriterWithFlushInterval path maxFiles 0 s.

(** What can happen to a writer, one atomic step each: a caller writes
    or closes, the rotation goroutine's tickers fire, the clock moves.
    After the goroutine has exited its tickers fire no more, and the
    flush ticker exists only for a positive interval. *)
Inductive event : Type :=
| EvWrite (p : string)
| EvClose
| EvRotateTick
| EvFlushTick
| EvClock (t : Z).

Definition handle (e : event) : M unit :=
  match e with
  | EvWrite p => Write p;; mret tt
  | EvClose => Close;; mret tt
  | EvRotateTick =>
      f ← this;
      if done f then mret tt else checkAndRotate
  | EvFlushTick =>
      f ← this;
      if done f || negb (0 <? flushInterval f)%Z then mret tt
      else flushBuffer
  | EvClock t => sys (fun s => (tt, os.setClock t s))
  end.

(** A run of events from a state; a panic ends it. *)
Fixpoint runEvents (es : list event) (st : os.FS * FileWriter)
  : outcome (os.FS * FileWriter) :=
  match es with
  | [] => Done st
  | e :: rest =>
      match handle e st with
      | Done (_, st') => runEvents rest st'
      | Panic => Panic
      end
  end.

(** The rotated files a pruning pass looks at, and the ones that count
    for retention afterwards: matches of the derived glob other than
    the current file that stat as files. *)
Definition oldFiles (s : os.FS) (f : FileWriter) : list entry :=
  match filepath_Glob (buildGlobPattern f) s with
  | inl _ => []
  | inr matches => candidates (current f) s matches
  end.

(** The glob as the specification words it: only the named tokens become
    wildcards. *)
Definition claimedGlobPattern (f : FileWriter) : string :=
  filepath_Join (dir f)
    (layout.collapse
       (layout.wildcarded (layout.tokenize layout.namedTokens (fileName f)))).

(** The literal bytes of a tokenisation, in order. *)
Definition literals (ps : list layout.piece) : string :=
  fold_right (fun p acc => match p with
                           | layout.Tok _ => acc
                           | layout.Lit c => String c acc
                           end) EmptyString ps.

(** A string without its wildcards. *)
Fixpoint noStars (s : string) : string :=
  match s with
  | EmptyString => EmptyString
  | String c s' => if Ascii.eqb c "*" then noStars s' else String c (noStars s')
  end.

(** Every run of adjacent tokens as one wildcard, every literal byte as
    it stands. *)
Fixpoint tokenRuns (ps : list layout.piece) : string :=
  match ps with
  | [] => EmptyString
  | layout.Lit c :: rest => String c (tokenRuns rest)
  | layout.Tok _ :: rest =>
      match rest with
      | layout.Tok _ :: _ => tokenRuns rest
      | _ => String "*" (tokenRuns rest)
      end
  end.

(** No literal byte of the tokenisation is the wildcard. *)
Definition starFree (ps : list layout.piece) : Prop :=
  forall c, In (layout.Lit c) ps -> c <> "*"%char.

End file_writer.

(** A pointer is not nil. *)
Definition present {A : Type} (o : option A) : bool :=
  match o with
  | Some _ => true
  | None => false
  end.

(** What a write leaves alone: the descriptors, and for every path whether
    it exists and how its close will fare. *)
Definition sameFiles (s s1 : os.FS) : Prop :=
  os.handles s1 = os.handles s /\
  forall name,
    (os.closeErr <$> os.nodes s1 !! name) = (os.closeErr <$> os.nodes s !! name).

(** The state invariant of the specification: a buffer is present exactly
    when buffering is enabled and a file is open. *)
Definition bufInv (f : FileWriter) : Prop :=
  is_Some (buf f) <-> (0 < flushInterval f)%Z /\ is_Some (file f).

(** Its robust half: a buffer is present only then. *)
Definition bufOnlyIf (f : FileWriter) : Prop :=
  is_Some (buf f) -> (0 < flushInterval f)%Z /\ is_Some (file f).

(** Closing the descriptor the writer holds will succeed: it is live and
    its file reports no deferred error. *)
Definition closeOK (s : os.FS) (f : FileWriter) : Prop :=
  forall fd, file f = Some fd ->
    exists name, os.handles s !! fd = Some name /\
      forall nd, os.nodes s !! name = Some nd -> os.closeErr nd = false.

(** The largest flush interval, in seconds, that fits [time.Duration]. *)
Definition maxFlushSeconds : Z := 9223372036.

(** The three facts kept about a step from [f] on [s] to [f']: the flush
    interval is a constant, a buffer stays tied to buffering and an open
    file, and the full invariant survives when the close succeeds. *)
Definition keeps (s : os.FS) (f f' : FileWriter) : Prop :=
  flushInterval f' = flushInterval f /\
  (bufOnlyIf f -> bufOnlyIf f') /\
  (bufInv f -> closeOK s f -> bufInv f').

(* ===================================================================== *)
(** ** handler.go *)
(* ===================================================================== *)

(** Values of type [interface{}]: nil, a string, an integer, or a value of
    another named type with its printed form. *)
Inductive any : Type :=
| Nil
| Str (s : string)
| Int (z : Z)
| Named (type value : string).

#[global] Instance any_eq_dec : EqDecision any.
Proof. solve_decision. Defined.

Module context.

(** [context.Context], as far as it is read: its [Value] method. *)
Definition Context : Type := any -> any.

Definition Background : Context := fun _ => Nil.

Definition WithValue (parent : Context) (key val : any) : Context :=
  fun k => if decide (k = key) then val else parent k.

End context.

Module slog.

Definition Level : Type := Z.
Definition LevelDebug : Level := (-4)%Z.
Definition LevelInfo : Level := 0%Z.
Definition LevelWarn : Level := 4%Z.
Definition LevelError : Level := 8%Z.

Definition TimeKey : string := "time".

Inductive Value : Type :=
| StringValue (s : string)
| TimeValue (t : Z)
| AnyValue (v : any).

Record Attr : Type := mkAttr { Key : string; Val : Value }.

(** [func(groups []string, a Attr) Attr]; [Value.Time] panics on a value
    of another kind. *)
Definition ReplaceAttrFn : Type := list string -> Attr -> outcome Attr.

(** [slog.HandlerOptions]; a nil [Level] is [None]. *)
Record HandlerOptions : Type := mkHandlerOptions {
  hoLevel : option Level;
  hoAddSource : bool;
  hoReplaceAttr : option ReplaceAttrFn
}.

End slog.

(** The store the handler's writer lives in: the file system, the
    [FileWriter] objects by address, and byte stores of other writers. *)
Record Heap : Type := mkHeap {
  fs : os.FS;
  writers : gmap nat FileWriter;
  stores : gmap nat string
}.

(** An implementation of [io.Writer] from outside the package; [uClose] is
    present when the type also has a [Close() error] method. *)
Record UserWriter : Type := mkUserWriter {
  uWrite : string -> Heap -> outcome ((nat * option error) * Heap);
  uClose : option (Heap -> outcome (option error * Heap))
}.

(** A value of interface type [io.Writer]: dynamic type and pointer. *)
Inductive io_Writer : Type :=
| W_File (f : os.File)
| W_FileWriter (addr : nat)
| W_User (u : UserWriter).

(** [os.Stdout] *)
Definition Stdout : os.File := 1%nat.

Inductive FormatType : Type :=
| FormatLine
| FormatJSON
| FormatText
| FormatUnknown (n : Z).   (* any other integer *)

Definition defaultTraceIDFieldName : string := "trace_id".
Definition defaultSpanIDFieldName : string := "span_id".

Record TraceInfo : Type := mkTraceInfo { TraceID : string; SpanID : string }.

Definition TraceExtractor : Type := context.Context -> option TraceInfo.
Definition RecordHandler : Type :=
  context.Context -> list slog.Attr -> list slog.Attr.

Record Options : Type := mkOptions {
  Writer : option io_Writer;
  LogPath : string;
  MaxFiles : Z;
  FlushInterval : Z;
  Level : slog.Level;
  Format : FormatType;
  AddSource : bool;
  ReplaceAttr : option slog.ReplaceAttrFn;
  optTraceExtractor : option TraceExtractor;
  TraceIDFieldName : string;
  SpanIDFieldName : string;
  optRecordHandler : option RecordHandler
}.

(** The formatting handler inside [Handler]. *)
Inductive slog_Handler : Type :=
| JSONHandler (w : io_Writer) (o : slog.HandlerOptions)
| TextHandler (w : io_Writer) (o : slog.HandlerOptions)
| LineHandler (w : io_Writer) (o : slog.HandlerOptions)
              (attrs : list slog.Attr) (groups : list string).

Record Handler : Type := mkHandler {
  opts : Options;
  writer : io_Writer;
  handler : slog_Handler;
  traceExtractor : option TraceExtractor;
  traceIDFieldName : string;
  spanIDFieldName : string;
  recordHandle : option RecordHandler
}.

Section handler.
Context `{GoLib}.

(** [defaultTimeReplaceAttr] *)
Definition defaultTimeReplaceAttr : slog.ReplaceAttrFn :=
  fun groups a =>
    if (length groups =? 0)%nat && String.eqb (slog.Key a) slog.TimeKey then
      match slog.Val a with
      | slog.TimeValue t =>
          Done (slog.mkAttr (slog.Key a)
                  (slog.StringValue (time_Format t "2006-01-02 15:04:05")))
      | _ => Panic
      end
    else Done a.

(** [mergeReplaceAttr] *)
Definition mergeReplaceAttr (defaultReplace userReplace : option slog.ReplaceAttrFn)
  : option slog.ReplaceAttrFn :=
  match userReplace with
  | None => defaultReplace
  | Some user =>
      match defaultReplace with
      | None => userReplace
      | Some dflt =>
          Some (fun groups a =>
                  match dflt groups a with
                  | Done a' => user groups a'
                  | Panic => Panic
                  end)
      end
  end.

(** The loop over the key variants: the first value that is a non-empty
    string wins. *)
Fixpoint firstString (ctx : context.Context) (keys : list any) : string :=
  match keys with
  | [] => EmptyString
  | key :: rest =>
      match ctx key with
      | Nil => firstString ctx rest
      | Str tid => if negb (String.eqb tid EmptyString) then tid
                   else firstString ctx rest
      | _ => firstString ctx rest
      end
  end.

Definition traceKeys : list any :=
  [Str "trace_id"; Str "traceId"; Str "TraceID"; Str "TRACE_ID"].
Definition spanKeys : list any :=
  [Str "span_id"; Str "spanId"; Str "SpanID"; Str "SPAN_ID"].

(** [DefaultTraceExtractor] *)
Definition DefaultTraceExtractor : TraceExtractor := fun ctx =>
  let traceID := firstString ctx traceKeys in
  let spanID := firstString ctx spanKeys in
  if String.eqb traceID EmptyString && String.eqb spanID EmptyString then None
  else Some (mkTraceInfo traceID spanID).

(** A key counts when its value is a non-empty string. *)
Definition counts (ctx : context.Context) (key : any) : Prop :=
  exists s, ctx key = Str s /\ s <> EmptyString.

(** [s] is what the key variants yield in priority order: the value of
    the first key that counts, or the empty string when none does. *)
Definition firstNonEmpty (ctx : context.Context) (keys : list any) (s : string)
  : Prop :=
  (exists i key, keys !! i = Some key /\ ctx key = Str s /\ s <> EmptyString /\
     forall j key', (j < i)%nat -> keys !! j = Some key' -> ~ counts ctx key')
  \/ (s = EmptyString /\ forall key, key ∈ keys -> ~ counts ctx key).

(** [defaultOptions] *)
Definition defaultOptions : Options :=
  mkOptions None EmptyString 0 0 slog.LevelInfo FormatLine false None None
            defaultTraceIDFieldName defaultSpanIDFieldName None.

(** [NewLineHandler] *)
Definition NewLineHandler (w : io_Writer) (o : slog.HandlerOptions)
  : slog_Handler :=
  LineHandler w o [] [].

(** A fresh address for a [FileWriter]. *)
Definition freshAddr (h : Heap) : nat := fresh (dom (writers h)).

(** [NewHandler]; a nil [opts] is [None]. *)
Definition NewHandler (o : option Options) (h : Heap) : outcome (Handler * Heap) :=
  let opts := match o with
              | None => defaultOptions
              | Some opts => opts
              end in
  let chosen :=
    match Writer opts with
    | Some w => Done (w, h)
    | None =>
        if negb (String.eqb (LogPath opts) EmptyString) then
          match NewFileWriterWithFlushInterval (LogPath opts) (MaxFiles opts)
                  (FlushInterval opts) (fs h) with
          | Done (fw, s) =>
              Done (W_FileWriter (freshAddr h),
                    mkHeap s (<[freshAddr h := fw]> (writers h)) (stores h))
          | Panic => Panic
          end
        else Done (W_File Stdout, h)
    end in
  match chosen with
  | Panic => Panic
  | Done (w, h') =>
      let replaceAttr :=
        mergeReplaceAttr (Some defaultTimeReplaceAttr) (ReplaceAttr opts) in
      let handlerOpts :=
        slog.mkHandlerOptions (Some (Level opts)) (AddSource opts) replaceAttr in
      let inner :=
        match Format opts with
        | FormatJSON => JSONHandler w handlerOpts
        | FormatText => TextHandler w handlerOpts
        | FormatLine => NewLineHandler w handlerOpts
        | FormatUnknown _ => NewLineHandler w handlerOpts
        end in
      Done (mkHandler opts w inner (optTraceExtractor opts)
              (TraceIDFieldName opts) (SpanIDFieldName opts)
              (optRecordHandler opts), h')
  end.

(** [Enabled] of the inner handlers: [LineHandler.Enabled] from
    line_handler.go, and slog's own for JSON and text. *)
Definition inner_Enabled (hd : slog_Handler) (level : slog.Level) : bool :=
  match hd with
  | LineHandler _ o _ _ =>
      match slog.hoLevel o with
      | None => true
      | Some min => (min <=? level)%Z
      end
  | JSONHandler _ o | TextHandler _ o =>
      match slog.hoLevel o with
      | None => (slog.LevelInfo <=? level)%Z
      | Some min => (min <=? level)%Z
      end
  end.

(** [Handler.Enabled] *)
Definition Enabled (h : Handler) (level : slog.Level) : bool :=
  inner_Enabled (handler h) level.

(** The type assertion [w.(io.Closer)]: the [Close] method of the
    dynamic type, when it has one.  [*os.File] and [*FileWriter] do. *)
Definition as_Closer (w : io_Writer)
  : option (Heap -> outcome (option error * Heap)) :=
  match w with
  | W_File f =>
      Some (fun h =>
              let '(e, s) := os.Close (Some f) (fs h) in
              Done (e, mkHeap s (writers h) (stores h)))
  | W_FileWriter a =>
      Some (fun h =>
              match writers h !! a with
              | None => Panic
              | Some fw =>
                  match Close (fs h, fw) with
                  | Done (e, (s, fw')) =>
                      Done (e, mkHeap s (<[a := fw']> (writers h)) (stores h))
                  | Panic => Panic
                  end
              end)
  | W_User u => uClose u
  end.

(** [Handler.Close] *)
Definition Handler_Close (h : Handler) (hp : Heap) : outcome (option error * Heap) :=
  match as_Closer (writer h) with
  | Some close => close hp
  | None => Done (None, hp)
  end.

End handler.

(* ===================================================================== *)
(** ** Logging a record: handler.go and line_handler.go *)
(* ===================================================================== *)

(** [slog.Record]: time, message, level and the attributes in the order
    they were added. *)
Record slog_Record : Type := mkRecord {
  rTime : Z;
  rMessage : string;
  rLevel : slog.Level;
  rAttrs : list slog.Attr
}.

(** Routines of packages unicode, fmt, encoding/json and log/slog whose
    code is not part of glog.  The three string routines are the slow
    paths of [strings.ToLower] and [strings.TrimSpace], taken only for
    input that holds a byte outside ASCII. *)
Class GoText : Type := {
  Map_unicode_ToLower : string -> string;
  TrimFunc_IsSpace : string -> string;
  TrimRightFunc_IsSpace : string -> string;
  (* [Value.String()] of a value whose kind is not string *)
  Value_format : slog.Value -> string;
  (* [json.Marshal] of the map of fields; [None] when it returns an error *)
  json_Marshal : gmap string slog.Value -> option string;
  (* the bytes slog's own JSON ([true]) and text ([false]) handlers build
     for a record, which they hand to the writer in one [Write] *)
  slog_bytes : bool -> slog.HandlerOptions -> slog_Record -> outcome string
}.

(** Running one call after another, a panic ending both. *)
Definition andThen {A B : Type} (x : outcome A) (k : A -> outcome B) : outcome B :=
  match x with
  | Done a => k a
  | Panic => Panic
  end.

(** A test on every byte, and a map over the bytes. *)
Fixpoint allBytes (P : ascii -> bool) (s : string) : bool :=
  match s with
  | EmptyString => true
  | String c s' => P c && allBytes P s'
  end.

Definition mapBytes (g : ascii -> ascii) : string -> string :=
  fix go (s : string) : string :=
    match s with
    | EmptyString => EmptyString
    | String c s' => String (g c) (go s')
    end.

(** [c < utf8.RuneSelf] *)
Definition isASCII (c : ascii) : bool := (N_of_ascii c <? 128)%N.

(** ['A' <= c && c <= 'Z'], and [c += 'a' - 'A'] *)
Definition isUpper (c : ascii) : bool := regexp.inRange "A" "Z" c.
Definition lowerByte (c : ascii) : ascii :=
  if isUpper c then ascii_of_N (N_of_ascii c + 32) else c.

(** The table [asciiSpace]: tab, line feed, vertical tab, form feed,
    carriage return and space. *)
Definition asciiSpace (c : ascii) : bool :=
  let n := N_of_ascii c in
  ((9 <=? n)%N && (n <=? 13)%N) || (n =? 32)%N.

Section strings_more.
Context `{GoText}.

(** [strings.ToLower]: ASCII input is lowered byte by byte. *)
Definition strings_ToLower (s : string) : string :=
  if allBytes isASCII s then mapBytes lowerByte s
  else Map_unicode_ToLower s.

(** The first loop of [strings.TrimSpace]: skip ASCII space from the
    left.  [inl rest]: the loop ended at [rest], which is empty or starts
    with an ASCII byte that is no space; [inr rest]: it ran into a byte
    outside ASCII, the first of [rest]. *)
Fixpoint trimLeft (s : string) : string + string :=
  match s with
  | EmptyString => inl EmptyString
  | String c s' =>
      if negb (isASCII c) then inr s
      else if asciiSpace c then trimLeft s'
      else inl s
  end.

(** The second loop, from the right: [inl t] when it ended at the slice
    [t] (empty, or ending in an ASCII byte that is no space), [inr t] when
    it ran into a byte outside ASCII, the last of [t]. *)
Fixpoint trimRight (s : string) : string + string :=
  match s with
  | EmptyString => inl EmptyString
  | String c s' =>
      match trimRight s' with
      | inr t => inr (String c t)
      | inl (String c' t) => inl (String c (String c' t))
      | inl EmptyString =>
          if negb (isASCII c) then inr (String c EmptyString)
          else if asciiSpace c then inl EmptyString
          else inl (String c EmptyString)
      end
  end.

(** [strings.TrimSpace] *)
Definition strings_TrimSpace (s : string) : string :=
  match trimLeft s with
  | inr rest => TrimFunc_IsSpace rest
  | inl rest =>
      match trimRight rest with
      | inr t => TrimRightFunc_IsSpace t
      | inl t => t
      end
  end.

(** [ParseLevel] *)
Definition ParseLevel (s : string) : slog.Level :=
  let t := strings_ToLower (strings_TrimSpace s) in
  if String.eqb t "debug" then slog.LevelDebug
  else if String.eqb t "info" then slog.LevelInfo
  else if String.eqb t "warn" || String.eqb t "warning" then slog.LevelWarn
  else if String.eqb t "error" then slog.LevelError
  else slog.LevelInfo.

End strings_more.

(** [strings.Join(elems, sep)] *)
Fixpoint strings_Join (elems : list string) (sep : string) : string :=
  match elems with
  | [] => EmptyString
  | [a] => a
  | a :: rest => a +:+ sep +:+ strings_Join rest sep
  end.

(** Decimal digits of a natural number, most significant first; a number
    has no more decimal than binary digits, which bounds the loop. *)
Fixpoint digitsOf (fuel : nat) (n : N) (acc : string) : string :=
  match fuel with
  | O => acc
  | S fuel' =>
      let acc' := String (ascii_of_N (48 + n mod 10)) acc in
      if (n <? 10)%N then acc' else digitsOf fuel' (n / 10) acc'
  end.

Definition decimal (n : N) : string :=
  digitsOf (S (N.to_nat (N.log2 n))) n EmptyString.

(** [fmt.Sprintf("%+d", val)] *)
Definition signed (val : Z) : string :=
  if (val <? 0)%Z then String "-" (decimal (Z.to_N (- val)))
  else String "+" (decimal (Z.to_N val)).

(** [Level.String] of log/slog: the name of the nearest level below, and
    the distance from it. *)
Definition slog_Level_String (l : slog.Level) : string :=
  let str (base : string) (val : Z) :=
    if (val =? 0)%Z then base else base +:+ signed val in
  if (l <? slog.LevelInfo)%Z then str "DEBUG" (l - slog.LevelDebug)%Z
  else if (l <? slog.LevelWarn)%Z then str "INFO" (l - slog.LevelInfo)%Z
  else if (l <? slog.LevelError)%Z then str "WARN" (l - slog.LevelWarn)%Z
  else str "ERROR" (l - slog.LevelError)%Z.

Definition slog_LevelKey : string := "level".

(** [r.AddAttrs(attrs...)] *)
Definition AddAttrs (r : slog_Record) (attrs : list slog.Attr) : slog_Record :=
  mkRecord (rTime r) (rMessage r) (rLevel r) (rAttrs r ++ attrs).

(** The line feed that ends a line. *)
Definition newline : string := String (ascii_of_N 10) EmptyString.

(** [v.Kind() == slog.KindString] *)
Definition isKindString (v : slog.Value) : bool :=
  match v with
  | slog.StringValue _ => true
  | _ => false
  end.

(** [w.Write(p)] through the interface; [io.WriteString(w, s)] comes to
    the same call for each of these writers. *)
Definition io_Write (w : io_Writer) (p : string) (h : Heap)
  : outcome ((nat * option error) * Heap) :=
  match w with
  | W_File f =>
      let '(r, s) := os.Write (Some f) p (fs h) in
      Done (r, mkHeap s (writers h) (stores h))
  | W_FileWriter a =>
      match writers h !! a with
      | None => Panic
      | Some fw =>
          match Write p (fs h, fw) with
          | Done (r, (s, fw')) =>
              Done (r, mkHeap s (<[a := fw']> (writers h)) (stores h))
          | Panic => Panic
          end
      end
  | W_User u => uWrite u p h
  end.

Section line_handler.
Context `{GoLib} `{GoText}.

(** [v.String()] *)
Definition Value_String (v : slog.Value) : string :=
  match v with
  | slog.StringValue s => s
  | _ => Value_format v
  end.

(** [h.opts.ReplaceAttr(groups, a)] when the option is set. *)
Definition replaced (o : slog.HandlerOptions) (groups : list string)
    (a : slog.Attr) : outcome slog.Attr :=
  match slog.hoReplaceAttr o with
  | Some replace => replace groups a
  | None => Done a
  end.

(** The key of a field: the attribute's key behind the group prefix. *)
Definition qualify (prefix key : string) : string :=
  if negb (String.eqb prefix EmptyString) then prefix +:+ "." +:+ key
  else key.

(** The closure [addAttr] of [LineHandler.Handle]. *)
Definition addAttr (o : slog.HandlerOptions) (prefix : string)
    (groups : list string) (a : slog.Attr) (fields : gmap string slog.Value)
  : outcome (gmap string slog.Value) :=
  andThen (replaced o groups a) (fun a =>
    if String.eqb (slog.Key a) EmptyString then Done fields
    else Done (<[qualify prefix (slog.Key a) := slog.Val a]> fields)).

(** The two loops that call it. *)
Fixpoint addAttrs (o : slog.HandlerOptions) (prefix : string)
    (groups : list string) (attrs : list slog.Attr)
    (fields : gmap string slog.Value) : outcome (gmap string slog.Value) :=
  match attrs with
  | [] => Done fields
  | a :: rest =>
      andThen (addAttr o prefix groups a fields)
              (addAttrs o prefix groups rest)
  end.

(** The map [fields] of [LineHandler.Handle]: the handler's attributes,
    then the record's. *)
Definition LineHandler_fields (o : slog.HandlerOptions) (attrs : list slog.Attr)
    (groups : list string) (r : slog_Record) : outcome (gmap string slog.Value) :=
  let prefix := strings_Join groups "." in
  andThen (addAttrs o prefix groups attrs ∅)
          (addAttrs o prefix [] (rAttrs r)).

(** The line [LineHandler.Handle] writes. *)
Definition LineHandler_line (o : slog.HandlerOptions) (attrs : list slog.Attr)
    (groups : list string) (r : slog_Record) : outcome string :=
  andThen (replaced o [] (slog.mkAttr slog.TimeKey (slog.TimeValue (rTime r))))
    (fun timeAttr =>
  let timeStr :=
    if isKindString (slog.Val timeAttr) then Value_String (slog.Val timeAttr)
    else time_Format (rTime r) "2006-01-02 15:04:05" in
  andThen (replaced o [] (slog.mkAttr slog_LevelKey
                            (slog.StringValue (slog_Level_String (rLevel r)))))
    (fun levelAttr =>
  let levelStr := Value_String (slog.Val levelAttr) in
  andThen (LineHandler_fields o attrs groups r) (fun fields =>
  let contextJSON :=
    if bool_decide (fields = ∅) then EmptyString
    else match json_Marshal fields with
         | Some b => " " +:+ b
         | None => EmptyString
         end in
  Done ("[" +:+ timeStr +:+ "] " +:+ levelStr +:+ ": " +:+ rMessage r
        +:+ contextJSON +:+ newline)))).

(** [LineHandler.Handle] *)
Definition LineHandler_Handle (w : io_Writer) (o : slog.HandlerOptions)
    (attrs : list slog.Attr) (groups : list string) (r : slog_Record)
    (hp : Heap) : outcome (option error * Heap) :=
  andThen (LineHandler_line o attrs groups r) (fun line =>
  andThen (io_Write w line hp) (fun '((_, err), hp') => Done (err, hp'))).

(** [LineHandler.WithAttrs] and [LineHandler.WithGroup], the receiver
    given by its fields. *)
Definition LineHandler_WithAttrs (w : io_Writer) (o : slog.HandlerOptions)
    (attrs : list slog.Attr) (groups : list string) (more : list slog.Attr)
  : slog_Handler :=
  LineHandler w o (attrs ++ more) groups.

Definition LineHandler_WithGroup (w : io_Writer) (o : slog.HandlerOptions)
    (attrs : list slog.Attr) (groups : list string) (name : string)
  : slog_Handler :=
  LineHandler w o attrs (groups ++ [name]).

(** [Handle] of the inner handler: [LineHandler.Handle], or slog's own. *)
Definition inner_Handle (hd : slog_Handler) (r : slog_Record) (hp : Heap)
  : outcome (option error * Heap) :=
  match hd with
  | LineHandler w o attrs groups => LineHandler_Handle w o attrs groups r hp
  | JSONHandler w o =>
      andThen (slog_bytes true o r) (fun b =>
      andThen (io_Write w b hp) (fun '((_, err), hp') => Done (err, hp')))
  | TextHandler w o =>
      andThen (slog_bytes false o r) (fun b =>
      andThen (io_Write w b hp) (fun '((_, err), hp') => Done (err, hp')))
  end.

(** The first half of [Handler.Handle]: the trace and span attributes
    added to the record. *)
Definition withTrace (h : Handler) (ctx : context.Context) (r : slog_Record)
  : slog_Record :=
  match traceExtractor h with
  | None => r
  | Some extract =>
      match extract ctx with
      | None => r
      | Some traceInfo =>
          let traceKey :=
            if String.eqb (traceIDFieldName h) EmptyString
            then defaultTraceIDFieldName else traceIDFieldName h in
          let spanKey :=
            if String.eqb (spanIDFieldName h) EmptyString
            then defaultSpanIDFieldName else spanIDFieldName h in
          let r :=
            if negb (String.eqb (TraceID traceInfo) EmptyString)
            then AddAttrs r [slog.mkAttr traceKey
                               (slog.StringValue (TraceID traceInfo))]
            else r in
          if negb (String.eqb (SpanID traceInfo) EmptyString)
          then AddAttrs r [slog.mkAttr spanKey
                             (slog.StringValue (SpanID traceInfo))]
          else r
      end
  end.

(** [Handler.Handle].  A record handler reaches the record through
    [AddAttrs]; it is given by what it makes of the attributes. *)
Definition Handler_Handle (h : Handler) (ctx : context.Context)
    (r : slog_Record) (hp : Heap) : outcome (option error * Heap) :=
  let r := withTrace h ctx r in
  let r := match recordHandle h with
           | Some handle =>
               mkRecord (rTime r) (rMessage r) (rLevel r) (handle ctx (rAttrs r))
           | None => r
           end in
  inner_Handle (handler h) r hp.

(** The fields a line handler collects for a record; slog's own handlers
    keep no such map. *)
Definition fieldsOf (hd : slog_Handler) (r : slog_Record)
  : outcome (gmap string slog.Value) :=
  match hd with
  | LineHandler _ o attrs groups => LineHandler_fields o attrs groups r
  | JSONHandler _ _ | TextHandler _ _ => Done ∅
  end.

(** The options the inner handler was built with, and the ones
    [NewHandler] hands to it. *)
Definition handlerOptions (hd : slog_Handler) : slog.HandlerOptions :=
  match hd with
  | JSONHandler _ o | TextHandler _ o | LineHandler _ o _ _ => o
  end.

Definition builtOptions (o : Options) : slog.HandlerOptions :=
  slog.mkHandlerOptions (Some (Level o)) (AddSource o)
    (mergeReplaceAttr (Some defaultTimeReplaceAttr) (ReplaceAttr o)).

End line_handler.

(** Options for a handler on a log path, everything else as the
    defaults have it. *)
Definition fileOptions (logPath : string) (maxFiles flushInterval : Z)
    (level : slog.Level) : Options :=
  mkOptions None logPath maxFiles flushInterval level FormatLine false None None
            EmptyString EmptyString None.

(* ===================================================================== *)
(** ** Notions the further properties are stated with *)
(* ===================================================================== *)

(** The bytes a writer holds back in its buffer. *)
Definition pendingBytes (f : FileWriter) : string :=
  match buf f with
  | Some b => bufio.pending b
  | None => EmptyString
  end.

(** The writer holds descriptor [fd], open on its current path, which
    exists and will close cleanly; a buffer, if there is one, belongs to a
    writer that buffers, wraps that descriptor and has recorded no error. *)
Definition attached (s : os.FS) (f : FileWriter) (fd : os.File) : Prop :=
  file f = Some fd /\
  os.handles s !! fd = Some (current f) /\
  (exists nd, os.nodes s !! current f = Some nd /\ os.closeErr nd = false) /\
  (forall b, buf f = Some b ->
     bufio.wr b = Some fd /\ bufio.err b = None /\ flushInterval f <> 0%Z).

(** What the current file will hold once the buffer is written out. *)
Definition logical (s : os.FS) (f : FileWriter) : option string :=
  (fun d => d +:+ pendingBytes f) <$> os.contents s (current f).

(** The bytes a run of events writes, in order. *)
Fixpoint written (es : list event) : string :=
  match es with
  | [] => EmptyString
  | EvWrite p :: rest => p +:+ written rest
  | _ :: rest => written rest
  end.

(** Events that neither close the writer nor move the clock. *)
Definition sameFile (e : event) : bool :=
  match e with
  | EvWrite _ | EvFlushTick | EvRotateTick => true
  | EvClose | EvClock _ => false
  end.

(** The name the clock gives is the current one: a rotation tick finds
    nothing to do. *)
Definition upToDate {H : GoLib} (s : os.FS) (f : FileWriter) : Prop :=
  filepath_Join (dir f) (time_Format (os.clock s) (fileName f)) = current f.

(** Descriptor [fd] is open on [name], which holds [d] and will close
    cleanly, on a device without a limit. *)
Definition holds (s : os.FS) (fd : os.File) (name d : string) : Prop :=
  os.handles s !! fd = Some name /\ os.free s = None /\
  exists nd, os.nodes s !! name = Some nd /\ os.data nd = d /\
             os.closeErr nd = false.

(** The buffer of a buffering writer has recorded the write error [e]. *)
Definition wedged (e : error) (f : FileWriter) : Prop :=
  is_Some (file f) /\ flushInterval f <> 0%Z /\
  exists b, buf f = Some b /\ bufio.err b = Some e.


(** ASCII lower-case letters and their capitals; bytes that are ASCII and
    no space; decimal digits. *)
Definition isLower (c : ascii) : bool := regexp.inRange "a" "z" c.
Definition upperByte (c : ascii) : ascii :=
  if isLower c then ascii_of_N (N_of_ascii c - 32) else c.
Definition solid (c : ascii) : bool := isASCII c && negb (asciiSpace c).
Definition isDigit (c : ascii) : bool := regexp.inRange "0" "9" c.

(** One attribute put into the fields when no [ReplaceAttr] interferes. *)
Definition put (prefix : string) (fields : gmap string slog.Value)
    (a : slog.Attr) : gmap string slog.Value :=
  if String.eqb (slog.Key a) EmptyString then fields
  else <[qualify prefix (slog.Key a) := slog.Val a]> fields.

(* ===================================================================== *)
(** ** A concrete library, used to run the model on examples *)
(* ===================================================================== *)

Module demo.

(** Insertion sort: one routine that meets the contract of [sort.Slice]. *)
Fixpoint insert {A : Type} (less : A -> A -> bool) (x : A) (l : list A)
  : list A :=
  match l with
  | [] => [x]
  | y :: l' => if less x y then x :: l else y :: insert less x l'
  end.

Definition sort {A : Type} (less : A -> A -> bool) (l : list A) : list A :=
  fold_right (insert less) [] l.

(** Glob matching with literal bytes and [*] (which stops at a
    separator); every pattern is well formed. *)
Fixpoint glob (p : string) : string -> bool :=
  match p with
  | EmptyString => fun s => String.eqb s EmptyString
  | String c p' =>
      if Ascii.eqb c "*" then
        fix star (s : string) : bool :=
          glob p' s ||
          match s with
          | EmptyString => false
          | String c' s' => negb (Ascii.eqb c' "/") && star s'
          end
      else fun s =>
        match s with
        | EmptyString => false
        | String c' s' => Ascii.eqb c c' && glob p' s'
        end
  end.

(** Paths of the shape [dir/base]. *)
Fixpoint afterLastSlash (p : string) : string :=
  match p with
  | EmptyString => EmptyString
  | String c p' =>
      match os.beforeLastSlash p' with
      | Some _ => afterLastSlash p'
      | None => if Ascii.eqb c "/" then p' else p
      end
  end.

Definition Join (d b : string) : string :=
  if String.eqb d "." then b else d +:+ "/" +:+ b.

(** Two decimal digits. *)
Definition digit (n : Z) : ascii := ascii_of_N (48 + Z.to_N (n mod 10)%Z).
Definition pad2 (n : Z) : string :=
  String (digit (n / 10)%Z) (String (digit n) EmptyString).
Definition plain (n : Z) : string :=
  if (n <? 10)%Z then String (digit n) EmptyString else pad2 n.

(** [Format] for a clock that counts the seconds of 2 January 2006. *)
Definition field (t : Z) (p : layout.piece) : string :=
  let h := ((t / 3600) mod 24)%Z in
  let h12 := if (h mod 12 =? 0)%Z then 12%Z else (h mod 12)%Z in
  let m := ((t / 60) mod 60)%Z in
  let s := (t mod 60)%Z in
  match p with
  | layout.Lit c => String c EmptyString
  | layout.Tok tk =>
      if String.eqb tk "15" then pad2 h
      else if String.eqb tk "03" then pad2 h12
      else if String.eqb tk "3" then plain h12
      else if String.eqb tk "04" then pad2 m
      else if String.eqb tk "4" then plain m
      else if String.eqb tk "05" then pad2 s
      else if String.eqb tk "5" then plain s
      else tk
  end.

Definition Format (t : Z) (lay : string) : string :=
  fold_right (fun p acc => field t p +:+ acc) EmptyString
             (layout.tokenize layout.numericTokens lay).

Definition lib : GoLib := {|
  time_Format := Format;
  filepath_Dir := os.parent;
  filepath_Base := afterLastSlash;
  filepath_Join := Join;
  filepath_Match := fun p s => Some (glob p s);
  sort_Slice := @sort
|}.

(** Example file systems: a log directory, empty or holding rotated
    files. *)
Definition regular (t : Z) (d : string) : os.Node :=
  os.mkNode os.Regular t d false false.
Definition directory : os.Node :=
  os.mkNode os.Directory 0 EmptyString false false.

Definition std : gmap nat string :=
  {[ 0%nat := "/dev/stdin"; 1%nat := "/dev/stdout"; 2%nat := "/dev/stderr" ]}.

Definition emptyLogs : os.FS :=
  os.mkFS {[ "logs" := directory ]} std 3 None 0.

(** The same directory on a device that takes no more bytes. *)
Definition fullLogs : os.FS :=
  os.mkFS {[ "logs" := directory ]} std 3 (Some 0%nat) 0.

(** The log file exists already, and closing it will report an error. *)
Definition flakyLogs : os.FS :=
  os.mkFS {[ "logs" := directory;
             "logs/app.log" := os.mkNode os.Regular 0 EmptyString false true ]}
          std 3 None 0.

(** Three rotated files next to the current one, which is open. *)
Definition rotated (oldest : os.Node) : os.FS :=
  os.mkFS {[ "logs" := directory;
             "logs/app-00-00-01.log" := oldest;
             "logs/app-00-00-02.log" := regular 2 "b";
             "logs/app-00-00-03.log" := regular 3 "c";
             "logs/app-00-00-04.log" := regular 4 EmptyString ]}
          (<[3%nat := "logs/app-00-00-04.log"]> std) 4 None 4.

Definition prunable : os.FS := rotated (regular 1 "a").
Definition pinned : os.FS :=
  rotated (os.mkNode os.Regular 1 "a" true false).

(** The same files, the second oldest one undeletable. *)
Definition pinnedMiddle : os.FS :=
  os.mkFS {[ "logs" := directory;
             "logs/app-00-00-01.log" := regular 1 "a";
             "logs/app-00-00-02.log" := os.mkNode os.Regular 2 "b" true false;
             "logs/app-00-00-03.log" := regular 3 "c";
             "logs/app-00-00-04.log" := regular 4 EmptyString ]}
          (<[3%nat := "logs/app-00-00-04.log"]> std) 4 None 4.

(** Writers. *)
Definition rotating (maxFiles : Z) : FileWriter :=
  mkFileWriter "logs/app-15-04-05.log" "logs" "app-15-04-05.log"
               "logs/app-00-00-04.log" (Some 3%nat) None maxFiles 0 false.

Definition hourly : FileWriter :=
  mkFileWriter "logs/app-2006-01-02-15.log" "logs" "app-2006-01-02-15.log"
               EmptyString None None 24 0 false.

Definition yearly : FileWriter :=
  mkFileWriter "logs/app-06.log" "logs" "app-06.log"
               EmptyString None None 0 0 false.

(** A writer on [logs/app.log] after a successful [Close]. *)
Definition closed (flushInterval : Z) : FileWriter :=
  mkFileWriter "logs/app.log" "logs" "app.log" "logs/app.log"
               None None 0 flushInterval true.

(** An unbuffered writer on [logs/app.log] whose file is open, as
    [NewFileWriter] leaves it on [emptyLogs]. *)
Definition opened : os.FS * FileWriter :=
  (os.mkFS {[ "logs" := directory; "logs/app.log" := regular 0 EmptyString ]}
           (<[3%nat := "logs/app.log"]> std) 4 None 0,
   mkFileWriter "logs/app.log" "logs" "app.log" "logs/app.log"
                (Some 3%nat) None 0 0 false).

(** A buffered writer, built on a file system and then driven. *)
Definition buffered (s : os.FS) (es : list event)
  : outcome (os.FS * FileWriter) :=
  match NewFileWriterWithFlushInterval (H := lib) "logs/app.log" 0 5 s with
  | Done (fw, s') => runEvents (H := lib) es (s', fw)
  | Panic => Panic
  end.

(** A context carrying two spellings of the trace key. *)
Definition tracedCtx : context.Context :=
  context.WithValue
    (context.WithValue
       (context.WithValue context.Background (Str "TraceID") (Str "t3"))
       (Str "traceId") (Str "t2"))
    (Str "trace_id") (Str EmptyString).

(** A writer in the manner of [bytes.Buffer]: no [Close] method. *)
Definition bytesBuffer (addr : nat) : UserWriter :=
  mkUserWriter
    (fun p h =>
       Done ((String.length p, None),
             mkHeap (fs h) (writers h)
               (<[addr := default EmptyString (stores h !! addr) +:+ p]>
                  (stores h))))
    None.

Definition heap0 : Heap := mkHeap emptyLogs ∅ ∅.

(** A buffered writer with its file open, as
    [NewFileWriterWithFlushInterval("logs/app.log", 0, 5)] leaves it on
    [emptyLogs]. *)
Definition bufferedOpen : os.FS * FileWriter :=
  (opened.1,
   mkFileWriter "logs/app.log" "logs" "app.log" "logs/app.log" (Some 3%nat)
     (Some (bufio.NewWriter (Some 3%nat))) 0 (5 * time.Second) false).

(** The same writer on a full device after a write and a flush tick: the
    buffer has recorded the error of the flush. *)
Definition stuck : os.FS * FileWriter :=
  (os.setFree (Some 0%nat) opened.1,
   mkFileWriter "logs/app.log" "logs" "app.log" "logs/app.log" (Some 3%nat)
     (Some (bufio.mkWriter (Some 3%nat) "x" (Some ErrNoSpace)))
     0 (5 * time.Second) false).

(** A writer built with a negative number of seconds. *)
Definition negative : os.FS * FileWriter :=
  (opened.1,
   mkFileWriter "logs/app.log" "logs" "app.log" "logs/app.log" (Some 3%nat)
     None 0 (- time.Second) false).

(** Toy stand-ins for the text routines: strings are rendered as JSON
    strings without escaping, everything else as [null]. *)
Definition quote : string := String (ascii_of_N 34) EmptyString.
Definition quoted (s : string) : string := quote +:+ s +:+ quote.

Definition member (kv : string * slog.Value) : string :=
  quoted kv.1 +:+ ":" +:+
  match kv.2 with
  | slog.StringValue s => quoted s
  | _ => "null"
  end.

Definition plainText : GoText := {|
  Map_unicode_ToLower := fun s => s;
  TrimFunc_IsSpace := fun s => s;
  TrimRightFunc_IsSpace := fun s => s;
  Value_format := fun _ => "?";
  json_Marshal := fun m =>
    Some ("{" +:+ strings_Join (member <$> map_to_list m) "," +:+ "}");
  slog_bytes := fun _ _ r => Done (rMessage r +:+ newline)
|}.

(** A record without attributes, and one with a stray [time] attribute. *)
Definition hello : slog_Record := mkRecord 3661 "hello" slog.LevelInfo [].
Definition noon : slog_Record :=
  mkRecord 3661 "lunch" slog.LevelInfo
    [slog.mkAttr "time" (slog.StringValue "noon")].

(** Options with the default trace extractor and a buffer to write to,
    and a context that carries a trace id. *)
Definition tracedOptions : Options :=
  mkOptions (Some (W_User (bytesBuffer 0))) EmptyString 0 0 slog.LevelInfo
    FormatLine false None (Some DefaultTraceExtractor) EmptyString EmptyString
    None.

Definition requestCtx : context.Context :=
  context.WithValue context.Background (Str "trace_id") (Str "abc").

End demo.

(* ===================================================================== *)
(** * Properties *)
(* ===================================================================== *)

(** Unfolding the writer's monad: the plain version, and one that also
    simplifies record projections. *)
Ltac unfold_M :=
  cbv beta iota delta [mbind M_bind mret M_ret this update sys ask fst snd] in *.

Ltac run_M :=
  cbv beta iota delta [mbind M_bind mret M_ret this update sys ask] in *;
  cbn in *.

(** Case split on the innermost stuck [match] of the goal. *)
Ltac split_match :=
  match goal with
  | |- context [match ?x with _ => _ end] =>
      lazymatch x with
      | context [match _ with _ => _ end] => fail
      | _ => destruct x eqn:?
      end
  end.

Ltac known_match :=
  match goal with
  | H : ?x = _ |- context [match ?x with _ => _ end] => rewrite H
  end.

Ltac crunch :=
  run_M; repeat (first [known_match | split_match]; run_M);
  try discriminate; try congruence.

Ltac go := run_M; repeat (known_match; run_M).

(* ===================================================================== *)
(** ** File names: the glob and the check interval *)
(* ===================================================================== *)

Section file_names.

(** *** Regular expressions and tokens *)

#[local] Arguments Ascii.eqb !a !b : simpl nomatch.

Lemma replaceFrom_skip r repl k s :
  regexp.replaceFrom r repl k s = regexp.replaceFrom r repl 0 (strings_.drop k s).
Proof.
  revert k; induction s as [|c s IH]; intros [|k]; simpl; try reflexivity.
  apply IH.
Qed.

Lemma scan_skip toks k s :
  layout.scan toks k s = layout.scan toks 0 (strings_.drop k s).
Proof.
  revert k; induction s as [|c s IH]; intros [|k]; simpl; try reflexivity.
  apply IH.
Qed.

Lemma length_drop_le k s : String.length (strings_.drop k s) <= String.length s.
Proof.
  revert s; induction k as [|k IH]; intros [|c s]; simpl; auto.
Qed.

Lemma collapse_cons c s : layout.collapse (String c s) = layout.consC c (layout.collapse s).
Proof.
  unfold layout.consC. simpl.
  destruct (Ascii.eqb c "*") eqn:Ec; [|reflexivity].
  destruct s as [|c' s']; [reflexivity|].
  destruct (Ascii.eqb c' "*") eqn:Ec'.
  - simpl. rewrite Ec'. destruct s' as [|c'' s'']; [rewrite Ec'; reflexivity|].
    destruct (Ascii.eqb c'' "*") eqn:Ec''.
    + (* the head of a collapsed run of stars is a star *)
      assert (Hhead : forall t, exists u, layout.collapse (String c' t) = String c' u).
      { clear -Ec'. induction t as [|d t IHt]; simpl; rewrite Ec'.
        - eexists; reflexivity.
        - destruct (Ascii.eqb d "*") eqn:Ed.
          + apply Ascii.eqb_eq in Ed. apply Ascii.eqb_eq in Ec'. subst.
            destruct IHt as [u Hu]. exists u. exact Hu.
          + eexists; reflexivity. }
      apply Ascii.eqb_eq in Ec''. subst c''.
      pose proof Ec' as Ec2. apply Ascii.eqb_eq in Ec2. subst c'.
      destruct (Hhead s'') as [u Hu]. rewrite Hu. reflexivity.
    + rewrite Ec'. reflexivity.
  - simpl. rewrite Ec'. rewrite Ec'. reflexivity.
Qed.

Lemma plusLoop_star fuel : forall n s,
  String.length s < fuel ->
  regexp.plusLoop (regexp.run (regexp.Char "*")) (fun n _ => Some n) fuel n s =
  match s with
  | String c s' => if Ascii.eqb "*" c then Some (S n + layout.stars s') else None
  | EmptyString => None
  end.
Proof.
  induction fuel as [|fuel IH]; intros n s Hlen; [lia|].
  destruct s as [|c s']; [reflexivity|].
  simpl. destruct (Ascii.eqb "*" c) eqn:Ec; [|reflexivity].
  replace (n <? S n) with true by (symmetry; apply Nat.ltb_lt; lia).
  rewrite IH by (simpl in Hlen; lia).
  destruct s' as [|c' s'']; simpl.
  - f_equal; lia.
  - rewrite (Ascii.eqb_sym c' "*"). destruct (Ascii.eqb "*" c'); f_equal; lia.
Qed.

Lemma matchLen_starsRe s :
  regexp.matchLen starsRe s =
  match s with
  | String c s' => if Ascii.eqb "*" c then Some (S (layout.stars s')) else None
  | EmptyString => None
  end.
Proof.
  change (regexp.matchLen starsRe s)
    with (regexp.plusLoop (regexp.run (regexp.Char "*")) (fun n _ => Some n)
            (S (String.length s)) 0 s).
  rewrite plusLoop_star by lia. reflexivity.
Qed.

Lemma collapse_star s :
  layout.collapse (String "*" s) = String "*" (layout.collapse (strings_.drop (layout.stars s) s)).
Proof.
  induction s as [|c s IH]; [reflexivity|].
  change (layout.collapse (String "*" (String c s)))
    with (if Ascii.eqb c "*" then layout.collapse (String c s)
          else String "*" (layout.collapse (String c s))).
  simpl layout.stars. destruct (Ascii.eqb c "*") eqn:Ec; [|reflexivity].
  apply Ascii.eqb_eq in Ec. subst c. simpl strings_.drop. exact IH.
Qed.

Lemma replace_stars_collapse s :
  regexp.ReplaceAllString starsRe s "*" = layout.collapse s.
Proof.
  unfold regexp.ReplaceAllString.
  remember (String.length s) as n eqn:Hn.
  assert (Hle : String.length s <= n) by lia. clear Hn.
  revert s Hle. induction n as [|n IH]; intros [|c s] Hle; simpl in Hle;
    try reflexivity; try lia.
  cbn [regexp.replaceFrom]. rewrite matchLen_starsRe.
  destruct (Ascii.eqb "*" c) eqn:Ec.
  - apply Ascii.eqb_eq in Ec. subst c.
    rewrite replaceFrom_skip, collapse_star. simpl. f_equal.
    apply IH. pose proof (length_drop_le (layout.stars s) s). lia.
  - rewrite IH by lia. simpl. rewrite Ascii.eqb_sym, Ec. reflexivity.
Qed.

Lemma inRange_1_5 c :
  regexp.inRange "1" "5" c =
  Ascii.eqb "1" c || Ascii.eqb "2" c || Ascii.eqb "3" c || Ascii.eqb "4" c
  || Ascii.eqb "5" c.
Proof. destruct c as [[] [] [] [] [] [] [] []]; reflexivity. Qed.

Lemma inRange_1_6 c :
  regexp.inRange "1" "6" c =
  Ascii.eqb "1" c || Ascii.eqb "2" c || Ascii.eqb "3" c || Ascii.eqb "4" c
  || Ascii.eqb "5" c || Ascii.eqb "6" c.
Proof. destruct c as [[] [] [] [] [] [] [] []]; reflexivity. Qed.

Ltac split_bytes :=
  repeat (cbn [regexp.run regexp.word strings_.HasPrefix List.find layout.tokenAt
               layout.numericTokens andb orb String.eqb String.length];
          try rewrite !inRange_1_5; try rewrite !inRange_1_6;
          match goal with
          | |- context [Ascii.eqb ?a ?b] =>
              is_var b; destruct (Ascii.eqb_spec a b); [subst b|]
          | |- context [match ?s with EmptyString => _ | String _ _ => _ end] =>
              is_var s; destruct s
          end).

Lemma timeRe_tokenAt c s' :
  match layout.tokenAt layout.numericTokens (String c s') with
  | None => regexp.matchLen timeRe (String c s') = None
  | Some t =>
      if String.eqb t "15" then
        regexp.matchLen timeRe (String c s') = Some 1 /\
        exists rest, s' = String "5" rest /\ regexp.matchLen timeRe s' = Some 1
      else exists n, String.length t = S n /\
                     regexp.matchLen timeRe (String c s') = Some (S n)
  end.
Proof.
  unfold regexp.matchLen, timeRe.
  split_bytes.
  all: cbn.
  all: try congruence.
  all: try (eexists; split; reflexivity).
  all: split; [reflexivity | eexists; split; reflexivity].
Qed.

(** Neither expression matches the empty string, so [ReplaceAllString]
    never meets an empty match. *)
Lemma starsRe_nonempty s : regexp.matchLen starsRe s <> Some 0.
Proof.
  rewrite matchLen_starsRe. destruct s as [|c s]; [discriminate|].
  destruct (Ascii.eqb "*" c); discriminate.
Qed.

Lemma timeRe_nonempty s : regexp.matchLen timeRe s <> Some 0.
Proof.
  destruct s as [|c s]; [vm_compute; discriminate|].
  pose proof (timeRe_tokenAt c s) as Hc.
  destruct (layout.tokenAt layout.numericTokens (String c s)) as [t|].
  - destruct (String.eqb t "15").
    + destruct Hc as [-> _]. discriminate.
    + destruct Hc as [n [_ ->]]. discriminate.
  - rewrite Hc. discriminate.
Qed.

Lemma consC_star_idem z : layout.consC "*" (layout.consC "*" z) = layout.consC "*" z.
Proof.
  unfold layout.consC. cbn.
  destruct z as [|c z]; cbn; [reflexivity|].
  destruct (Ascii.eqb c "*") eqn:E; cbn; rewrite ?E; reflexivity.
Qed.

Lemma replaceFrom_eq r repl c s :
  regexp.replaceFrom r repl 0 (String c s) =
  match regexp.matchLen r (String c s) with
  | Some (S n) => repl +:+ regexp.replaceFrom r repl 0 (strings_.drop n s)
  | _ => String c (regexp.replaceFrom r repl 0 s)
  end.
Proof.
  cbn [regexp.replaceFrom].
  destruct (regexp.matchLen r (String c s)) as [[|n]|]; try reflexivity.
  rewrite replaceFrom_skip. reflexivity.
Qed.

Lemma scan_eq toks c s :
  layout.scan toks 0 (String c s) =
  match layout.tokenAt toks (String c s) with
  | Some t => layout.Tok t :: layout.scan toks 0 (strings_.drop (String.length t - 1) s)
  | None => layout.Lit c :: layout.scan toks 0 s
  end.
Proof.
  cbn [layout.scan].
  destruct (layout.tokenAt toks (String c s)); try reflexivity.
  rewrite scan_skip. reflexivity.
Qed.

Lemma append_one c x : String c EmptyString +:+ x = String c x.
Proof. reflexivity. Qed.

Lemma wildcarded_cons p ps :
  layout.wildcarded (p :: ps) = layout.wild p +:+ layout.wildcarded ps.
Proof. reflexivity. Qed.

Lemma replace_time_collapse s :
  layout.collapse (regexp.ReplaceAllString timeRe s "*") =
  layout.collapse (layout.wildcarded (layout.tokenize layout.numericTokens s)).
Proof.
  unfold regexp.ReplaceAllString, layout.tokenize.
  remember (String.length s) as n eqn:Hn.
  assert (Hle : String.length s <= n) by lia. clear Hn.
  revert s Hle. induction n as [|n IH]; intros [|c s] Hle; simpl in Hle;
    try reflexivity; try lia.
  rewrite replaceFrom_eq, scan_eq.
  pose proof (timeRe_tokenAt c s) as Hc.
  destruct (layout.tokenAt layout.numericTokens (String c s)) as [t|].
  - destruct (String.eqb t "15") eqn:Et.
    + destruct Hc as [Hm [rest [-> Hm']]]. rewrite Hm.
      apply String.eqb_eq in Et. subst t.
      cbn [strings_.drop String.length Nat.sub].
      rewrite replaceFrom_eq, Hm'.
      rewrite wildcarded_cons.
      cbn [strings_.drop layout.wild]. rewrite !append_one.
      rewrite !collapse_cons, consC_star_idem. f_equal.
      apply IH. simpl in Hle. lia.
    + destruct Hc as [k [Hk Hm]]. rewrite Hm, Hk.
      rewrite wildcarded_cons. cbn [layout.wild]. rewrite !append_one.
      rewrite !collapse_cons. f_equal.
      replace (S k - 1) with k by lia.
      apply IH. pose proof (length_drop_le k s). lia.
  - rewrite Hc, wildcarded_cons. cbn [layout.wild]. rewrite !append_one.
    rewrite !collapse_cons. f_equal. apply IH. lia.
Qed.

Lemma globName_tokens s :
  globName s =
  layout.collapse (layout.wildcarded (layout.tokenize layout.numericTokens s)).
Proof. unfold globName. rewrite replace_stars_collapse. apply replace_time_collapse. Qed.

(** *** The tokeniser loses nothing and invents nothing *)

Lemma HasPrefix_split s t :
  strings_.HasPrefix s t = true -> s = t +:+ strings_.drop (String.length t) s.
Proof.
  revert s; induction t as [|a t IH]; intros s Hp; [reflexivity|].
  destruct s as [|b s]; [discriminate|].
  cbn [strings_.HasPrefix] in Hp. apply andb_true_iff in Hp as [Hab Hp].
  apply Ascii.eqb_eq in Hab. subst b.
  cbn [String.length strings_.drop].
  change (String a t +:+ ?x) with (String a (t +:+ x)).
  f_equal. apply IH, Hp.
Qed.

Lemma tokenAt_Some toks s t :
  layout.tokenAt toks s = Some t -> In t toks /\ strings_.HasPrefix s t = true.
Proof. unfold layout.tokenAt. apply List.find_some. Qed.

Lemma unparse_scan toks :
  Forall (fun t => t <> EmptyString) toks ->
  forall s, layout.unparse (layout.scan toks 0 s) = s.
Proof.
  intros Hne s.
  remember (String.length s) as n eqn:Hn.
  assert (Hle : String.length s <= n) by lia. clear Hn.
  revert s Hle. induction n as [|n IH]; intros [|c s] Hle; simpl in Hle;
    try reflexivity; try lia.
  rewrite scan_eq.
  destruct (layout.tokenAt toks (String c s)) as [t|] eqn:Et.
  - apply tokenAt_Some in Et as [Hin Hp].
    rewrite Forall_forall in Hne. specialize (Hne t).
    destruct t as [|a t]; [exfalso; apply Hne; [apply list_elem_of_In, Hin|reflexivity]|].
    cbn [layout.unparse fold_right layout.text].
    change (foldr (fun p acc => layout.text p +:+ acc) EmptyString ?l)
      with (layout.unparse l).
    rewrite IH.
    + apply HasPrefix_split in Hp. cbn [String.length strings_.drop] in Hp.
      cbn [String.length]. replace (S (String.length t) - 1) with (String.length t) by lia.
      symmetry. exact Hp.
    + cbn [String.length]. replace (S (String.length t) - 1) with (String.length t) by lia.
      pose proof (length_drop_le (String.length t) s). lia.
  - cbn [layout.unparse fold_right layout.text].
    change (foldr (fun p acc => layout.text p +:+ acc) EmptyString ?l)
      with (layout.unparse l).
    rewrite IH by lia. reflexivity.
Qed.

Lemma scan_fromTokens toks s : forall k,
  Forall (layout.fromTokens toks) (layout.scan toks k s).
Proof.
  induction s as [|c s IH]; intros k; cbn [layout.scan]; [constructor|].
  destruct k as [|k]; [|apply IH].
  destruct (layout.tokenAt toks (String c s)) as [t|] eqn:Et.
  - constructor; [|apply IH]. apply tokenAt_Some in Et as [Hin _]. exact Hin.
  - constructor; [exact I|apply IH].
Qed.

Lemma numericTokens_nonempty :
  Forall (fun t => t <> EmptyString) layout.numericTokens.
Proof. repeat constructor; discriminate. Qed.

(** *** Seconds tokens and the byte "5" *)

Lemma Contains_drop s sub k :
  strings_.Contains (strings_.drop k s) sub = true -> strings_.Contains s sub = true.
Proof.
  revert s; induction k as [|k IH]; intros s Hc; [exact Hc|].
  destruct s as [|c s]; [exact Hc|].
  cbn [strings_.drop] in Hc. cbn [strings_.Contains].
  rewrite (IH s Hc). apply orb_true_r.
Qed.

Lemma scan_Tok_prefix toks t s : forall k,
  In (layout.Tok t) (layout.scan toks k s) ->
  exists j, strings_.HasPrefix (strings_.drop j s) t = true.
Proof.
  induction s as [|c s IH]; intros k Hin; cbn [layout.scan] in Hin; [destruct Hin|].
  destruct k as [|k].
  - destruct (layout.tokenAt toks (String c s)) as [t'|] eqn:Et.
    + destruct Hin as [Heq|Hin].
      * injection Heq as ->. apply tokenAt_Some in Et as [_ Hp]. exists 0. exact Hp.
      * destruct (IH _ Hin) as [j Hj]. exists (S j). exact Hj.
    + destruct Hin as [Heq|Hin]; [discriminate|].
      destruct (IH _ Hin) as [j Hj]. exists (S j). exact Hj.
  - destruct (IH _ Hin) as [j Hj]. exists (S j). exact Hj.
Qed.

(** X2.  Whenever the file name holds a seconds token of the layout the
    rotation check runs every second: [getCheckInterval] errs only on the
    side of checking too often. *)
Lemma getCheckInterval_seconds f :
  layout.hasSecondsToken (fileName f) = true -> getCheckInterval f = time.Second.
Proof.
  unfold layout.hasSecondsToken, layout.tokenize, getCheckInterval.
  intros Hs. apply existsb_exists in Hs as [p [Hin Hp]].
  destruct p as [t|c]; [|discriminate].
  destruct (scan_Tok_prefix _ _ _ _ Hin) as [j Hj].
  cbn [layout.isSecondsToken] in Hp. apply orb_true_iff in Hp as [Ht|Ht];
    apply String.eqb_eq in Ht; subst t.
  - replace (strings_.Contains (fileName f) "05") with true; [reflexivity|].
    symmetry. apply (Contains_drop _ _ j).
    destruct (strings_.drop j (fileName f)); cbn [strings_.Contains]; rewrite Hj;
      reflexivity.
  - replace (strings_.Contains (fileName f) "5") with true;
      [rewrite orb_true_r; reflexivity|].
    symmetry. apply (Contains_drop _ _ j).
    destruct (strings_.drop j (fileName f)); cbn [strings_.Contains]; rewrite Hj;
      reflexivity.
Qed.

(** X2, on the layout [app-15-04-05.log]. *)
Lemma getCheckInterval_seconds_witness :
  getCheckInterval (demo.rotating 1) = time.Second.
Proof.
  apply (getCheckInterval_seconds (demo.rotating 1)). vm_compute. reflexivity.
Defined.

(** *** C2 *)

(** C2 (code defect).  The layout [app-2006-01-02-15.log] of the README
    rotates by the hour and holds no seconds token, yet [getCheckInterval]
    answers one second: the byte "5" of the hour token "15" satisfies
    [strings.Contains(fileName, "5")]. *)
Lemma getCheckInterval_hourly_is_second :
  layout.hasSecondsToken (fileName demo.hourly) = false /\
  getCheckInterval demo.hourly = time.Second.
Proof. split; vm_compute; reflexivity. Qed.

(** *** C3 *)

(** What the collapsing of wildcards keeps: every byte that is no
    wildcard, and in a name without literal wildcards every literal. *)
Lemma wildcarded_Tok t ps :
  layout.wildcarded (layout.Tok t :: ps) = String "*" (layout.wildcarded ps).
Proof. reflexivity. Qed.

Lemma wildcarded_Lit c ps :
  layout.wildcarded (layout.Lit c :: ps) = String c (layout.wildcarded ps).
Proof. reflexivity. Qed.

Lemma noStars_consC c z :
  noStars (layout.consC c z) =
  if Ascii.eqb c "*" then noStars z else String c (noStars z).
Proof.
  unfold layout.consC. destruct (Ascii.eqb c "*") eqn:Ec.
  - destruct z as [|c' z]; cbn [noStars]; [rewrite Ec; reflexivity|].
    destruct (Ascii.eqb c' "*") eqn:Ec'; cbn [noStars]; rewrite ?Ec, ?Ec';
      reflexivity.
  - cbn [noStars]. rewrite Ec. reflexivity.
Qed.

Lemma noStars_collapse s : noStars (layout.collapse s) = noStars s.
Proof.
  induction s as [|c s IH]; [reflexivity|].
  rewrite collapse_cons, noStars_consC. cbn [noStars]. rewrite IH. reflexivity.
Qed.

Lemma noStars_wildcarded ps :
  noStars (layout.wildcarded ps) = noStars (literals ps).
Proof.
  induction ps as [|[t|c] ps IH]; [reflexivity| |].
  - rewrite wildcarded_Tok. cbn [noStars literals fold_right].
    change (Ascii.eqb "*" "*") with true. cbv iota. exact IH.
  - rewrite wildcarded_Lit. cbn [literals fold_right noStars].
    fold (literals ps). rewrite IH. reflexivity.
Qed.

Lemma collapse_tokenRuns ps :
  starFree ps -> layout.collapse (layout.wildcarded ps) = tokenRuns ps.
Proof.
  induction ps as [|[t|c] ps IH]; intros Hfree; [reflexivity| |].
  - assert (IH' : layout.collapse (layout.wildcarded ps) = tokenRuns ps).
    { apply IH. intros c Hc. apply Hfree. right. exact Hc. }
    rewrite wildcarded_Tok.
    destruct ps as [|[t'|c'] ps'].
    + reflexivity.
    + rewrite wildcarded_Tok in *. cbn [tokenRuns] in *.
      cbn [layout.collapse]. change (Ascii.eqb "*" "*") with true. cbv iota.
      exact IH'.
    + rewrite wildcarded_Lit in *.
      assert (Hc' : Ascii.eqb c' "*" = false).
      { apply Ascii.eqb_neq. apply Hfree. right. left. reflexivity. }
      cbn [layout.collapse]. change (Ascii.eqb "*" "*") with true. cbv iota.
      rewrite Hc'. cbn [layout.collapse] in IH'. rewrite Hc' in IH'.
      cbn [tokenRuns] in *. rewrite IH'. reflexivity.
  - assert (Hc : Ascii.eqb c "*" = false).
    { apply Ascii.eqb_neq. apply Hfree. left. reflexivity. }
    rewrite wildcarded_Lit. cbn [layout.collapse tokenRuns]. rewrite Hc.
    rewrite IH; [reflexivity|]. intros c0 Hc0. apply Hfree. right. exact Hc0.
Qed.

(** C3 (as stated, refuted).  With only the named tokens as wildcards the
    2-digit year [06] would stay in the glob; the code replaces it.  And
    a byte that belongs to no token is not always kept: the name
    [a**b.log] holds no token at all, yet its two literal wildcards
    become one. *)
Lemma buildGlobPattern_more_than_named_tokens :
  (buildGlobPattern (H := demo.lib) demo.yearly = "logs/app-*.log" /\
   claimedGlobPattern (H := demo.lib) demo.yearly = "logs/app-06.log" /\
   buildGlobPattern (H := demo.lib) demo.yearly <>
   claimedGlobPattern (H := demo.lib) demo.yearly) /\
  (layout.tokenize layout.numericTokens "a**b.log" =
   layout.Lit <$> list_ascii_of_string "a**b.log") /\
  globName "a**b.log" = "a*b.log".
Proof. vm_compute. repeat split; discriminate. Qed.

(** C3 (amended).  The glob is the directory joined with the file name in
    which exactly the numeric layout tokens (the named ones and the
    2-digit year) are wildcards, every run of wildcards being collapsed
    into one, whether a wildcard stands for a token or is a literal [*]
    of the name.  The tokenisation spells the file name back; every
    literal byte other than [*] is kept, in order; and in a name without
    a literal [*] every literal byte is kept where it is, each run of
    adjacent tokens being one wildcard. *)
Theorem buildGlobPattern_tokens `{GoLib} (f : FileWriter) :
  let ps := layout.tokenize layout.numericTokens (fileName f) in
  layout.unparse ps = fileName f /\
  Forall (layout.fromTokens layout.numericTokens) ps /\
  buildGlobPattern f =
  filepath_Join (dir f) (layout.collapse (layout.wildcarded ps)) /\
  noStars (globName (fileName f)) = noStars (literals ps) /\
  (starFree ps -> buildGlobPattern f = filepath_Join (dir f) (tokenRuns ps)).
Proof.
  cbv zeta. split; [|split; [|split; [|split]]].
  - apply unparse_scan, numericTokens_nonempty.
  - apply scan_fromTokens.
  - unfold buildGlobPattern. rewrite globName_tokens. reflexivity.
  - rewrite globName_tokens, noStars_collapse. apply noStars_wildcarded.
  - intros Hfree. unfold buildGlobPattern.
    rewrite globName_tokens, (collapse_tokenRuns _ Hfree). reflexivity.
Qed.

(** C3, an instance: the layout [app-15-04-05.log] holds no literal [*],
    and its three tokens become three wildcards between the hyphens. *)
Lemma buildGlobPattern_tokens_witness :
  buildGlobPattern (H := demo.lib) (demo.rotating 1) = "logs/app-*-*-*.log".
Proof.
  refine (proj2 (proj2 (proj2 (proj2
            (buildGlobPattern_tokens (H := demo.lib) (demo.rotating 1))))) _).
  intros c Hc. vm_compute in Hc.
  repeat (destruct Hc as [Hc|Hc];
          [first [discriminate Hc | injection Hc as <-; discriminate]|]).
  destruct Hc.
Defined.

End file_names.

(* ===================================================================== *)
(** ** The handler *)
(* ===================================================================== *)

(** *** Trace extraction *)

Lemma counts_Str ctx key s :
  ctx key = Str s -> (counts ctx key <-> s <> EmptyString).
Proof.
  intros Hv. unfold counts. split.
  - intros [s' [Hs' Hne]]. congruence.
  - intros Hne. exists s. split; [exact Hv|exact Hne].
Qed.

Lemma firstString_spec ctx keys : firstNonEmpty ctx keys (firstString ctx keys).
Proof.
  induction keys as [|key rest IH]; cbn [firstString].
  - right. split; [reflexivity|]. intros key Hin. inversion Hin.
  - assert (Hskip : ~ counts ctx key ->
              firstNonEmpty ctx (key :: rest) (firstString ctx rest)).
    { intros Hno. destruct IH as [[i [k [Hi [Hv [Hne Hbefore]]]]]|[He Hnone]].
      - left. exists (S i), k.
        split; [exact Hi|]. split; [exact Hv|]. split; [exact Hne|].
        intros [|j] key' Hlt Hj; cbn in Hj.
        + injection Hj as <-. exact Hno.
        + apply (Hbefore j); [lia|exact Hj].
      - right. split; [exact He|]. intros k Hin.
        apply elem_of_cons in Hin as [->|Hin]; [exact Hno|apply Hnone, Hin]. }
    destruct (ctx key) as [|s|z|ty v] eqn:Hv.
    + apply Hskip. intros [s [Hs _]]. congruence.
    + destruct (String.eqb s EmptyString) eqn:Es; cbn [negb].
      * apply Hskip. apply String.eqb_eq in Es. subst s.
        rewrite (counts_Str _ _ _ Hv). congruence.
      * left. exists 0, key. apply String.eqb_neq in Es.
        split; [reflexivity|]. split; [exact Hv|]. split; [exact Es|].
        intros j key' Hlt. lia.
    + apply Hskip. intros [s [Hs _]]. congruence.
    + apply Hskip. intros [s [Hs _]]. congruence.
Qed.

(** What the key variants yield is determined by the context. *)
Lemma firstNonEmpty_unique ctx keys s1 s2 :
  firstNonEmpty ctx keys s1 -> firstNonEmpty ctx keys s2 -> s1 = s2.
Proof.
  intros [[i [k [Hi [Hv [Hne Hb]]]]]|[He Hn]] [[i' [k' [Hi' [Hv' [Hne' Hb']]]]]|[He' Hn']].
  - destruct (Nat.lt_trichotomy i i') as [Hlt|[Heq|Hgt]].
    + exfalso. apply (Hb' i k Hlt Hi). exists s1. split; assumption.
    + subst i'. rewrite Hi in Hi'. injection Hi' as <-. congruence.
    + exfalso. apply (Hb i' k' Hgt Hi'). exists s2. split; assumption.
  - exfalso. apply (Hn' k); [eapply list_elem_of_lookup_2, Hi|].
    exists s1. split; assumption.
  - exfalso. apply (Hn k'); [eapply list_elem_of_lookup_2, Hi'|].
    exists s2. split; assumption.
  - congruence.
Qed.

(** *** C8 *)

(** C8.  For every context the default extractor takes, for the trace id
    and for the span id, the value of the first key variant (in the order
    trace_id, traceId, TraceID, TRACE_ID, and span_id, spanId, SpanID,
    SPAN_ID for the span, each looked up as a plain string) that holds a
    non-empty string, and answers nil exactly when both come out empty;
    otherwise it returns the pair.  The keys and their order are spelled
    out here, not taken from the definition. *)
Theorem DefaultTraceExtractor_first_match (ctx : context.Context) :
  exists traceID spanID,
    firstNonEmpty ctx
      [Str "trace_id"; Str "traceId"; Str "TraceID"; Str "TRACE_ID"] traceID /\
    firstNonEmpty ctx
      [Str "span_id"; Str "spanId"; Str "SpanID"; Str "SPAN_ID"] spanID /\
    (DefaultTraceExtractor ctx = None <->
       traceID = EmptyString /\ spanID = EmptyString) /\
    (~ (traceID = EmptyString /\ spanID = EmptyString) ->
       DefaultTraceExtractor ctx = Some (mkTraceInfo traceID spanID)).
Proof.
  exists (firstString ctx traceKeys), (firstString ctx spanKeys).
  split; [exact (firstString_spec ctx traceKeys)|].
  split; [exact (firstString_spec ctx spanKeys)|].
  unfold DefaultTraceExtractor.
  destruct (String.eqb_spec (firstString ctx traceKeys) EmptyString) as [Et|Et];
    destruct (String.eqb_spec (firstString ctx spanKeys) EmptyString) as [Es|Es];
    cbn [andb]; split; try tauto; try (split; [discriminate|tauto]).
Qed.

(** The keys are looked up as plain strings, first spelling first. *)
Example DefaultTraceExtractor_priority :
  DefaultTraceExtractor demo.tracedCtx = Some (mkTraceInfo "t2" EmptyString).
Proof. reflexivity. Qed.

(** *** C9 *)

(** C9.  [NewHandler(nil)] allocates nothing and returns a handler that
    writes to standard output through the single-line handler, lets
    through exactly the levels from Info up, and has neither a trace
    extractor nor a record handler. *)
Theorem NewHandler_nil_defaults `{GoLib} (hp : Heap) :
  exists h o,
    NewHandler None hp = Done (h, hp) /\
    opts h = defaultOptions /\
    writer h = W_File Stdout /\
    handler h = LineHandler (W_File Stdout) o [] [] /\
    slog.hoLevel o = Some slog.LevelInfo /\
    (forall level, Enabled h level = true <-> (slog.LevelInfo <= level)%Z) /\
    traceExtractor h = None /\
    recordHandle h = None.
Proof.
  eexists. eexists. split; [reflexivity|]. cbn.
  repeat split; try reflexivity.
  - intros Hl. apply Z.leb_le in Hl. exact Hl.
  - intros Hl. apply Z.leb_le. exact Hl.
Qed.

(** *** C10 *)

(** C10.  [Handler.Close] returns whatever the [Close] method of the
    writer returns when its dynamic type has one (an [os.File] such as
    standard output, a [FileWriter], or a foreign closer), and nil with
    nothing changed when it has none. *)
Theorem Handler_Close_delegates (h : Handler) (hp : Heap) :
  match as_Closer (writer h) with
  | Some close => Handler_Close h hp = close hp
  | None => Handler_Close h hp = Done (None, hp)
  end /\
  match writer h with
  | W_File f =>
      Handler_Close h hp =
      Done ((os.Close (Some f) (fs hp)).1,
            mkHeap (os.Close (Some f) (fs hp)).2 (writers hp) (stores hp))
  | W_FileWriter a =>
      Handler_Close h hp =
      match writers hp !! a with
      | Some fw =>
          match Close (fs hp, fw) with
          | Done (e, (s, fw')) =>
              Done (e, mkHeap s (<[a := fw']> (writers hp)) (stores hp))
          | Panic => Panic
          end
      | None => Panic
      end
  | W_User u =>
      Handler_Close h hp =
      match uClose u with
      | Some close => close hp
      | None => Done (None, hp)
      end
  end.
Proof.
  unfold Handler_Close. split.
  - destruct (as_Closer (writer h)); reflexivity.
  - destruct (writer h) as [f|a|u]; cbn [as_Closer].
    + destruct (os.Close (Some f) (fs hp)) as [e s]. reflexivity.
    + reflexivity.
    + reflexivity.
Qed.

(** A buffer in the manner of [bytes.Buffer] is no closer: closing the
    handler leaves it as it is. *)
Example Handler_Close_bytesBuffer :
  match NewHandler (H := demo.lib)
          (Some (mkOptions (Some (W_User (demo.bytesBuffer 0))) EmptyString 0 0
                   slog.LevelInfo FormatJSON false None None
                   "trace_id" "span_id" None)) demo.heap0 with
  | Done (h, hp) => Handler_Close h hp = Done (None, hp)
  | Panic => False
  end.
Proof. reflexivity. Qed.

(* ===================================================================== *)
(** ** Retention *)
(* ===================================================================== *)

(** *** The file system *)

Lemma elem_of_paths s p : p ∈ os.paths s <-> is_Some (os.nodes s !! p).
Proof.
  unfold os.paths. rewrite list_elem_of_fmap. split.
  - intros [[k v] [-> Hin]]. apply elem_of_map_to_list in Hin. cbn. eauto.
  - intros [v Hv]. exists (p, v). split; [reflexivity|].
    apply elem_of_map_to_list. exact Hv.
Qed.

Lemma NoDup_paths s : NoDup (os.paths s).
Proof. apply NoDup_fst_map_to_list. Qed.

Lemma Stat_nodes s s' p :
  os.nodes s' !! p = os.nodes s !! p -> os.Stat p s' = os.Stat p s.
Proof. unfold os.Stat. intros ->. reflexivity. Qed.

Lemma Remove_ok name s s' :
  os.Remove name s = (None, s') ->
  s' = os.setNodes (delete name (os.nodes s)) s.
Proof.
  unfold os.Remove. destruct (os.nodes s !! name) as [n|]; [|discriminate].
  destruct (os.immutable n); [discriminate|].
  destruct (os.nkind n); try (intros [= <-]; reflexivity).
  destruct (existsb _ _); [discriminate|]. intros [= <-]. reflexivity.
Qed.

(** *** The loops of [cleanOldFiles] *)

Lemma candidate_Some cur s m e :
  candidate cur s m = Some e <->
  name e = m /\ m <> cur /\ os.Stat m s = inr (os.mkInfo false (modTime e)).
Proof.
  unfold candidate. destruct (String.eqb_spec m cur) as [->|Hne].
  - split; [discriminate|]. intros [_ [Hc _]]. congruence.
  - destruct (os.Stat m s) as [err|[isdir mt]]; cbn.
    + split; [discriminate|]. intros [_ [_ Hs]]. discriminate.
    + destruct isdir.
      * split; [discriminate|]. intros [_ [_ Hs]]. discriminate.
      * split.
        -- intros [= <-]. cbn. auto.
        -- intros [Hn [_ Hs]]. destruct e as [n t]. cbn in *. congruence.
Qed.

Lemma elem_of_candidates cur s ms e :
  e ∈ candidates cur s ms <->
  name e ∈ ms /\ name e <> cur /\
  os.Stat (name e) s = inr (os.mkInfo false (modTime e)).
Proof.
  unfold candidates. rewrite list_elem_of_omap. split.
  - intros [m [Hin Hc]]. apply candidate_Some in Hc as [<- [Hne Hs]]. auto.
  - intros [Hin [Hne Hs]]. exists (name e). split; [exact Hin|].
    apply candidate_Some. auto.
Qed.

Lemma NoDup_candidates cur s ms : NoDup ms -> NoDup (candidates cur s ms).
Proof.
  induction 1 as [|m ms Hnotin Hnd IH]; [constructor|].
  unfold candidates. cbn [omap list_omap].
  destruct (candidate cur s m) as [e|] eqn:He; [|exact IH].
  constructor; [|exact IH].
  intros Hin. apply elem_of_candidates in Hin as [Hin _].
  apply candidate_Some in He as [Hn _]. rewrite Hn in Hin. contradiction.
Qed.

Lemma removeEach_Done files : forall s f,
  exists e s', removeEach files (s, f) = Done (e, (s', f)).
Proof.
  induction files as [|x rest IH]; intros s f; cbn [removeEach]; unfold_M.
  - eauto.
  - destruct (os.Remove (name x) s) as [[err|] s1]; [eauto|apply IH].
Qed.

Lemma removeEach_ok files : forall s f s' f',
  removeEach files (s, f) = Done (None, (s', f')) ->
  f' = f /\
  forall p, os.nodes s' !! p =
            if decide (p ∈ name <$> files) then None else os.nodes s !! p.
Proof.
  induction files as [|x rest IH]; intros s f s' f'; cbn [removeEach]; unfold_M.
  - intros [= <- <-]. split; [reflexivity|]. intros p.
    destruct (decide _) as [Hin|_]; [inversion Hin|reflexivity].
  - destruct (os.Remove (name x) s) as [[err|] s1] eqn:Hr; [discriminate|].
    intros Hrest. apply IH in Hrest as [-> Hnodes]. split; [reflexivity|].
    apply Remove_ok in Hr. subst s1. intros p. rewrite Hnodes.
    cbn [os.setNodes os.nodes fmap list_fmap].
    destruct (decide (p ∈ name <$> rest)) as [Hin|Hnin].
    + rewrite decide_True by (apply elem_of_cons; auto). reflexivity.
    + destruct (decide (p = name x)) as [->|Hne].
      * rewrite decide_True by (apply elem_of_cons; auto).
        apply lookup_delete_eq.
      * rewrite decide_False by (rewrite elem_of_cons; tauto).
        apply lookup_delete_ne. congruence.
Qed.

Lemma Remove_fails name s err s' :
  os.Remove name s = (Some err, s') -> s' = s.
Proof.
  unfold os.Remove.
  destruct (os.nodes s !! name) as [n|]; [|intros [= _ <-]; reflexivity].
  destruct (os.immutable n); [intros [= _ <-]; reflexivity|].
  destruct (os.nkind n); try discriminate.
  destruct (existsb _ _); [intros [= _ <-]; reflexivity|discriminate].
Qed.

(** A removal loop that returns an error: the entries before the failing
    one are gone, everything else is as it was. *)
Lemma removeEach_stops files : forall s f err s' f',
  removeEach files (s, f) = Done (Some err, (s', f')) ->
  f' = f /\
  exists gone x rest,
    files = gone ++ x :: rest /\
    os.Remove (name x) s' = (Some err, s') /\
    forall p, os.nodes s' !! p =
              if decide (p ∈ name <$> gone) then None else os.nodes s !! p.
Proof.
  induction files as [|x rest IH]; intros s f err s' f'; cbn [removeEach]; unfold_M.
  - discriminate.
  - destruct (os.Remove (name x) s) as [[err0|] s1] eqn:Hr.
    + intros [= <- <- <-]. split; [reflexivity|].
      pose proof (Remove_fails _ _ _ _ Hr) as ->.
      exists [], x, rest. split; [reflexivity|]. split; [exact Hr|].
      intros p. destruct (decide _) as [Hin|_]; [inversion Hin|reflexivity].
    + intros Hrest. apply IH in Hrest as [-> [gone [y [rest' [-> [Hy Hnodes]]]]]].
      split; [reflexivity|].
      exists (x :: gone), y, rest'. split; [reflexivity|]. split; [exact Hy|].
      apply Remove_ok in Hr. subst s1. intros p. rewrite Hnodes.
      cbn [os.setNodes os.nodes fmap list_fmap].
      destruct (decide (p ∈ name <$> gone)) as [Hin|Hnin].
      * rewrite decide_True by (apply elem_of_cons; auto). reflexivity.
      * destruct (decide (p = name x)) as [->|Hne].
        -- rewrite decide_True by (apply elem_of_cons; auto).
           apply lookup_delete_eq.
        -- rewrite decide_False by (rewrite elem_of_cons; tauto).
           apply lookup_delete_ne. congruence.
Qed.

Lemma NoDup_candidate_names cur s ms :
  NoDup ms -> NoDup (name <$> candidates cur s ms).
Proof.
  induction 1 as [|m ms Hnotin Hnd IH]; [constructor|].
  unfold candidates. cbn [omap list_omap].
  destruct (candidate cur s m) as [e|] eqn:He; [|exact IH].
  cbn [fmap list_fmap]. constructor; [|exact IH].
  apply candidate_Some in He as [Hn _]. rewrite Hn.
  intros Hin. apply list_elem_of_fmap in Hin as [e' [-> Hin]].
  apply elem_of_candidates in Hin as [Hin _]. contradiction.
Qed.

(** *** Sorted slices *)

Lemma StronglySorted_impl {A} (R Q : A -> A -> Prop) l :
  (forall x y, R x y -> Q x y) -> StronglySorted R l -> StronglySorted Q l.
Proof.
  intros HRQ. induction 1 as [|x l Hs IH Hall]; constructor; [exact IH|].
  eapply Forall_impl; [exact Hall|]. intros y. apply HRQ.
Qed.

Lemma elem_of_drop_list {A} (y : A) n l : y ∈ drop n l -> y ∈ l.
Proof.
  intros Hy. rewrite <- (take_drop n l). apply elem_of_app. right. exact Hy.
Qed.

Lemma StronglySorted_split {A} (R : A -> A -> Prop) l : forall n x y,
  StronglySorted R l -> x ∈ take n l -> y ∈ drop n l -> R x y.
Proof.
  induction l as [|a l IH]; intros n x y Hs Hx Hy.
  - rewrite take_nil in Hx. inversion Hx.
  - apply StronglySorted_inv in Hs as [Hs Hall].
    destruct n as [|n]; cbn in Hx, Hy; [inversion Hx|].
    apply elem_of_cons in Hx as [->|Hx].
    + rewrite Forall_forall in Hall. apply Hall.
      eapply elem_of_drop_list, Hy.
    + eapply IH; eassumption.
Qed.

Lemma After_false x y : After y x = false <-> (modTime y <= modTime x)%Z.
Proof. unfold After. rewrite Z.ltb_ge. reflexivity. Qed.

(** *** C1 *)

Section pruning.
Context `{GoLib}.

Lemma cleanOldFiles_Done s f :
  exists e s', cleanOldFiles (s, f) = Done (e, (s', f)).
Proof.
  unfold cleanOldFiles. unfold_M.
  destruct (maxFiles f <=? 0)%Z; [eauto|].
  destruct (filepath_Glob (buildGlobPattern f) s) as [err|ms]; [eauto|].
  match goal with |- context [if ?c then _ else _] => destruct c end; [eauto|].
  apply removeEach_Done.
Qed.

Lemma oldFiles_after s s' f :
  (forall p, is_Some (os.nodes s' !! p) -> os.nodes s' !! p = os.nodes s !! p) ->
  forall e, e ∈ oldFiles s' f -> e ∈ oldFiles s f.
Proof.
  intros Hsub e. unfold oldFiles, filepath_Glob.
  destruct (filepath_Match (buildGlobPattern f) EmptyString); [|intros Hin; inversion Hin].
  rewrite !elem_of_candidates, !list_elem_of_filter, !elem_of_paths.
  intros [[Hm Hex] [Hne Hst]].
  specialize (Hsub _ Hex). rewrite Hsub in Hex.
  rewrite (Stat_nodes _ _ _ Hsub) in Hst. auto.
Qed.

Lemma NoDup_oldFiles s f : NoDup (oldFiles s f).
Proof.
  unfold oldFiles, filepath_Glob.
  destruct (filepath_Match (buildGlobPattern f) EmptyString); [|constructor].
  apply NoDup_candidates, NoDup_filter, NoDup_paths.
Qed.

Lemma oldFiles_exists s f e : e ∈ oldFiles s f -> is_Some (os.nodes s !! name e).
Proof.
  unfold oldFiles, filepath_Glob.
  destruct (filepath_Match (buildGlobPattern f) EmptyString); [|intros Hin; inversion Hin].
  rewrite elem_of_candidates, list_elem_of_filter, elem_of_paths. tauto.
Qed.

Lemma NoDup_oldFile_names s f : NoDup (name <$> oldFiles s f).
Proof.
  unfold oldFiles, filepath_Glob.
  destruct (filepath_Match (buildGlobPattern f) EmptyString); [|constructor].
  apply NoDup_candidate_names, NoDup_filter, NoDup_paths.
Qed.

(** C1 (amended).  A pruning pass with [maxFiles = N > 0] looks at the
    matches of the derived glob other than the current file that stat as
    files, ordered newest first; no file among the first [N] is older
    than one beyond them.  When the pass returns no error (the glob is
    well formed and every removal succeeds), every file beyond the first
    [N] is gone afterwards, nothing else is touched, and at most [N] such
    files remain.  When it returns an error, either the glob was
    malformed and nothing was touched, or a removal failed and ended the
    pass: the files beyond the first [N] that come before the failing
    one are gone, and the failing one, all that come after it and
    everything else are in place as before. *)
Theorem cleanOldFiles_prunes (s s' : os.FS) (f f' : FileWriter)
    (e : option error) :
  (0 < maxFiles f)%Z ->
  sorts After ->
  cleanOldFiles (s, f) = Done (e, (s', f')) ->
  let N := Z.to_nat (maxFiles f) in
  let sorted := sort_Slice After (oldFiles s f) in
  Permutation sorted (oldFiles s f) /\
  StronglySorted (fun x y => (modTime y <= modTime x)%Z) sorted /\
  (forall kept gone, kept ∈ take N sorted -> gone ∈ drop N sorted ->
     (modTime gone <= modTime kept)%Z) /\
  f' = f /\
  match e with
  | None =>
      (forall x, x ∈ drop N sorted -> os.nodes s' !! name x = None) /\
      (forall p, p ∉ name <$> drop N sorted ->
                 os.nodes s' !! p = os.nodes s !! p) /\
      length (oldFiles s' f) <= N
  | Some err =>
      (filepath_Glob (buildGlobPattern f) s = inl err /\ s' = s) \/
      exists gone x rest,
        drop N sorted = gone ++ x :: rest /\
        os.Remove (name x) s' = (Some err, s') /\
        (forall y, y ∈ gone -> os.nodes s' !! name y = None) /\
        (forall p, p ∉ name <$> gone -> os.nodes s' !! p = os.nodes s !! p) /\
        (forall y, y ∈ x :: rest ->
           is_Some (os.nodes s !! name y) /\
           os.nodes s' !! name y = os.nodes s !! name y)
  end.
Proof.
  intros Hpos Hsort Hrun N sorted.
  destruct (Hsort (oldFiles s f)) as [Hperm Hss]. fold sorted in Hperm, Hss.
  assert (Hss' : StronglySorted (fun x y => (modTime y <= modTime x)%Z) sorted).
  { eapply StronglySorted_impl; [|exact Hss]. intros x y. apply After_false. }
  split; [exact Hperm|]. split; [exact Hss'|].
  split.
  { intros kept gone Hk Hg. exact (StronglySorted_split _ _ _ _ _ Hss' Hk Hg). }
  assert (Hnames : NoDup (name <$> drop N sorted)).
  { pose proof (NoDup_oldFile_names s f) as Hnd.
    rewrite <- Hperm, <- (take_drop N sorted), fmap_app in Hnd.
    apply NoDup_app in Hnd as [_ [_ Hnd]]. exact Hnd. }
  assert (Hexists : forall y, y ∈ drop N sorted -> is_Some (os.nodes s !! name y)).
  { intros y Hy. apply (oldFiles_exists s f). rewrite <- Hperm.
    eapply elem_of_drop_list, Hy. }
  unfold cleanOldFiles in Hrun. unfold_M.
  destruct (maxFiles f <=? 0)%Z eqn:Hmf; [apply Z.leb_le in Hmf; lia|].
  unfold sorted, oldFiles in *. clear sorted.
  destruct (filepath_Glob (buildGlobPattern f) s) as [err|ms] eqn:Hglob.
  { injection Hrun as <- <- <-. split; [reflexivity|]. left. auto. }
  set (files := candidates (current f) s ms) in *.
  destruct (Z.of_nat (length files) <=? maxFiles f)%Z eqn:Hlen.
  - (* few enough files: nothing is removed *)
    injection Hrun as <- <- <-. apply Z.leb_le in Hlen.
    split; [reflexivity|].
    assert (Hdrop : drop N (sort_Slice After files) = []).
    { apply drop_ge. rewrite (Permutation_length Hperm). lia. }
    split; [|split].
    + intros x Hx. rewrite Hdrop in Hx. inversion Hx.
    + reflexivity.
    + rewrite Hglob. fold files. lia.
  - destruct e as [err|].
    + (* a removal failed *)
      apply removeEach_stops in Hrun
        as [-> [gone [x [rest [Hsplit [Hfail Hnodes]]]]]].
      fold N in Hsplit.
      split; [reflexivity|]. right. exists gone, x, rest.
      split; [exact Hsplit|]. split; [exact Hfail|].
      split; [|split].
      * intros y Hy. rewrite Hnodes. rewrite decide_True; [reflexivity|].
        apply list_elem_of_fmap. exists y. auto.
      * intros p Hp. rewrite Hnodes. rewrite decide_False by exact Hp.
        reflexivity.
      * intros y Hy. split.
        -- apply Hexists. rewrite Hsplit. apply elem_of_app. right. exact Hy.
        -- rewrite Hnodes. rewrite decide_False; [reflexivity|].
           rewrite Hsplit, fmap_app in Hnames.
           apply NoDup_app in Hnames as [_ [Hdisj _]].
           intros Hin. apply (Hdisj _ Hin).
           apply list_elem_of_fmap. exists y. auto.
    + (* the slice is sorted and its tail removed *)
      apply removeEach_ok in Hrun as [-> Hnodes].
      split; [reflexivity|]. split; [|split].
      * intros x Hx. rewrite Hnodes.
        rewrite decide_True; [reflexivity|].
        apply list_elem_of_fmap. exists x. auto.
      * intros p Hp. rewrite Hnodes. rewrite decide_False by exact Hp. reflexivity.
      * pose proof (oldFiles_after s s' f) as Hafter.
        pose proof (NoDup_oldFiles s' f) as Hnd.
        pose proof (oldFiles_exists s' f) as Hex.
        unfold oldFiles in Hafter at 2. rewrite Hglob in Hafter. fold files in Hafter.
        transitivity (length (take N (sort_Slice After files)));
          [|apply firstn_le_length].
        apply submseteq_length, NoDup_submseteq; [exact Hnd|].
        intros x Hx.
        assert (Hin : x ∈ sort_Slice After files).
        { rewrite Hperm. apply Hafter; [|exact Hx].
          intros p Hp. rewrite Hnodes in Hp |- *.
          destruct (decide _); [destruct Hp; discriminate|reflexivity]. }
        rewrite <- (take_drop N (sort_Slice After files)) in Hin.
        apply elem_of_app in Hin as [Hin|Hin]; [exact Hin|].
        exfalso. specialize (Hex x Hx). rewrite Hnodes in Hex.
        rewrite decide_True in Hex; [destruct Hex; discriminate|].
        apply list_elem_of_fmap. exists x. auto.
Qed.

End pruning.

(** Insertion sort meets the contract of [sort.Slice] for [After]. *)
Lemma insert_perm {A} (less : A -> A -> bool) x l :
  Permutation (demo.insert less x l) (x :: l).
Proof.
  induction l as [|y l IH]; cbn; [reflexivity|].
  destruct (less x y); [reflexivity|].
  rewrite IH. apply perm_swap.
Qed.

Lemma insert_sorted x l :
  StronglySorted (fun a b => After b a = false) l ->
  StronglySorted (fun a b => After b a = false) (demo.insert After x l).
Proof.
  induction 1 as [|y l Hs IH Hall]; cbn.
  - constructor; constructor.
  - destruct (After x y) eqn:Hxy.
    + constructor; [constructor; assumption|].
      unfold After in *. apply Z.ltb_lt in Hxy.
      constructor; [apply Z.ltb_ge; lia|].
      eapply Forall_impl; [exact Hall|]. cbn. intros z Hz.
      apply Z.ltb_ge in Hz. apply Z.ltb_ge. lia.
    + constructor; [exact IH|].
      rewrite (insert_perm After x l). constructor; [|exact Hall].
      unfold After in *. apply Z.ltb_ge in Hxy. apply Z.ltb_ge. lia.
Qed.

Lemma demo_sort_sorts : sorts (H := demo.lib) After.
Proof.
  intros l. cbn. unfold demo.sort. induction l as [|x l [IHp IHs]]; cbn.
  - split; [reflexivity|constructor].
  - split.
    + rewrite insert_perm, IHp. reflexivity.
    + apply insert_sorted, IHs.
Qed.

(** C1 (as stated, refuted).  With [maxFiles = 1] and three rotated files,
    of which the oldest cannot be unlinked, the pass removes the middle
    one, fails on the oldest and stops: two rotated files remain. *)
Lemma cleanOldFiles_stops_at_failure :
  match cleanOldFiles (H := demo.lib) (demo.pinned, demo.rotating 1) with
  | Done (e, (s', f')) =>
      e = Some ErrPermission /\
      maxFiles f' = 1%Z /\
      name <$> oldFiles (H := demo.lib) s' f' =
        ["logs/app-00-00-03.log"; "logs/app-00-00-01.log"]
  | Panic => False
  end.
Proof. vm_compute. repeat split; reflexivity. Qed.

(** C1, two instances with three rotated files and [maxFiles = 1]: all
    removable, and the second oldest undeletable, where the pass ends at
    once and the oldest file stays although it is beyond the first. *)
Lemma cleanOldFiles_prunes_witness :
  (let s' := os.setNodes
               (delete "logs/app-00-00-01.log"
                  (delete "logs/app-00-00-02.log" (os.nodes demo.prunable)))
               demo.prunable in
   let sorted := sort_Slice (GoLib := demo.lib) After
                   (oldFiles (H := demo.lib) demo.prunable (demo.rotating 1)) in
   (forall e, e ∈ drop 1 sorted -> os.nodes s' !! name e = None) /\
   length (oldFiles (H := demo.lib) s' (demo.rotating 1)) <= 1) /\
  (let sorted := sort_Slice (GoLib := demo.lib) After
                   (oldFiles (H := demo.lib) demo.pinnedMiddle
                      (demo.rotating 1)) in
   exists gone x rest,
     drop 1 sorted = gone ++ x :: rest /\
     os.Remove (name x) demo.pinnedMiddle
       = (Some ErrPermission, demo.pinnedMiddle) /\
     forall y, y ∈ x :: rest ->
       is_Some (os.nodes demo.pinnedMiddle !! name y)).
Proof.
  split.
  - intros s' sorted.
    pose proof (cleanOldFiles_prunes (H := demo.lib) demo.prunable s'
                  (demo.rotating 1) (demo.rotating 1) None
                  ltac:(reflexivity) demo_sort_sorts
                  ltac:(vm_compute; reflexivity)) as W.
    cbv zeta in W. destruct W as [_ [_ [_ [_ [Hgone [_ Hlen]]]]]].
    split; [exact Hgone|exact Hlen].
  - intros sorted.
    pose proof (cleanOldFiles_prunes (H := demo.lib) demo.pinnedMiddle
                  demo.pinnedMiddle (demo.rotating 1) (demo.rotating 1)
                  (Some ErrPermission)
                  ltac:(reflexivity) demo_sort_sorts
                  ltac:(vm_compute; reflexivity)) as W.
    cbv zeta in W. destruct W as [_ [_ [_ [_ [[Hbad _]|W]]]]].
    + vm_compute in Hbad. discriminate Hbad.
    + destruct W as [gone [x [rest [Hsplit [Hfail [_ [_ Hrest]]]]]]].
      exists gone, x, rest. split; [exact Hsplit|]. split; [exact Hfail|].
      intros y Hy. exact (proj1 (Hrest y Hy)).
Defined.

(** *** The current file is never pruned *)

Lemma Remove_frame name s e s' p :
  os.Remove name s = (e, s') -> p <> name -> os.nodes s' !! p = os.nodes s !! p.
Proof.
  unfold os.Remove. intros Hr Hne.
  destruct (os.nodes s !! name) as [n|]; [|injection Hr as _ <-; reflexivity].
  destruct (os.immutable n); [injection Hr as _ <-; reflexivity|].
  assert (Hdel : os.nodes (os.setNodes (delete name (os.nodes s)) s) !! p =
                 os.nodes s !! p) by (cbn; apply lookup_delete_ne; congruence).
  destruct (os.nkind n); try (injection Hr as _ <-; exact Hdel).
  destruct (existsb _ _); injection Hr as _ <-; [reflexivity|exact Hdel].
Qed.

Lemma removeEach_frame files : forall s f e s' f',
  removeEach files (s, f) = Done (e, (s', f')) ->
  f' = f /\ forall p, p ∉ name <$> files -> os.nodes s' !! p = os.nodes s !! p.
Proof.
  induction files as [|x rest IH]; intros s f e s' f'; cbn [removeEach]; unfold_M.
  - intros [= _ <- <-]. auto.
  - destruct (os.Remove (name x) s) as [[err|] s1] eqn:Hr.
    + intros [= _ <- <-]. split; [reflexivity|]. intros p Hp.
      apply (Remove_frame _ _ _ _ _ Hr). intros ->. apply Hp.
      cbn. apply elem_of_cons. auto.
    + intros Hrest. apply IH in Hrest as [-> Hnodes]. split; [reflexivity|].
      intros p Hp. cbn in Hp. rewrite elem_of_cons in Hp.
      rewrite Hnodes by tauto.
      apply (Remove_frame _ _ _ _ _ Hr). intros ->. tauto.
Qed.

Section spare.
Context `{GoLib}.

(** X3.  A pruning pass, whether it succeeds or stops at a failure, leaves the
    file the writer is writing to in place. *)
Theorem cleanOldFiles_spares_current (s s' : os.FS) (f f' : FileWriter)
    (e : option error) :
  sorts After ->
  cleanOldFiles (s, f) = Done (e, (s', f')) ->
  f' = f /\ os.nodes s' !! current f = os.nodes s !! current f.
Proof.
  intros Hsort. unfold cleanOldFiles. unfold_M.
  destruct (maxFiles f <=? 0)%Z; [intros [= _ <- <-]; auto|].
  destruct (filepath_Glob (buildGlobPattern f) s) as [err|ms];
    [intros [= _ <- <-]; auto|].
  match goal with |- context [if ?c then _ else _] => destruct c end;
    [intros [= _ <- <-]; auto|].
  intros Hrun. apply removeEach_frame in Hrun as [-> Hnodes].
  split; [reflexivity|]. apply Hnodes.
  intros Hin. apply list_elem_of_fmap in Hin as [x [Hname Hx]].
  apply elem_of_drop_list in Hx.
  destruct (Hsort (candidates (current f) s ms)) as [Hperm _].
  rewrite Hperm in Hx. apply elem_of_candidates in Hx as [_ [Hne _]].
  congruence.
Qed.

End spare.

(** X3, on the pass of the C1 instance. *)
Lemma cleanOldFiles_spares_current_witness :
  os.nodes (os.setNodes
              (delete "logs/app-00-00-01.log"
                 (delete "logs/app-00-00-02.log" (os.nodes demo.prunable)))
              demo.prunable) !! "logs/app-00-00-04.log" =
  os.nodes demo.prunable !! "logs/app-00-00-04.log".
Proof.
  exact (proj2 (cleanOldFiles_spares_current (H := demo.lib) demo.prunable _
                  (demo.rotating 1) (demo.rotating 1) None demo_sort_sorts
                  ltac:(vm_compute; reflexivity))).
Defined.

(* ===================================================================== *)
(** ** Write, Close and the buffer *)
(* ===================================================================== *)

Section steps.

#[local] Arguments bufio.Flush : simpl never.
#[local] Arguments bufio.Write : simpl never.
#[local] Arguments os.Write : simpl never.
#[local] Arguments os.Close : simpl never.
#[local] Arguments os.OpenFile : simpl never.
#[local] Arguments os.Remove : simpl never.
#[local] Arguments cleanOldFiles : simpl never.
#[local] Arguments Z.ltb : simpl never.
#[local] Arguments Z.leb : simpl never.
#[local] Arguments Z.eqb : simpl never.
#[local] Arguments Z.mul : simpl never.
#[local] Arguments wrap64 : simpl never.
#[local] Arguments String.eqb : simpl never.

(** *** Strings *)

Lemma append_nil_r s : s +:+ EmptyString = s.
Proof.
  induction s as [|c s IH]; [reflexivity|].
  change (String c (s +:+ EmptyString) = String c s). rewrite IH. reflexivity.
Qed.

Lemma substring_all s : substring 0 (String.length s) s = s.
Proof. induction s as [|c s IH]; [reflexivity|]. cbn. rewrite IH. reflexivity. Qed.

(** *** Writing to and closing a descriptor *)

Lemma sameFiles_refl s : sameFiles s s.
Proof. split; reflexivity. Qed.

Lemma os_Write_sameFiles f p s r s1 :
  os.Write f p s = (r, s1) -> sameFiles s s1.
Proof.
  unfold os.Write. destruct f as [fd|]; [|intros [= <- <-]; apply sameFiles_refl].
  destruct (os.handles s !! fd) as [name|]; [|intros [= <- <-]; apply sameFiles_refl].
  destruct p as [|c p]; [intros [= <- <-]; apply sameFiles_refl|].
  destruct (os.accepted (os.free s) (String c p)) as [n e].
  destruct n as [|n]; [intros [= <- <-]; split; reflexivity|].
  destruct (os.nodes s !! name) as [nd|] eqn:Hnd; intros [= <- <-];
    (split; [reflexivity|]); [|reflexivity].
  intros name'. cbn [os.setNodes os.setFree os.nodes].
  destruct (decide (name = name')) as [<-|Hne].
  - rewrite lookup_insert_eq, Hnd. reflexivity.
  - rewrite lookup_insert_ne by exact Hne. reflexivity.
Qed.

Lemma os_Write_empty fd s :
  os.live s (Some fd) = true -> os.Write (Some fd) EmptyString s = ((0, None), s).
Proof.
  unfold os.live, os.Write. intros Hl. apply bool_decide_eq_true in Hl as [name Hn].
  rewrite Hn. reflexivity.
Qed.

Lemma Flush_sameFiles b s e b' s1 :
  bufio.Flush b s = (e, b', s1) -> sameFiles s s1.
Proof.
  unfold bufio.Flush. destruct (bufio.err b); [intros [= _ _ <-]; apply sameFiles_refl|].
  destruct (bufio.pending b) as [|c p]; [intros [= _ _ <-]; apply sameFiles_refl|].
  destruct (os.Write (bufio.wr b) (String c p) s) as [[n e0] s2] eqn:Hw.
  apply os_Write_sameFiles in Hw.
  destruct e0; [intros [= _ _ <-]; exact Hw|].
  destruct (n <? _); intros [= _ _ <-]; exact Hw.
Qed.

Lemma closeOK_sameFiles s s1 f :
  sameFiles s s1 -> closeOK s f -> closeOK s1 f.
Proof.
  intros [Hh Hn] Hok fd Hfd. destruct (Hok fd Hfd) as [name [Hname Hnd]].
  exists name. rewrite Hh. split; [exact Hname|].
  intros nd1 Hnd1. specialize (Hn name). rewrite Hnd1 in Hn.
  destruct (os.nodes s !! name) as [nd|] eqn:E; [|discriminate].
  cbn in Hn. injection Hn as ->. apply Hnd. reflexivity.
Qed.

Lemma os_Close_ok s f fd :
  closeOK s f -> file f = Some fd ->
  exists s1, os.Close (Some fd) s = (None, s1).
Proof.
  intros Hok Hfd. destruct (Hok fd Hfd) as [name [Hname Hnd]].
  unfold os.Close. rewrite Hname.
  destruct (os.nodes s !! name) as [nd|]; [|eauto].
  rewrite (Hnd nd eq_refl). eauto.
Qed.

(** *** Close *)

(** No call through [f.buf] or [f.file] is made on a nil pointer. *)
Lemma Close_total st : exists e st', Close st = Done (e, st').
Proof.
  destruct st as [s f]. unfold Close, buf_Flush. crunch; eauto.
Qed.

Lemma Close_ok_state s f s1 f1 :
  Close (s, f) = Done (None, (s1, f1)) ->
  file f1 = None /\ buf f1 = None /\ done f1 = true /\
  current f1 = current f /\ flushInterval f1 = flushInterval f.
Proof.
  unfold Close, buf_Flush. crunch; intros [= <- <-]; cbn; auto.
Qed.

Lemma Close_closed s f :
  file f = None -> buf f = None -> done f = true ->
  Close (s, f) = Done (None, (s, f)).
Proof.
  intros Hf Hb Hd. unfold Close. crunch.
  destruct f; cbn in *; subst; reflexivity.
Qed.

(** *** C6 *)

(** C6 (as stated, refuted).  On a full device the first [Close] of a
    buffered writer fails in the flush and keeps the buffer; the second
    call meets the same sticky error. *)
Lemma Close_twice_fails_on_full_device :
  match demo.buffered demo.fullLogs [EvWrite "x"] with
  | Done st =>
      match Close st with
      | Done (first, st') =>
          match Close st' with
          | Done (second, _) =>
              first = Some ErrNoSpace /\ second = Some ErrNoSpace
          | Panic => False
          end
      | Panic => False
      end
  | Panic => False
  end.
Proof. vm_compute. split; reflexivity. Qed.

(** C6 (amended).  After a first [Close] that returned no error, a second
    [Close], whatever happened to the file system in between and whether
    or not the writer buffers, returns no error, does not panic and
    changes nothing. *)
Theorem Close_twice (s s1 : os.FS) (f f1 : FileWriter) :
  Close (s, f) = Done (None, (s1, f1)) ->
  forall s2, Close (s2, f1) = Done (None, (s2, f1)).
Proof.
  intros Hfirst s2. apply Close_ok_state in Hfirst as [Hf [Hb [Hd _]]].
  apply Close_closed; assumption.
Qed.

(** C6, an instance: an unbuffered writer with its file open. *)
Lemma Close_twice_witness :
  Close (demo.emptyLogs, demo.closed 0) = Done (None, (demo.emptyLogs, demo.closed 0)).
Proof.
  apply (Close_twice demo.opened.1 (os.setHandles demo.std demo.opened.1)
           demo.opened.2 (demo.closed 0)).
  vm_compute. reflexivity.
Defined.

(** *** Opening *)

Lemma OpenFile_err name s e s1 : os.OpenFile name s = (inl e, s1) -> s1 = s.
Proof.
  unfold os.OpenFile.
  repeat match goal with
         | |- context [match ?x with _ => _ end] => destruct x
         end; intros Heq; inversion Heq; reflexivity.
Qed.

Lemma OpenFile_ok name s fd s1 :
  os.OpenFile name s = (inr fd, s1) ->
  os.handles s1 !! fd = Some name /\
  exists nd, os.nodes s1 !! name = Some nd /\
    os.data nd = default EmptyString (os.contents s name) /\
    os.free s1 = os.free s.
Proof.
  unfold os.OpenFile, os.contents.
  destruct (os.nodes s !! name) as [n|] eqn:Hn.
  - destruct (os.nkind n); try discriminate.
    destruct (os.immutable n); [discriminate|]. intros [= <- <-]. cbn.
    rewrite lookup_insert_eq. split; [reflexivity|]. exists n. auto.
  - destruct (os.nodes s !! os.parent name) as [d|]; [|discriminate].
    destruct (os.nkind d); try discriminate.
    destruct (os.immutable d); [discriminate|]. intros [= <- <-]. cbn.
    rewrite !lookup_insert_eq. split; [reflexivity|]. eexists. split; [reflexivity|].
    split; reflexivity.
Qed.

Lemma OpenFile_live name s fd s1 :
  os.OpenFile name s = (inr fd, s1) -> os.live s1 (Some fd) = true.
Proof.
  intros Ho. apply OpenFile_ok in Ho as [Hh _]. unfold os.live.
  apply bool_decide_eq_true. rewrite Hh. eauto.
Qed.

(** *** The buffer *)

Lemma round_fits b p n s :
  String.length p <= bufio.Available b -> bufio.round b p n s = (b, p, n, s).
Proof.
  intros Hfit. unfold bufio.round, bufio.guard.
  replace (bufio.Available b <? String.length p) with false
    by (symmetry; apply Nat.ltb_ge; exact Hfit).
  reflexivity.
Qed.

Lemma bufio_Write_fits b p s :
  bufio.err b = None -> String.length p <= bufio.Available b ->
  bufio.Write b p s =
  ((String.length p, None),
   bufio.mkWriter (bufio.wr b) (bufio.pending b +:+ p) None, s).
Proof.
  intros He Hfit. unfold bufio.Write. rewrite !round_fits by exact Hfit.
  rewrite He. reflexivity.
Qed.

Lemma bufio_Write_empty b s :
  bufio.err b = None -> bufio.Write b EmptyString s = ((0, None), b, s).
Proof.
  intros He. rewrite bufio_Write_fits by (exact He || (cbn; lia)).
  rewrite append_nil_r. destruct b; cbn in *; subst; reflexivity.
Qed.

(** *** Write *)

(** A write that finds no file open: the current path is reopened first. *)
Lemma Write_reopen s f p :
  file f = None ->
  Write p (s, f) =
  match os.OpenFile (current f) s with
  | (inl e, s1) => Done ((0, Some e), (s1, set_buf None f))
  | (inr fd, s1) =>
      if (flushInterval f =? 0)%Z then
        let '(r, s2) := os.Write (Some fd) p s1 in
        Done (r, (s2, set_buf None (set_file (Some fd) f)))
      else
        let '(r, b, s2) := bufio.Write (bufio.NewWriter (Some fd)) p s1 in
        Done (r, (s2, set_buf (Some b) (set_file (Some fd) f)))
  end.
Proof.
  intros Hf. unfold Write, openCurrentLocked, buf_Write. run_M. rewrite Hf. run_M.
  destruct (os.OpenFile (current f) s) as [[e|fd] s1]; run_M.
  - destruct f; cbn in *; subst; reflexivity.
  - destruct (flushInterval f =? 0)%Z eqn:Hz;
      destruct (0 <? flushInterval f)%Z eqn:Hlt; run_M; rewrite ?Hz; run_M.
    + apply Z.eqb_eq in Hz. apply Z.ltb_lt in Hlt. lia.
    + destruct (os.Write (Some fd) p s1) as [r s2]. reflexivity.
    + destruct (bufio.Write (bufio.NewWriter (Some fd)) p s1) as [[r b] s2].
      reflexivity.
    + destruct (bufio.Write (bufio.NewWriter (Some fd)) p s1) as [[r b] s2].
      reflexivity.
Qed.

(** *** C4 *)

(** C4 (as stated, refuted).  A zero-length write on a writer with no open
    file reopens the current path, and [O_CREATE] creates it. *)
Lemma Write_empty_creates_file :
  os.nodes demo.emptyLogs !! "logs/app.log" = None /\
  match Write EmptyString (demo.emptyLogs, demo.closed 0) with
  | Done (r, (s', f')) =>
      r = (0%nat, None) /\ file f' = Some 3%nat /\
      os.contents s' "logs/app.log" = Some EmptyString
  | Panic => False
  end.
Proof. vm_compute. repeat split; reflexivity. Qed.

(** C4 (amended).  With a live descriptor open and no earlier flush error
    held by the buffer, a zero-length write returns (0, nil) and leaves the
    file system as it is.  With no file open it first reopens the current
    path: the open error comes back with count 0, or the file is opened
    (created if absent) and (0, nil) returned. *)
Theorem Write_empty (s : os.FS) (f : FileWriter) :
  (os.live s (file f) = true ->
   (flushInterval f = 0%Z \/ forall b, buf f = Some b -> bufio.err b = None) ->
   exists f', Write EmptyString (s, f) = Done ((0, None), (s, f')) /\
              file f' = file f /\ current f' = current f) /\
  (file f = None ->
   match os.OpenFile (current f) s with
   | (inl e, _) =>
       Write EmptyString (s, f) = Done ((0, Some e), (s, set_buf None f))
   | (inr fd, s1) =>
       exists f', Write EmptyString (s, f) = Done ((0, None), (s1, f')) /\
                  file f' = Some fd /\ os.live s1 (Some fd) = true /\
                  is_Some (os.nodes s1 !! current f)
   end).
Proof.
  split.
  - intros Hlive Hbuf. destruct (file f) as [fd|] eqn:Hf; [|discriminate].
    unfold Write, buf_Write. run_M. rewrite Hf. run_M.
    destruct (flushInterval f =? 0)%Z eqn:Hz; rewrite ?Hf; run_M.
    + rewrite (os_Write_empty _ _ Hlive). run_M. eauto.
    + destruct Hbuf as [Hz'|Hbuf]; [apply Z.eqb_neq in Hz; contradiction|].
      destruct (buf f) as [b|] eqn:Hb; run_M.
      * rewrite ?Hb. run_M. rewrite (bufio_Write_empty _ _ (Hbuf b eq_refl)).
        run_M. eexists. split; [reflexivity|]. cbn. auto.
      * rewrite bufio_Write_empty by reflexivity. run_M.
        eexists. split; [reflexivity|]. cbn. auto.
  - intros Hf. rewrite (Write_reopen _ _ _ Hf).
    destruct (os.OpenFile (current f) s) as [[e|fd] s1] eqn:Ho.
    + apply OpenFile_err in Ho. subst s1. reflexivity.
    + pose proof (OpenFile_live _ _ _ _ Ho) as Hl.
      pose proof (OpenFile_ok _ _ _ _ Ho) as [_ [nd [Hnd _]]].
      destruct (flushInterval f =? 0)%Z.
      * rewrite (os_Write_empty _ _ Hl). eexists. split; [reflexivity|].
        cbn. rewrite Hnd. eauto.
      * rewrite bufio_Write_empty by reflexivity. eexists. split; [reflexivity|].
        cbn. rewrite Hnd. eauto.
Qed.

(** C4, an instance: an unbuffered writer with its file open. *)
Lemma Write_empty_witness :
  exists f', Write EmptyString demo.opened = Done ((0%nat, None), (demo.opened.1, f')) /\
             file f' = file demo.opened.2 /\ current f' = current demo.opened.2.
Proof.
  apply (proj1 (Write_empty demo.opened.1 demo.opened.2)).
  - vm_compute. reflexivity.
  - left. reflexivity.
Defined.

Lemma os_Write_ok fd name nd p s :
  os.handles s !! fd = Some name -> os.nodes s !! name = Some nd ->
  os.accepted (os.free s) p = (String.length p, None) ->
  exists s2, os.Write (Some fd) p s = ((String.length p, None), s2) /\
             os.contents s2 name = Some (os.data nd +:+ p).
Proof.
  intros Hh Hn Hacc. unfold os.Write, os.contents. rewrite Hh.
  destruct p as [|c p].
  - exists s. split; [reflexivity|]. rewrite Hn, append_nil_r. reflexivity.
  - rewrite Hacc. cbn [String.length]. rewrite Hn. eexists. split; [reflexivity|].
    cbn [os.setNodes os.nodes]. rewrite lookup_insert_eq. cbn [fmap option_fmap option_map os.data].
    change (S (String.length p)) with (String.length (String c p)).
    rewrite substring_all. reflexivity.
Qed.

Lemma set_buf_None f : buf f = None -> set_buf None f = f.
Proof. intros Hb. destruct f; cbn in *; subst; reflexivity. Qed.

Lemma drop_whole s : strings_.drop (String.length s) s = EmptyString.
Proof. induction s as [|c s IH]; [reflexivity|exact IH]. Qed.

(** A write longer than the buffer on an empty buffer goes straight to
    the file. *)
Lemma bufio_Write_direct fd p s s2 :
  bufio.defaultBufSize < String.length p ->
  os.Write (Some fd) p s = ((String.length p, None), s2) ->
  bufio.Write (bufio.NewWriter (Some fd)) p s =
  ((String.length p, None), bufio.NewWriter (Some fd), s2).
Proof.
  intros Hlong Hw. unfold bufio.Write.
  assert (H1 : bufio.round (bufio.NewWriter (Some fd)) p 0 s =
               (bufio.NewWriter (Some fd), EmptyString, String.length p, s2)).
  { unfold bufio.round, bufio.guard, bufio.Available, bufio.Buffered.
    cbn [bufio.NewWriter bufio.pending bufio.err bufio.wr String.length].
    rewrite Nat.sub_0_r.
    replace (bufio.defaultBufSize <? String.length p) with true
      by (symmetry; apply Nat.ltb_lt; exact Hlong).
    rewrite bool_decide_eq_true_2 by reflexivity. cbn [andb Nat.eqb].
    rewrite Hw, drop_whole. reflexivity. }
  rewrite H1. rewrite round_fits by (cbn; lia).
  cbn [bufio.NewWriter bufio.err bufio.wr bufio.pending String.length].
  rewrite Nat.add_0_r. reflexivity.
Qed.

(** A write on a writer with no file open and no buffer: the state a
    successful [Close] leaves, and the state after a failed first open. *)
Lemma Write_no_file s f p :
  file f = None -> buf f = None ->
  match os.OpenFile (current f) s with
  | (inl e, _) => Write p (s, f) = Done ((0, Some e), (s, f))
  | (inr fd, s1) =>
      if (flushInterval f =? 0)%Z then
        os.accepted (os.free s1) p = (String.length p, None) ->
        exists s2,
          Write p (s, f) =
          Done ((String.length p, None), (s2, set_file (Some fd) f)) /\
          os.contents s2 (current f) =
          Some (default EmptyString (os.contents s (current f)) +:+ p)
      else
        (String.length p <= bufio.defaultBufSize ->
         Write p (s, f) =
         Done ((String.length p, None),
               (s1, set_buf (Some (bufio.mkWriter (Some fd) p None))
                            (set_file (Some fd) f))) /\
         os.contents s1 (current f) =
         Some (default EmptyString (os.contents s (current f)))) /\
        (bufio.defaultBufSize < String.length p ->
         os.accepted (os.free s1) p = (String.length p, None) ->
         exists s2,
           Write p (s, f) =
           Done ((String.length p, None),
                 (s2, set_buf (Some (bufio.NewWriter (Some fd)))
                              (set_file (Some fd) f))) /\
           os.contents s2 (current f) =
           Some (default EmptyString (os.contents s (current f)) +:+ p))
  end.
Proof.
  intros Hf Hb. rewrite (Write_reopen _ _ _ Hf).
  destruct (os.OpenFile (current f) s) as [[e|fd] s1] eqn:Ho.
  - apply OpenFile_err in Ho. subst s1. rewrite (set_buf_None _ Hb). reflexivity.
  - apply OpenFile_ok in Ho as [Hh [nd [Hnd [Hdata Hfree]]]].
    destruct (flushInterval f =? 0)%Z.
    + intros Hacc.
      destruct (os_Write_ok _ _ _ _ _ Hh Hnd Hacc) as [s2 [Hw Hc]].
      exists s2. rewrite Hw. split.
      * f_equal. f_equal. f_equal.
        apply (set_buf_None (set_file (Some fd) f)). exact Hb.
      * rewrite Hc, Hdata. reflexivity.
    + split.
      * intros Hfit. split.
        -- rewrite bufio_Write_fits; [reflexivity|reflexivity|exact Hfit].
        -- unfold os.contents at 1. rewrite Hnd. cbn. rewrite Hdata. reflexivity.
      * intros Hlong Hacc.
        destruct (os_Write_ok _ _ _ _ _ Hh Hnd Hacc) as [s2 [Hw Hc]].
        exists s2. rewrite (bufio_Write_direct _ _ _ _ Hlong Hw).
        split; [reflexivity|]. rewrite Hc, Hdata. reflexivity.
Qed.

(** *** C5 *)

(** C5 (as stated, refuted).  A buffered writer after [Close]: the write
    succeeds and reopens the file, but the byte stays in the buffer and the
    file is still empty. *)
Lemma Write_after_Close_buffered_not_in_file :
  match Write "x" (demo.emptyLogs, demo.closed (5 * time.Second)) with
  | Done (r, (s', f')) =>
      r = (1%nat, None) /\
      os.contents s' "logs/app.log" = Some EmptyString /\
      buf f' = Some (bufio.mkWriter (Some 3%nat) "x" None)
  | Panic => False
  end.
Proof. vm_compute. repeat split; reflexivity. Qed.

(** C5 (amended).  After a [Close] that returned no error, a write first
    reopens the current path.  If that fails, the open error is returned
    with count 0 and nothing changes.  If it succeeds: without buffering,
    and when the device takes the bytes, the call returns (len(p), nil)
    with the bytes appended to the reopened file; with buffering, bytes
    that fit the buffer are held in a new buffer on the reopened file and
    the file itself is not yet written, while a write longer than the
    buffer passes it by and, when the device takes the bytes, is appended
    to the reopened file, the call returning (len(p), nil) in both
    cases. *)
Theorem Write_after_Close (s0 s' s : os.FS) (f0 f : FileWriter) (p : string) :
  Close (s0, f0) = Done (None, (s', f)) ->
  match os.OpenFile (current f) s with
  | (inl e, _) => Write p (s, f) = Done ((0, Some e), (s, f))
  | (inr fd, s1) =>
      if (flushInterval f =? 0)%Z then
        os.accepted (os.free s1) p = (String.length p, None) ->
        exists s2,
          Write p (s, f) =
          Done ((String.length p, None), (s2, set_file (Some fd) f)) /\
          os.contents s2 (current f) =
          Some (default EmptyString (os.contents s (current f)) +:+ p)
      else
        (String.length p <= bufio.defaultBufSize ->
         Write p (s, f) =
         Done ((String.length p, None),
               (s1, set_buf (Some (bufio.mkWriter (Some fd) p None))
                            (set_file (Some fd) f))) /\
         os.contents s1 (current f) =
         Some (default EmptyString (os.contents s (current f)))) /\
        (bufio.defaultBufSize < String.length p ->
         os.accepted (os.free s1) p = (String.length p, None) ->
         exists s2,
           Write p (s, f) =
           Done ((String.length p, None),
                 (s2, set_buf (Some (bufio.NewWriter (Some fd)))
                              (set_file (Some fd) f))) /\
           os.contents s2 (current f) =
           Some (default EmptyString (os.contents s (current f)) +:+ p))
  end.
Proof.
  intros Hclose. apply Close_ok_state in Hclose as [Hf [Hb _]].
  apply Write_no_file; assumption.
Qed.

(** C5, an instance: an unbuffered writer, closed and written to again. *)
Lemma Write_after_Close_witness :
  exists s2,
    Write "after close" (os.setHandles demo.std demo.opened.1, demo.closed 0) =
    Done ((11%nat, None), (s2, set_file (Some 4%nat) (demo.closed 0))) /\
    os.contents s2 "logs/app.log" = Some "after close".
Proof.
  assert (Hclose : Close demo.opened =
                   Done (None, (os.setHandles demo.std demo.opened.1, demo.closed 0)))
    by (vm_compute; reflexivity).
  exact (Write_after_Close demo.opened.1 (os.setHandles demo.std demo.opened.1)
           (os.setHandles demo.std demo.opened.1) demo.opened.2 (demo.closed 0)
           "after close" Hclose eq_refl).
Defined.

(** *** Two more properties of [Write] *)



(** X5.  With buffering disabled and room on the device, a write on an open
    file returns the full count and appends exactly the bytes written;
    the writer itself is unchanged, so the next write appends after it. *)
Theorem Write_unbuffered_appends (s : os.FS) (f : FileWriter) (p : string)
    (fd : os.File) (path : string) (nd : os.Node) :
  file f = Some fd ->
  flushInterval f = 0%Z ->
  os.handles s !! fd = Some path ->
  os.nodes s !! path = Some nd ->
  os.accepted (os.free s) p = (String.length p, None) ->
  exists s',
    Write p (s, f) = Done ((String.length p, None), (s', f)) /\
    os.contents s' path = Some (os.data nd +:+ p) /\
    os.handles s' = os.handles s.
Proof.
  intros Hf Hz Hh Hn Hacc.
  destruct (os_Write_ok _ _ _ _ _ Hh Hn Hacc) as [s2 [Hw Hc]].
  exists s2. unfold Write. go.
  destruct (flushInterval f =? 0)%Z eqn:E; [|apply Z.eqb_neq in E; contradiction].
  go. rewrite <- Hf in Hw. rewrite Hw. split; [reflexivity|]. split; [exact Hc|].
  apply os_Write_sameFiles in Hw. apply Hw.
Qed.

(** X5, on a freshly opened log file. *)
Lemma Write_unbuffered_appends_witness :
  exists s',
    Write "hello world" demo.opened =
    Done ((11%nat, None), (s', demo.opened.2)) /\
    os.contents s' "logs/app.log" = Some "hello world" /\
    os.handles s' = os.handles demo.opened.1.
Proof.
  apply (Write_unbuffered_appends demo.opened.1 demo.opened.2 "hello world"
           3%nat "logs/app.log" (demo.regular 0 EmptyString));
    vm_compute; reflexivity.
Defined.

(** *** The loop of [bufio.Writer.Write] ends within two rounds *)

Lemma length_drop_all s : String.length (strings_.drop (String.length s) s) = 0.
Proof. induction s as [|c s IH]; [reflexivity|exact IH]. Qed.

Lemma os_Write_whole f p s n s1 :
  os.Write f p s = ((n, None), s1) -> n = String.length p.
Proof.
  unfold os.Write, os.accepted.
  destruct f as [fd|]; [|discriminate].
  destruct (os.handles s !! fd); [|discriminate].
  destruct p as [|c p]; [intros [= <- _]; reflexivity|].
  destruct (os.free s) as [k|].
  - destruct (String.length (String c p) <=? k) eqn:Hk.
    + cbn [String.length]. destruct (os.nodes s !! _); intros [= <- _]; reflexivity.
    + destruct k; [discriminate|]. destruct (os.nodes s !! _); discriminate.
  - cbn [String.length]. destruct (os.nodes s !! _); intros [= <- _]; reflexivity.
Qed.

Lemma Flush_result b s e b' s1 :
  bufio.Flush b s = (e, b', s1) ->
  match e with
  | Some _ => bufio.err b' = e
  | None => bufio.Buffered b' = 0 /\ bufio.err b' = None
  end.
Proof.
  unfold bufio.Flush, bufio.Buffered.
  destruct (bufio.err b) as [x|] eqn:Hx; [intros [= <- <- _]; exact Hx|].
  destruct (bufio.pending b) as [|c p] eqn:Hp.
  - intros [= <- <- _]. rewrite Hp. auto.
  - destruct (os.Write (bufio.wr b) (String c p) s) as [[n [x|]] s2].
    + intros [= <- <- _]. reflexivity.
    + destruct (n <? _); intros [= <- <- _]; cbn; auto.
Qed.

Lemma round_direct b p n s b1 p1 n1 s1 :
  bufio.Buffered b = 0 ->
  bufio.round b p n s = (b1, p1, n1, s1) -> bufio.guard b1 p1 = false.
Proof.
  intros Hb. unfold bufio.round.
  destruct (bufio.guard b p) eqn:Hg; [|intros [= <- <- _ _]; exact Hg].
  rewrite Hb. cbn [Nat.eqb].
  destruct (os.Write (bufio.wr b) p s) as [[k e] s2] eqn:Hw.
  intros [= <- <- _ _]. unfold bufio.guard. cbn [bufio.err].
  destruct e as [x|].
  - rewrite bool_decide_eq_false_2 by discriminate. apply andb_false_r.
  - apply os_Write_whole in Hw. subst k. rewrite length_drop_all.
    cbn. reflexivity.
Qed.

Lemma Write_rounds b p s :
  let '(b1, p1, n1, s1) := bufio.round b p 0 s in
  let '(b2, p2, n2, s2) := bufio.round b1 p1 n1 s1 in
  bufio.guard b2 p2 = false.
Proof.
  destruct (bufio.round b p 0 s) as [[[b1 p1] n1] s1] eqn:H1.
  destruct (bufio.round b1 p1 n1 s1) as [[[b2 p2] n2] s2] eqn:H2.
  destruct (Nat.eq_dec (bufio.Buffered b) 0) as [Hz|Hnz].
  - pose proof (round_direct _ _ _ _ _ _ _ _ Hz H1) as Hg.
    unfold bufio.round in H2. rewrite Hg in H2.
    injection H2 as <- <- _ _. exact Hg.
  - unfold bufio.round in H1.
    destruct (bufio.guard b p) eqn:Hg.
    + apply Nat.eqb_neq in Hnz. rewrite Hnz in H1.
      match type of H1 with
      | context [bufio.Flush ?x s] =>
          destruct (bufio.Flush x s) as [[e b'] s'] eqn:Hfl
      end.
      injection H1 as <- <- _ <-. apply Flush_result in Hfl.
      destruct e as [x|].
      * unfold bufio.round in H2.
        assert (Hg' : bufio.guard b' (strings_.drop (bufio.Available b) p) = false).
        { unfold bufio.guard. rewrite Hfl.
          rewrite bool_decide_eq_false_2 by discriminate. apply andb_false_r. }
        rewrite Hg' in H2. injection H2 as <- <- _ _. exact Hg'.
      * destruct Hfl as [Hempty _].
        exact (round_direct _ _ _ _ _ _ _ _ Hempty H2).
    + injection H1 as <- <- _ _.
      unfold bufio.round in H2. rewrite Hg in H2.
      injection H2 as <- <- _ _. exact Hg.
Qed.

(** *** The buffer invariant *)

Lemma present_is_Some {A} (o : option A) : is_Some o <-> present o = true.
Proof. destruct o; cbn; split; intros Hx; eauto; try discriminate. destruct Hx; discriminate. Qed.

Lemma bufInv_bool f :
  bufInv f <-> present (buf f) = (0 <? flushInterval f)%Z && present (file f).
Proof.
  unfold bufInv. rewrite !present_is_Some, <- Z.ltb_lt.
  destruct (present (buf f)), (0 <? flushInterval f)%Z, (present (file f));
    cbn; intuition congruence.
Qed.

Lemma bufOnlyIf_bool f :
  bufOnlyIf f <->
  (present (buf f) = true ->
   (0 <? flushInterval f)%Z && present (file f) = true).
Proof.
  unfold bufOnlyIf. rewrite !present_is_Some, <- Z.ltb_lt, andb_true_iff.
  reflexivity.
Qed.

Lemma bufInv_bufOnlyIf f : bufInv f -> bufOnlyIf f.
Proof. unfold bufInv, bufOnlyIf. tauto. Qed.

(** After the case analysis of a method: close a goal about the final
    state from the facts collected about the initial one. *)
Ltac settle :=
  repeat match goal with
         | H : (_ =? _)%Z = true |- _ => apply Z.eqb_eq in H
         | H : (_ =? _)%Z = false |- _ => apply Z.eqb_neq in H
         | H : (_ <? _)%Z = true |- _ => apply Z.ltb_lt in H
         | H : (_ <? _)%Z = false |- _ => apply Z.ltb_ge in H
         | H : _ && _ = true |- _ => apply andb_true_iff in H as [? ?]
         | H : ?x = Some _ |- _ => rewrite H in *
         | H : ?x = None |- _ => rewrite H in *
         end;
  cbn [present] in *;
  try discriminate; try lia; try congruence;
  repeat match goal with
         | |- context [(0 <? ?z)%Z] =>
             destruct (Z.ltb_spec 0 z); cbn [andb] in *
         end;
  try reflexivity; try discriminate; try lia; try congruence; auto.

Lemma openCurrentLocked_inv s f :
  exists e s' f', openCurrentLocked (s, f) = Done (e, (s', f')) /\
    bufInv f' /\ flushInterval f' = flushInterval f.
Proof.
  unfold openCurrentLocked. crunch;
    (do 3 eexists; split; [reflexivity|]);
    rewrite bufInv_bool; cbn; repeat split; settle.
Qed.

Lemma no_close_error s f fd e s2 :
  closeOK s f -> file f = Some fd -> os.Close (Some fd) s = (Some e, s2) -> False.
Proof.
  intros Hok Hf Hc. destruct (os_Close_ok _ _ _ Hok Hf) as [s3 Hs3]. congruence.
Qed.

Lemma no_close_error_flushed s f b e0 b' s1 fd e s2 :
  closeOK s f -> bufio.Flush b s = (e0, b', s1) -> file f = Some fd ->
  os.Close (Some fd) s1 = (Some e, s2) -> False.
Proof.
  intros Hok Hfl. apply Flush_sameFiles in Hfl.
  apply (no_close_error s1 f). eapply closeOK_sameFiles; eassumption.
Qed.

(** Dismiss a branch in which closing the descriptor failed. *)
Ltac close_succeeds :=
  exfalso;
  repeat match goal with
         | H : file ?f = Some _ |- _ => rewrite H in *
         end;
  solve [eauto using no_close_error, no_close_error_flushed].

Ltac finish_keeps :=
  split; [cbn; congruence|];
  split;
  [ rewrite !bufOnlyIf_bool; cbn; intros; settle
  | intros; first [ close_succeeds
                  | rewrite ?bufInv_bool in *; cbn; settle ] ].

Lemma keeps_refl s f : keeps s f f.
Proof. unfold keeps. tauto. Qed.

Lemma keeps_of_bufInv s f f' :
  flushInterval f' = flushInterval f -> bufInv f' -> keeps s f f'.
Proof. intros Hfi Hinv. unfold keeps. auto using bufInv_bufOnlyIf. Qed.

Lemma Write_keeps p s f :
  (0 <= flushInterval f)%Z ->
  exists r s' f', Write p (s, f) = Done (r, (s', f')) /\ keeps s f f'.
Proof.
  intros Hnn. unfold Write, openCurrentLocked, buf_Write. crunch;
    (do 3 eexists; split; [reflexivity|]); finish_keeps.
Qed.

Lemma flushBuffer_keeps s f :
  exists s' f', flushBuffer (s, f) = Done (tt, (s', f')) /\ keeps s f f'.
Proof.
  unfold flushBuffer, buf_Flush. crunch;
    (do 2 eexists; split; [reflexivity|]); finish_keeps.
Qed.

Lemma Close_keeps s f :
  exists e s' f', Close (s, f) = Done (e, (s', f')) /\ keeps s f f'.
Proof.
  unfold Close, buf_Flush. crunch;
    (do 3 eexists; split; [reflexivity|]); finish_keeps.
Qed.

Section rotate.
Context `{GoLib}.

(** The end of a rotation: reopen, then prune. *)
Ltac reopen_and_prune f :=
  match goal with
  | |- context [openCurrentLocked ?st] =>
      let e := fresh "e" in
      let s3 := fresh "s" in
      let f3 := fresh "f" in
      let Ho := fresh "Ho" in
      let Hi := fresh "Hi" in
      let Hfi := fresh "Hfi" in
      destruct (openCurrentLocked_inv st.1 st.2)
        as [e [s3 [f3 [Ho [Hi Hfi]]]]]; cbn in Ho, Hfi; rewrite Ho; go;
      assert (forall fs, keeps fs f f3)
        by (intros ?; apply keeps_of_bufInv; assumption);
      destruct e; go; [eauto|];
      destruct (0 <? maxFiles f3)%Z; go; [|eauto];
      let e' := fresh "e" in
      let s4 := fresh "s" in
      let Hcl := fresh "Hcl" in
      destruct (cleanOldFiles_Done s3 f3) as [e' [s4 Hcl]]; rewrite Hcl;
      eauto
  end.

Lemma checkAndRotate_keeps s f :
  exists s' f', checkAndRotate (s, f) = Done (tt, (s', f')) /\ keeps s f f'.
Proof.
  unfold checkAndRotate, buf_Flush. go.
  destruct (String.eqb _ (current f)); go; [eauto using keeps_refl|].
  destruct (buf f) as [b|] eqn:Hb; go.
  - destruct (bufio.Flush b s) as [[[e|] b'] s1] eqn:Hfl; go.
    + do 2 eexists. split; [reflexivity|]. finish_keeps.
    + destruct (file f) as [fd|] eqn:Hf; go.
      * destruct (os.Close (Some fd) s1) as [[e|] s2] eqn:Hc; go.
        -- do 2 eexists. split; [reflexivity|]. finish_keeps.
        -- reopen_and_prune f.
      * reopen_and_prune f.
  - destruct (file f) as [fd|] eqn:Hf; go.
    + destruct (os.Close (Some fd) s) as [[e|] s2] eqn:Hc; go.
      * do 2 eexists. split; [reflexivity|]. finish_keeps.
      * reopen_and_prune f.
    + reopen_and_prune f.
Qed.

Lemma handle_keeps e s f :
  (0 <= flushInterval f)%Z ->
  exists s' f', handle e (s, f) = Done (tt, (s', f')) /\ keeps s f f'.
Proof.
  intros Hnn. destruct e as [p| | | |t]; cbn [handle]; go.
  - destruct (Write_keeps p s f Hnn) as [r [s' [f' [Hw Hk]]]]. rewrite Hw. eauto.
  - destruct (Close_keeps s f) as [r [s' [f' [Hw Hk]]]]. rewrite Hw. eauto.
  - destruct (done f); [eauto using keeps_refl|]. apply checkAndRotate_keeps.
  - destruct (done f || negb (0 <? flushInterval f)%Z);
      [eauto using keeps_refl|]. apply flushBuffer_keeps.
  - eauto using keeps_refl.
Qed.

Lemma wrap64_seconds secs :
  (0 <= secs <= maxFlushSeconds)%Z ->
  wrap64 (secs * time.Second) = (secs * time.Second)%Z.
Proof.
  unfold wrap64, maxFlushSeconds, time.Second. intros Hr.
  rewrite Z.mod_small; lia.
Qed.

Lemma NewFileWriter_bufInv path mf secs s :
  (0 <= secs <= maxFlushSeconds)%Z ->
  exists fw s', NewFileWriterWithFlushInterval path mf secs s = Done (fw, s') /\
    bufInv fw /\ ((0 < flushInterval fw)%Z <-> (0 < secs)%Z).
Proof.
  intros Hr. unfold NewFileWriterWithFlushInterval.
  match goal with
  | |- context [checkAndRotate (s, ?f0)] =>
      destruct (checkAndRotate_keeps s f0) as [s' [f' [Hc [Hfi [_ Hk]]]]];
      rewrite Hc; exists f', s'; split; [reflexivity|]; split;
      [apply Hk|]
  end.
  - apply bufInv_bool. cbn. rewrite andb_false_r. reflexivity.
  - intros fd Hfd. discriminate.
  - rewrite Hfi. cbn [flushInterval]. rewrite wrap64_seconds by exact Hr.
    unfold time.Second. lia.
Qed.

End rotate.

(** *** C7 *)

(** C7 (as stated, refuted).  A buffered writer whose file reports an
    error when closed: [Close] has already dropped the buffer when the
    close fails, and leaves the handle in place. *)
Lemma Close_error_breaks_bufInv :
  match demo.buffered demo.flakyLogs [] with
  | Done (s, f) =>
      bufInv f /\
      match Close (s, f) with
      | Done (e, (_, f')) =>
          e = Some ErrIO /\ buf f' = None /\ file f' = Some 3%nat /\
          (0 < flushInterval f')%Z /\ ~ bufInv f'
      | Panic => False
      end
  | Panic => False
  end.
Proof.
  destruct (demo.buffered demo.flakyLogs []) as [[s f]|] eqn:E;
    vm_compute in E; [|discriminate].
  injection E as <- <-. split.
  - apply bufInv_bool. vm_compute. reflexivity.
  - match goal with
    | |- match ?c with _ => _ end =>
        destruct c as [[e [s' f']]|] eqn:E'; vm_compute in E'; [|discriminate]
    end.
    injection E' as <- <- <-.
    split; [reflexivity|]. split; [reflexivity|]. split; [reflexivity|].
    split; [reflexivity|].
    rewrite bufInv_bool. vm_compute. discriminate.
Qed.

(** C7 (amended).  For a flush interval in the range of [time.Duration]:
    construction establishes the invariant (buffer present iff the interval
    is positive and a file is open); every later step (write, close,
    rotation tick, flush tick) returns without panic, never leaves a buffer
    without buffering and an open file, and preserves the full invariant
    whenever the close of the held descriptor succeeds. *)
Theorem bufInv_preserved `{GoLib} :
  (forall path mf secs s,
     (0 <= secs <= maxFlushSeconds)%Z ->
     exists fw s',
       NewFileWriterWithFlushInterval path mf secs s = Done (fw, s') /\
       bufInv fw /\ ((0 < flushInterval fw)%Z <-> (0 < secs)%Z)) /\
  (forall e s f,
     (0 <= flushInterval f)%Z ->
     exists s' f',
       handle e (s, f) = Done (tt, (s', f')) /\
       flushInterval f' = flushInterval f /\
       (bufOnlyIf f -> bufOnlyIf f') /\
       (bufInv f -> closeOK s f -> bufInv f')).
Proof.
  split.
  - intros path mf secs s Hr. apply NewFileWriter_bufInv. exact Hr.
  - intros e s f Hnn. apply handle_keeps. exact Hnn.
Qed.

(** C7, an instance: closing an unbuffered writer with its file open. *)
Lemma bufInv_preserved_witness :
  exists s' f',
    handle (H := demo.lib) EvClose demo.opened = Done (tt, (s', f')) /\
    bufInv f'.
Proof.
  destruct (proj2 (bufInv_preserved (H := demo.lib)) EvClose
              demo.opened.1 demo.opened.2 ltac:(vm_compute; discriminate))
    as [s' [f' [Hstep [_ [_ Hinv]]]]].
  exists s', f'. split; [exact Hstep|]. apply Hinv.
  - apply bufInv_bool. vm_compute. reflexivity.
  - intros fd Hfd. injection Hfd as <-. exists "logs/app.log".
    split; [vm_compute; reflexivity|].
    intros nd Hnd. vm_compute in Hnd. injection Hnd as <-. reflexivity.
Defined.

End steps.

(* ===================================================================== *)
(** ** What [Write] returns *)
(* ===================================================================== *)

Section contract.

#[local] Arguments bufio.Flush : simpl never.
#[local] Arguments bufio.Write : simpl never.
#[local] Arguments os.Write : simpl never.
#[local] Arguments os.Close : simpl never.
#[local] Arguments os.OpenFile : simpl never.
#[local] Arguments Z.ltb : simpl never.
#[local] Arguments Z.eqb : simpl never.

Lemma length_drop n : forall s,
  String.length (strings_.drop n s) = String.length s - n.
Proof.
  induction n as [|n IH]; intros [|c s]; cbn; try reflexivity; try lia.
  apply IH.
Qed.

Lemma os_Write_count f p s n e s1 :
  os.Write f p s = ((n, e), s1) ->
  n <= String.length p /\ (e = None -> n = String.length p).
Proof.
  unfold os.Write, os.accepted.
  destruct f as [fd|]; [|intros [= <- <- _]; split; [lia|discriminate]].
  destruct (os.handles s !! fd); [|intros [= <- <- _]; split; [lia|discriminate]].
  destruct p as [|c p]; [intros [= <- <- _]; cbn; auto|].
  destruct (os.free s) as [k|].
  - destruct (String.length (String c p) <=? k) eqn:Hk.
    + cbn [String.length]. destruct (os.nodes s !! _); intros [= <- <- _]; auto.
    + apply Nat.leb_gt in Hk.
      destruct k; [intros [= <- <- _]; split; [lia|discriminate]|].
      destruct (os.nodes s !! _); intros [= <- <- _]; (split; [lia|discriminate]).
  - cbn [String.length]. destruct (os.nodes s !! _); intros [= <- <- _]; auto.
Qed.

Lemma round_count b p nn s b1 p1 n1 s1 :
  bufio.round b p nn s = (b1, p1, n1, s1) ->
  n1 + String.length p1 = nn + String.length p.
Proof.
  unfold bufio.round. destruct (bufio.guard b p) eqn:Hg;
    [|intros [= _ <- <- _]; reflexivity].
  destruct (bufio.Buffered b =? 0).
  - destruct (os.Write (bufio.wr b) p s) as [[n e] s2] eqn:Hw.
    intros [= _ <- <- _]. apply os_Write_count in Hw as [Hle _].
    rewrite length_drop. lia.
  - destruct (bufio.Flush _ s) as [[e b2] s2].
    intros [= _ <- <- _]. rewrite length_drop.
    unfold bufio.guard in Hg. apply andb_true_iff in Hg as [Hg _].
    apply Nat.ltb_lt in Hg. lia.
Qed.

Lemma bufio_Write_count b p s n e b' s' :
  bufio.Write b p s = ((n, e), b', s') ->
  n <= String.length p /\ (e = None -> n = String.length p).
Proof.
  unfold bufio.Write.
  destruct (bufio.round b p 0 s) as [[[b1 p1] n1] s1] eqn:H1.
  destruct (bufio.round b1 p1 n1 s1) as [[[b2 p2] n2] s2] eqn:H2.
  apply round_count in H1. apply round_count in H2.
  destruct (bufio.err b2); intros [= <- <- _ _]; (split; [lia|]);
    [discriminate|intros _; lia].
Qed.

Ltac count_leaf :=
  let Hw := fresh "Hw" in
  match goal with
  | |- context [os.Write ?fd ?p ?s] =>
      destruct (os.Write fd p s) as [[? ?] ?] eqn:Hw;
      apply os_Write_count in Hw
  | |- context [bufio.Write ?b ?p ?s] =>
      destruct (bufio.Write b p s) as [[[? ?] ?] ?] eqn:Hw;
      apply bufio_Write_count in Hw
  end;
  go; do 4 eexists; (split; [reflexivity|exact Hw]).

Lemma Write_count_aux p s f :
  exists n e s' f',
    Write p (s, f) = Done ((n, e), (s', f')) /\
    n <= String.length p /\ (e = None -> n = String.length p).
Proof.
  unfold Write, openCurrentLocked, buf_Write. go.
  destruct (file f) as [fd|] eqn:Hf; go.
  - destruct (flushInterval f =? 0)%Z; go; [rewrite ?Hf; count_leaf|].
    destruct (buf f) as [b|] eqn:Hb; go; rewrite ?Hb; count_leaf.
  - destruct (os.OpenFile (current f) s) as [[e|fd] s1]; go.
    + do 4 eexists. split; [reflexivity|]. split; [lia|discriminate].
    + destruct (0 <? flushInterval f)%Z; go;
        (destruct (flushInterval f =? 0)%Z; go; count_leaf).
Qed.

(** X6.  [Write] always returns, from any state of writer and file system: the
    count is at most the length of the input, and a call that reports no error
    has taken all of it. *)
Theorem Write_count (p : string) (s : os.FS) (f : FileWriter) :
  exists n e s' f',
    Write p (s, f) = Done ((n, e), (s', f')) /\
    n <= String.length p /\ (e = None -> n = String.length p).
Proof. apply Write_count_aux. Qed.

End contract.


(* ===================================================================== *)
(** ** From the writes to the file *)
(* ===================================================================== *)



Section flow.

#[local] Arguments bufio.Flush : simpl never.
#[local] Arguments bufio.Write : simpl never.
#[local] Arguments os.Write : simpl never.
#[local] Arguments os.Close : simpl never.
#[local] Arguments os.OpenFile : simpl never.
#[local] Arguments Z.ltb : simpl never.
#[local] Arguments Z.eqb : simpl never.
#[local] Arguments String.eqb : simpl never.

Lemma append_assoc a b c : (a +:+ b) +:+ c = a +:+ (b +:+ c).
Proof.
  induction a as [|x a IH]; [reflexivity|].
  change (String x ((a +:+ b) +:+ c) = String x (a +:+ (b +:+ c))).
  rewrite IH. reflexivity.
Qed.

Lemma substring_drop n : forall p,
  substring 0 n p +:+ strings_.drop n p = p.
Proof.
  induction n as [|n IH]; intros [|c p]; try reflexivity.
  cbn [substring strings_.drop].
  change (String c (substring 0 n p +:+ strings_.drop n p) = String c p).
  rewrite IH. reflexivity.
Qed.

Lemma os_Write_holds s fd name d p :
  holds s fd name d ->
  exists s', os.Write (Some fd) p s = ((String.length p, None), s') /\
             holds s' fd name (d +:+ p) /\ os.clock s' = os.clock s.
Proof.
  intros [Hh [Hfree [nd [Hnd [Hd Hce]]]]]. unfold os.Write. rewrite Hh.
  destruct p as [|c p].
  - exists s. split; [reflexivity|]. split; [|reflexivity].
    split; [exact Hh|]. split; [exact Hfree|]. exists nd.
    rewrite append_nil_r. auto.
  - rewrite Hfree. cbn [os.accepted String.length option_map]. rewrite Hnd.
    eexists. split; [reflexivity|]. split; [|reflexivity].
    split; [exact Hh|]. split; [reflexivity|].
    eexists. cbn [os.setNodes os.nodes]. rewrite lookup_insert_eq.
    split; [reflexivity|]. cbn [os.data os.closeErr]. split; [|exact Hce].
    change (S (String.length p)) with (String.length (String c p)).
    rewrite substring_all, Hd. reflexivity.
Qed.

Lemma Flush_holds s fd name d b :
  holds s fd name d -> bufio.wr b = Some fd -> bufio.err b = None ->
  exists s', bufio.Flush b s = (None, bufio.mkWriter (Some fd) EmptyString None, s') /\
             holds s' fd name (d +:+ bufio.pending b) /\ os.clock s' = os.clock s.
Proof.
  intros Hs Hwr He. unfold bufio.Flush. rewrite He.
  destruct (bufio.pending b) as [|c q] eqn:Hp.
  - exists s. rewrite append_nil_r. split; [|auto].
    destruct b; cbn in *; subst; reflexivity.
  - rewrite Hwr.
    destruct (os_Write_holds _ _ _ _ (String c q) Hs) as [s' [Hw [Hs' Hc]]].
    rewrite Hw. unfold bufio.Buffered. rewrite Hp, Nat.ltb_irrefl.
    exists s'. auto.
Qed.

Lemma round_holds s fd name d b p nn :
  holds s fd name d -> bufio.wr b = Some fd -> bufio.err b = None ->
  exists b1 p1 n1 s1 d1,
    bufio.round b p nn s = (b1, p1, n1, s1) /\
    holds s1 fd name d1 /\ bufio.wr b1 = Some fd /\ bufio.err b1 = None /\
    d1 +:+ bufio.pending b1 +:+ p1 = d +:+ bufio.pending b +:+ p /\
    os.clock s1 = os.clock s.
Proof.
  intros Hs Hwr He. unfold bufio.round.
  destruct (bufio.guard b p); [|do 5 eexists; eauto 10].
  destruct (bufio.Buffered b =? 0) eqn:Hz.
  - rewrite Hwr.
    destruct (os_Write_holds _ _ _ _ p Hs) as [s' [Hw [Hs' Hc]]]. rewrite Hw.
    do 5 eexists. split; [reflexivity|]. split; [exact Hs'|].
    cbn [bufio.wr bufio.err bufio.pending]. repeat split; try assumption.
    apply Nat.eqb_eq in Hz. unfold bufio.Buffered in Hz.
    destruct (bufio.pending b); [|discriminate].
    rewrite drop_whole. change (EmptyString +:+ p) with p.
    change (EmptyString +:+ EmptyString) with EmptyString.
    apply append_nil_r.
  - match goal with
    | |- context [bufio.Flush ?b1 s] =>
        destruct (Flush_holds s fd name d b1 Hs Hwr He) as [s' [Hfl [Hs' Hc]]];
        rewrite Hfl
    end.
    do 5 eexists. split; [reflexivity|]. split; [exact Hs'|].
    cbn [bufio.wr bufio.err bufio.pending]. repeat split; try assumption.
    change (EmptyString +:+ ?x) with x.
    rewrite !append_assoc. rewrite substring_drop. reflexivity.
Qed.

Lemma bufio_Write_holds s fd name d b p :
  holds s fd name d -> bufio.wr b = Some fd -> bufio.err b = None ->
  exists n b' s' d',
    bufio.Write b p s = ((n, None), b', s') /\
    holds s' fd name d' /\ bufio.wr b' = Some fd /\ bufio.err b' = None /\
    d' +:+ bufio.pending b' = d +:+ bufio.pending b +:+ p /\
    os.clock s' = os.clock s.
Proof.
  intros Hs Hwr He. unfold bufio.Write.
  destruct (round_holds s fd name d b p 0 Hs Hwr He)
    as [b1 [p1 [n1 [s1 [d1 [H1 [Hs1 [Hwr1 [He1 [Hd1 Hc1]]]]]]]]]].
  rewrite H1.
  destruct (round_holds s1 fd name d1 b1 p1 n1 Hs1 Hwr1 He1)
    as [b2 [p2 [n2 [s2 [d2 [H2 [Hs2 [Hwr2 [He2 [Hd2 Hc2]]]]]]]]]].
  rewrite H2, He2. do 4 eexists. split; [reflexivity|]. split; [exact Hs2|].
  cbn [bufio.wr bufio.err bufio.pending]. repeat split; try assumption.
  - congruence.
  - congruence.
Qed.


Lemma set_buf_same f : set_buf (buf f) f = f.
Proof. destruct f; reflexivity. Qed.

Lemma attached_holds s f fd L :
  attached s f fd -> os.free s = None -> logical s f = Some L ->
  exists d, holds s fd (current f) d /\ L = d +:+ pendingBytes f.
Proof.
  intros [Hf [Hh [[nd [Hnd Hce]] Hb]]] Hfree HL.
  unfold logical, os.contents in HL. rewrite Hnd in HL. cbn in HL.
  injection HL as <-. exists (os.data nd). split; [|reflexivity].
  split; [exact Hh|]. split; [exact Hfree|]. exists nd. auto.
Qed.

Lemma holds_attached s f fd d x :
  file f = Some fd -> holds s fd (current f) d ->
  (forall b, x = Some b ->
     bufio.wr b = Some fd /\ bufio.err b = None /\ flushInterval f <> 0%Z) ->
  attached s (set_buf x f) fd /\ os.free s = None /\
  logical s (set_buf x f) =
    Some (d +:+ match x with Some b => bufio.pending b | None => EmptyString end).
Proof.
  intros Hf [Hh [Hfree [nd [Hnd [Hd Hce]]]]] Hx.
  split; [|split; [exact Hfree|]].
  - split; [exact Hf|]. split; [exact Hh|]. split; [exists nd; auto|]. exact Hx.
  - unfold logical, os.contents, pendingBytes. cbn [current set_buf buf].
    rewrite Hnd. cbn. rewrite Hd. reflexivity.
Qed.

(** A write on an attached writer: the bytes join what the file will hold. *)
Lemma Write_flow s f fd L p :
  attached s f fd -> os.free s = None -> logical s f = Some L ->
  exists s' x,
    Write p (s, f) = Done ((String.length p, None), (s', set_buf x f)) /\
    attached s' (set_buf x f) fd /\ os.free s' = None /\
    logical s' (set_buf x f) = Some (L +:+ p) /\ os.clock s' = os.clock s.
Proof.
  intros Hatt Hfree HL.
  destruct (attached_holds _ _ _ _ Hatt Hfree HL) as [d [Hs ->]].
  destruct Hatt as [Hf [_ [_ Hb]]].
  unfold Write, buf_Write. go.
  destruct (flushInterval f =? 0)%Z eqn:Hz; go.
  - apply Z.eqb_eq in Hz.
    assert (Hnone : buf f = None).
    { destruct (buf f) as [b|] eqn:E; [|reflexivity].
      destruct (Hb b eq_refl) as [_ [_ Hne]]. contradiction. }
    destruct (os_Write_holds _ _ _ _ p Hs) as [s' [Hw [Hs' Hc]]].
    rewrite ?Hf. rewrite Hw. exists s', None.
    assert (Hsame : set_buf None f = f)
      by (rewrite <- Hnone; apply set_buf_same).
    rewrite Hsame. split; [reflexivity|].
    destruct (holds_attached s' f fd _ None Hf Hs') as [Ha [Hfr Hl]];
      [discriminate|].
    rewrite Hsame in Ha, Hl. split; [exact Ha|]. split; [exact Hfr|].
    split; [|exact Hc]. rewrite Hl. unfold pendingBytes. rewrite Hnone.
    rewrite !append_nil_r. reflexivity.
  - apply Z.eqb_neq in Hz.
    assert (Hstep : forall b, bufio.wr b = Some fd -> bufio.err b = None ->
              pendingBytes f = bufio.pending b ->
              exists s' x,
                (let '(r, b', s1) := bufio.Write b p s in
                 Done (r, (s1, set_buf (Some b') f))) =
                Done ((String.length p, None), (s', set_buf x f)) /\
                attached s' (set_buf x f) fd /\ os.free s' = None /\
                logical s' (set_buf x f) =
                  Some ((d +:+ pendingBytes f) +:+ p) /\
                os.clock s' = os.clock s).
    { intros b Hwr He Hpend.
      destruct (bufio_Write_holds _ _ _ _ b p Hs Hwr He)
        as [n [b' [s' [d' [Hw [Hs' [Hwr' [He' [Hd' Hc]]]]]]]]].
      pose proof (bufio_Write_count _ _ _ _ _ _ _ Hw) as [_ Hn].
      rewrite (Hn eq_refl) in Hw. rewrite Hw. exists s', (Some b').
      split; [reflexivity|].
      destruct (holds_attached s' f fd _ (Some b') Hf Hs') as [Ha [Hfr Hl]].
      { intros b0 [= <-]. auto. }
      split; [exact Ha|]. split; [exact Hfr|]. split; [|exact Hc].
      rewrite Hl, Hd', Hpend, append_assoc. reflexivity. }
    destruct (buf f) as [b|] eqn:Hbuf; go.
    + rewrite ?Hbuf. destruct (Hb b eq_refl) as [Hwr [He _]].
      apply Hstep; [exact Hwr|exact He|].
      unfold pendingBytes. rewrite Hbuf. reflexivity.
    + rewrite ?Hf. apply (Hstep (bufio.NewWriter (Some fd))); try reflexivity.
      unfold pendingBytes. rewrite Hbuf. reflexivity.
Qed.

(** A flush tick changes nothing of what the file will hold. *)
Lemma flushBuffer_flow s f fd L :
  attached s f fd -> os.free s = None -> logical s f = Some L ->
  exists s' x,
    flushBuffer (s, f) = Done (tt, (s', set_buf x f)) /\
    attached s' (set_buf x f) fd /\ os.free s' = None /\
    logical s' (set_buf x f) = Some L /\ os.clock s' = os.clock s.
Proof.
  intros Hatt Hfree HL.
  destruct (attached_holds _ _ _ _ Hatt Hfree HL) as [d [Hs ->]].
  pose proof Hatt as [Hf [_ [_ Hb]]].
  unfold flushBuffer, buf_Flush. go.
  destruct (buf f) as [b|] eqn:Hbuf; go.
  - rewrite ?Hbuf. destruct (Hb b eq_refl) as [Hwr [He Hne]].
    destruct (Flush_holds _ _ _ _ b Hs Hwr He) as [s' [Hfl [Hs' Hc]]].
    rewrite Hfl. go. exists s', (Some (bufio.mkWriter (Some fd) EmptyString None)).
    split; [reflexivity|].
    destruct (holds_attached s' f fd _
                (Some (bufio.mkWriter (Some fd) EmptyString None)) Hf Hs')
      as [Ha [Hfr Hl]].
    { intros b0 [= <-]. auto. }
    split; [exact Ha|]. split; [exact Hfr|]. split; [|exact Hc].
    rewrite Hl. cbn [bufio.pending]. rewrite append_nil_r.
    unfold pendingBytes. rewrite Hbuf. reflexivity.
  - exists s, None.
    assert (Hsame : set_buf None f = f)
      by (rewrite <- Hbuf; apply set_buf_same).
    rewrite Hsame. auto 10.
Qed.

(** Closing an attached writer puts everything into the file. *)
Lemma Close_flow s f fd L :
  attached s f fd -> os.free s = None -> logical s f = Some L ->
  exists s',
    Close (s, f) =
    Done (None, (s', set_file None (set_buf None (set_done true f)))) /\
    os.contents s' (current f) = Some L /\ os.handles s' !! fd = None.
Proof.
  intros Hatt Hfree HL.
  destruct (attached_holds _ _ _ _ Hatt Hfree HL) as [d [Hs ->]].
  pose proof Hatt as [Hf [_ [_ Hb]]].
  assert (Hclose : forall s1 d1, holds s1 fd (current f) d1 ->
            exists s', os.Close (Some fd) s1 = (None, s') /\
                       os.contents s' (current f) = Some d1 /\
                       os.handles s' !! fd = None).
  { intros s1 d1 [Hh [_ [nd [Hnd [Hd Hce]]]]]. unfold os.Close.
    rewrite Hh, Hnd, Hce. eexists. split; [reflexivity|].
    unfold os.contents. cbn. rewrite Hnd, lookup_delete_eq. cbn.
    rewrite Hd. auto. }
  unfold Close, buf_Flush. go.
  destruct (buf f) as [b|] eqn:Hbuf; go.
  - rewrite ?Hbuf. destruct (Hb b eq_refl) as [Hwr [He Hne]].
    destruct (Flush_holds _ _ _ _ b Hs Hwr He) as [s1 [Hfl [Hs1 Hc]]].
    rewrite Hfl. go. rewrite ?Hf. go.
    destruct (Hclose _ _ Hs1) as [s' [Hcl [Hcont Hgone]]]. rewrite Hcl. go.
    exists s'. split; [reflexivity|]. split; [|exact Hgone].
    rewrite Hcont. unfold pendingBytes. rewrite Hbuf. reflexivity.
  - rewrite ?Hf. go.
    destruct (Hclose _ _ Hs) as [s' [Hcl [Hcont Hgone]]]. rewrite Hcl. go.
    exists s'. split.
    + destruct f; cbn in *; subst; reflexivity.
    + split; [|exact Hgone]. rewrite Hcont. unfold pendingBytes. rewrite Hbuf.
      rewrite append_nil_r. reflexivity.
Qed.

Section trace.
Context `{GoLib}.

Lemma checkAndRotate_upToDate s f :
  upToDate s f -> checkAndRotate (s, f) = Done (tt, (s, f)).
Proof.
  unfold upToDate. intros Hup. unfold checkAndRotate. go. rewrite Hup.
  replace (String.eqb (current f) (current f)) with true
    by (symmetry; apply String.eqb_refl).
  reflexivity.
Qed.

#[local] Arguments Write : simpl never.
#[local] Arguments flushBuffer : simpl never.
#[local] Arguments checkAndRotate : simpl never.

Lemma runEvents_flow es : forall s f fd L,
  attached s f fd -> os.free s = None -> logical s f = Some L ->
  upToDate s f -> forallb sameFile es = true ->
  exists s' x,
    runEvents es (s, f) = Done (s', set_buf x f) /\
    attached s' (set_buf x f) fd /\ os.free s' = None /\
    logical s' (set_buf x f) = Some (L +:+ written es).
Proof.
  induction es as [|e es IH]; intros s f fd L Hatt Hfree HL Hup Hes.
  - exists s, (buf f). rewrite set_buf_same. cbn [runEvents written].
    rewrite append_nil_r. auto.
  - cbn [forallb] in Hes. apply andb_true_iff in Hes as [He Hes].
    assert (Hnext : forall s1 x1 L1,
              attached s1 (set_buf x1 f) fd -> os.free s1 = None ->
              logical s1 (set_buf x1 f) = Some L1 -> os.clock s1 = os.clock s ->
              exists s' x,
                runEvents es (s1, set_buf x1 f) = Done (s', set_buf x f) /\
                attached s' (set_buf x f) fd /\ os.free s' = None /\
                logical s' (set_buf x f) = Some (L1 +:+ written es)).
    { intros s1 x1 L1 Ha1 Hf1 Hl1 Hc1.
      destruct (IH s1 (set_buf x1 f) fd L1 Ha1 Hf1 Hl1) as [s' [x [Hr Hrest]]].
      - unfold upToDate in *. cbn [dir fileName current set_buf]. rewrite Hc1.
        exact Hup.
      - exact Hes.
      - exists s', x. exact (conj Hr Hrest). }
    assert (Hnoop : exists s' x,
              runEvents es (s, f) = Done (s', set_buf x f) /\
              attached s' (set_buf x f) fd /\ os.free s' = None /\
              logical s' (set_buf x f) = Some (L +:+ written es))
      by (apply IH; assumption).
    destruct e as [p| | | |t]; try discriminate; cbn [runEvents handle written].
    + destruct (Write_flow _ _ _ _ p Hatt Hfree HL)
        as [s1 [x1 [Hw [Ha1 [Hf1 [Hl1 Hc1]]]]]].
      go. rewrite ?Hw. go.
      destruct (Hnext _ _ _ Ha1 Hf1 Hl1 Hc1) as [s' [x [Hr Hrest]]].
      exists s', x. rewrite Hr. rewrite append_assoc in Hrest. auto.
    + go. destruct (done f); go; [exact Hnoop|].
      rewrite (checkAndRotate_upToDate _ _ Hup). exact Hnoop.
    + go. destruct (done f || negb (0 <? flushInterval f)%Z); go;
        [exact Hnoop|].
      destruct (flushBuffer_flow _ _ _ _ Hatt Hfree HL)
        as [s1 [x1 [Hw [Ha1 [Hf1 [Hl1 Hc1]]]]]].
      rewrite ?Hw. go.
      destruct (Hnext _ _ _ Ha1 Hf1 Hl1 Hc1) as [s' [x [Hr Hrest]]].
      exists s', x. auto.
Qed.

(** X7.  On a writer whose file is open on the current path and will close
    without error (a buffer, if there is one, wraps that file and has
    recorded no error), on a device without a limit and while the clock
    keeps giving the current name, any run
    of writes, flush ticks and rotation ticks followed by [Close] succeeds,
    and the file then holds what it held, what the buffer held and every byte
    written, in the order of the writes; the descriptor is closed and the
    writer keeps neither file nor buffer. *)
Theorem writes_reach_file (s : os.FS) (f : FileWriter) (fd : os.File)
    (es : list event) :
  attached s f fd -> os.free s = None -> upToDate s f ->
  forallb sameFile es = true ->
  exists s1 f1 s2 f2,
    runEvents es (s, f) = Done (s1, f1) /\
    Close (s1, f1) = Done (None, (s2, f2)) /\
    os.contents s2 (current f) =
      (fun l => l +:+ written es) <$> logical s f /\
    os.handles s2 !! fd = None /\ file f2 = None /\ buf f2 = None.
Proof.
  intros Hatt Hfree Hup Hes.
  assert (HL : exists L, logical s f = Some L).
  { destruct Hatt as [_ [_ [[nd [Hnd _]] _]]]. unfold logical, os.contents.
    rewrite Hnd. cbn. eauto. }
  destruct HL as [L HL].
  destruct (runEvents_flow es s f fd L Hatt Hfree HL Hup Hes)
    as [s1 [x [Hr [Ha1 [Hf1 Hl1]]]]].
  destruct (Close_flow _ _ _ _ Ha1 Hf1 Hl1) as [s2 [Hc [Hcont Hgone]]].
  do 4 eexists. split; [exact Hr|]. split; [exact Hc|].
  rewrite HL. cbn [fmap option_fmap option_map]. cbn [current set_buf] in Hcont.
  auto.
Qed.

End trace.

End flow.


(* ===================================================================== *)
(** ** Rotation *)
(* ===================================================================== *)

Section rotation.

#[local] Arguments bufio.Flush : simpl never.
#[local] Arguments bufio.Write : simpl never.
#[local] Arguments os.Write : simpl never.
#[local] Arguments os.Close : simpl never.
#[local] Arguments os.OpenFile : simpl never.
#[local] Arguments os.Remove : simpl never.
#[local] Arguments Z.ltb : simpl never.
#[local] Arguments Z.leb : simpl never.
#[local] Arguments Z.eqb : simpl never.
#[local] Arguments String.eqb : simpl never.

Lemma OpenFile_frame name s fd s' :
  os.OpenFile name s = (inr fd, s') ->
  fd = os.nextFd s /\
  os.handles s' = <[fd := name]> (os.handles s) /\
  is_Some (os.nodes s' !! name) /\
  forall p, p <> name -> os.nodes s' !! p = os.nodes s !! p.
Proof.
  unfold os.OpenFile.
  destruct (os.nodes s !! name) as [n|] eqn:Hn.
  - destruct (os.nkind n); try discriminate.
    destruct (os.immutable n); [discriminate|]. intros [= <- <-]. cbn.
    rewrite Hn. eauto.
  - destruct (os.nodes s !! os.parent name) as [d|]; [|discriminate].
    destruct (os.nkind d); try discriminate.
    destruct (os.immutable d); [discriminate|]. intros [= <- <-]. cbn.
    rewrite lookup_insert_eq. repeat split; eauto.
    intros p Hp. apply lookup_insert_ne. congruence.
Qed.

Lemma Remove_effect name s e s' :
  os.Remove name s = (e, s') ->
  os.handles s' = os.handles s /\
  forall p, os.nodes s' !! p = os.nodes s !! p \/ os.nodes s' !! p = None.
Proof.
  unfold os.Remove. intros Hr.
  assert (Hdel : forall p,
            os.nodes (os.setNodes (delete name (os.nodes s)) s) !! p =
              os.nodes s !! p \/
            os.nodes (os.setNodes (delete name (os.nodes s)) s) !! p = None).
  { intros p. cbn. destruct (decide (p = name)) as [->|Hne].
    - right. apply lookup_delete_eq.
    - left. apply lookup_delete_ne. congruence. }
  destruct (os.nodes s !! name) as [n|]; [|injection Hr as _ <-; auto].
  destruct (os.immutable n); [injection Hr as _ <-; auto|].
  destruct (os.nkind n); try (injection Hr as _ <-; split; [reflexivity|exact Hdel]).
  destruct (existsb _ _); injection Hr as _ <-; auto.
Qed.

Lemma removeEach_effect files : forall s f e s' f',
  removeEach files (s, f) = Done (e, (s', f')) ->
  f' = f /\ os.handles s' = os.handles s /\
  forall p, os.nodes s' !! p = os.nodes s !! p \/ os.nodes s' !! p = None.
Proof.
  induction files as [|x rest IH]; intros s f e s' f'; cbn [removeEach]; unfold_M.
  - intros [= _ <- <-]. auto.
  - destruct (os.Remove (name x) s) as [[err|] s1] eqn:Hr.
    + intros [= _ <- <-]. apply Remove_effect in Hr as [Hh Hn]. auto.
    + intros Hrest. apply IH in Hrest as [-> [Hh Hn]].
      apply Remove_effect in Hr as [Hh1 Hn1].
      split; [reflexivity|]. split; [congruence|].
      intros p. destruct (Hn p) as [Hp|Hp]; [|auto].
      rewrite Hp. apply Hn1.
Qed.

Section with_lib.
Context `{GoLib}.

Lemma cleanOldFiles_effect s f :
  exists e s', cleanOldFiles (s, f) = Done (e, (s', f)) /\
    os.handles s' = os.handles s /\
    forall p, os.nodes s' !! p = os.nodes s !! p \/ os.nodes s' !! p = None.
Proof.
  unfold cleanOldFiles. unfold_M.
  destruct (maxFiles f <=? 0)%Z; [eauto 10|].
  destruct (filepath_Glob (buildGlobPattern f) s) as [err|ms]; [eauto 10|].
  match goal with |- context [if ?c then _ else _] => destruct c end; [eauto 10|].
  match goal with
  | |- context [removeEach ?l (s, f)] =>
      destruct (removeEach_Done l s f) as [e [s' Hr]]; rewrite Hr;
      apply removeEach_effect in Hr as [_ Hr]
  end.
  eauto.
Qed.

#[local] Arguments cleanOldFiles : simpl never.

Lemma os_Write_frame fo p s r s' :
  os.Write fo p s = (r, s') ->
  os.nextFd s' = os.nextFd s /\ os.clock s' = os.clock s /\
  os.handles s' = os.handles s.
Proof.
  unfold os.Write. destruct fo as [fd|]; [|intros [= _ <-]; auto].
  destruct (os.handles s !! fd); [|intros [= _ <-]; auto].
  destruct p as [|c p]; [intros [= _ <-]; auto|].
  destruct (os.accepted (os.free s) (String c p)) as [n e].
  destruct n as [|n]; [intros [= _ <-]; auto|].
  destruct (os.nodes s !! _); intros [= _ <-]; auto.
Qed.

Lemma Flush_frame b s e b' s' :
  bufio.Flush b s = (e, b', s') ->
  os.nextFd s' = os.nextFd s /\ os.clock s' = os.clock s /\
  os.handles s' = os.handles s.
Proof.
  unfold bufio.Flush. destruct (bufio.err b); [intros [= _ _ <-]; auto|].
  destruct (bufio.pending b) as [|c q]; [intros [= _ _ <-]; auto|].
  destruct (os.Write (bufio.wr b) (String c q) s) as [[n e0] s2] eqn:Hw.
  apply os_Write_frame in Hw.
  destruct e0; [intros [= _ _ <-]; exact Hw|].
  destruct (n <? _); intros [= _ _ <-]; exact Hw.
Qed.

(** A rotation that starts with a successful flush goes on as one that
    starts without a buffer. *)
Lemma checkAndRotate_flushed s f b b' s1 :
  buf f = Some b -> bufio.Flush b s = (None, b', s1) ->
  filepath_Join (dir f) (time_Format (os.clock s) (fileName f)) <> current f ->
  checkAndRotate (s, f) = checkAndRotate (s1, set_buf None f).
Proof.
  intros Hbuf Hfl Hnew. pose proof (Flush_frame _ _ _ _ _ Hfl) as [_ [Hc _]].
  unfold checkAndRotate, buf_Flush. go. rewrite Hc.
  apply String.eqb_neq in Hnew. rewrite Hnew. go. rewrite ?Hbuf. go.
  rewrite ?Hfl. go. reflexivity.
Qed.

Lemma checkAndRotate_unbuffered s f fd D :
  file f = Some fd -> buf f = None -> holds s fd (current f) D ->
  (fd < os.nextFd s)%nat ->
  let new := filepath_Join (dir f) (time_Format (os.clock s) (fileName f)) in
  new <> current f ->
  exists s' f',
    checkAndRotate (s, f) = Done (tt, (s', f')) /\
    current f' = new /\
    os.handles s' !! fd = None /\
    (os.contents s' (current f) = Some D \/
     (0 < maxFiles f)%Z /\ os.contents s' (current f) = None) /\
    match file f' with
    | Some fd' => os.handles s' !! fd' = Some new /\ pendingBytes f' = EmptyString
    | None => buf f' = None
    end.
Proof.
  intros Hf Hbuf [Hh [_ [nd [Hnd [Hd Hce]]]]] Hfd new Hnew.
  unfold checkAndRotate. go. fold new.
  pose proof Hnew as Hneq. apply String.eqb_neq in Hneq. rewrite Hneq. go.
  rewrite ?Hbuf. go. rewrite ?Hf. go.
  unfold os.Close. rewrite Hh, Hnd, Hce. go.
  unfold openCurrentLocked. go.
  match goal with
  | |- context [os.OpenFile new ?s2] =>
      assert (Hold : os.contents s2 (current f) = Some D)
        by (unfold os.contents; cbn; rewrite Hnd; cbn; congruence);
      assert (Hgone : os.handles s2 !! fd = None)
        by (cbn; apply lookup_delete_eq);
      assert (Hnext : os.nextFd s2 = os.nextFd s) by reflexivity;
      destruct (os.OpenFile new s2) as [[e|fd'] s3] eqn:Ho; go
  end.
  - apply OpenFile_err in Ho. subst s3.
    do 2 eexists. split; [reflexivity|]. cbn. auto.
  - apply OpenFile_frame in Ho as [Hfd' [Hh3 [_ Hn3]]].
    assert (Hne : fd' <> fd) by (rewrite Hfd'; cbn; lia).
    assert (Hgone3 : os.handles s3 !! fd = None).
    { rewrite Hh3, lookup_insert_ne by exact Hne. exact Hgone. }
    assert (Hnew3 : os.handles s3 !! fd' = Some new).
    { rewrite Hh3. apply lookup_insert_eq. }
    assert (Hold3 : os.contents s3 (current f) = Some D).
    { unfold os.contents in *. rewrite Hn3 by congruence. exact Hold. }
    assert (Hpend : forall g, pendingBytes
              (set_buf (if (0 <? flushInterval f)%Z
                        then Some (bufio.NewWriter (Some fd')) else None) g)
              = EmptyString).
    { intros g. unfold pendingBytes. cbn. destruct (0 <? flushInterval f)%Z; reflexivity. }
    destruct (0 <? flushInterval f)%Z eqn:Hfi; go;
      (destruct (0 <? maxFiles f)%Z eqn:Hmf; go;
       [ match goal with
         | |- context [cleanOldFiles (s3, ?f3)] =>
             destruct (cleanOldFiles_effect s3 f3) as [e [s4 [Hcl [Hh4 Hn4]]]];
             rewrite Hcl; go
         end;
         do 2 eexists; (split; [reflexivity|]); cbn;
         (split; [reflexivity|]); rewrite Hh4;
         (split; [exact Hgone3|]); (split; [|auto]);
         apply Z.ltb_lt in Hmf;
         unfold os.contents in *;
         destruct (Hn4 (current f)) as [Hp|Hp]; rewrite Hp; auto
       | do 2 eexists; (split; [reflexivity|]); cbn; auto 10 ]).
Qed.

(** X8.  Rotation, on a writer whose file is open on the current path and
    will close without error (a buffer, if there is one, wraps that file
    and has recorded no error), on a device without a limit: when the
    clock gives a new name, everything written so far is flushed to the
    old file and its descriptor closed before the new file is opened; the old file keeps those bytes unless pruning removes it, and
    the buffer on the new file starts empty. *)
Theorem checkAndRotate_switches (s : os.FS) (f : FileWriter) (fd : os.File) :
  attached s f fd -> os.free s = None -> (fd < os.nextFd s)%nat ->
  let new := filepath_Join (dir f) (time_Format (os.clock s) (fileName f)) in
  new <> current f ->
  exists s' f',
    checkAndRotate (s, f) = Done (tt, (s', f')) /\
    current f' = new /\
    os.handles s' !! fd = None /\
    (os.contents s' (current f) = logical s f \/
     (0 < maxFiles f)%Z /\ os.contents s' (current f) = None) /\
    match file f' with
    | Some fd' => os.handles s' !! fd' = Some new /\ pendingBytes f' = EmptyString
    | None => buf f' = None
    end.
Proof.
  intros Hatt Hfree Hfd new Hnew.
  assert (HL : exists L, logical s f = Some L).
  { destruct Hatt as [_ [_ [[nd [Hnd _]] _]]]. unfold logical, os.contents.
    rewrite Hnd. cbn. eauto. }
  destruct HL as [L HL]. rewrite HL.
  destruct (attached_holds _ _ _ _ Hatt Hfree HL) as [d [Hs ->]].
  pose proof Hatt as [Hf [_ [_ Hb]]].
  unfold pendingBytes. destruct (buf f) as [b|] eqn:Hbuf.
  - destruct (Hb b eq_refl) as [Hwr [He _]].
    destruct (Flush_holds _ _ _ _ b Hs Hwr He) as [s1 [Hfl [Hs1 _]]].
    pose proof (Flush_frame _ _ _ _ _ Hfl) as [Hn [Hc _]].
    rewrite (checkAndRotate_flushed _ _ _ _ _ Hbuf Hfl Hnew).
    destruct (checkAndRotate_unbuffered s1 (set_buf None f) fd
                (d +:+ bufio.pending b)) as [s' [f' Hrest]];
      try reflexivity; try assumption.
    + rewrite Hn. exact Hfd.
    + cbn [dir fileName current set_buf]. rewrite Hc. exact Hnew.
    + cbn [dir fileName current set_buf maxFiles] in Hrest. rewrite Hc in Hrest.
      exists s', f'. exact Hrest.
  - rewrite append_nil_r.
    apply (checkAndRotate_unbuffered s f fd d); assumption.
Qed.

End with_lib.
End rotation.


(* ===================================================================== *)
(** ** A write error in the buffer *)
(* ===================================================================== *)

Section wedge.

#[local] Arguments bufio.Flush : simpl never.
#[local] Arguments bufio.Write : simpl never.
#[local] Arguments os.Write : simpl never.
#[local] Arguments os.Close : simpl never.
#[local] Arguments os.OpenFile : simpl never.
#[local] Arguments os.Remove : simpl never.
#[local] Arguments Z.ltb : simpl never.
#[local] Arguments Z.leb : simpl never.
#[local] Arguments Z.eqb : simpl never.
#[local] Arguments String.eqb : simpl never.

Lemma Flush_stuck b e s : bufio.err b = Some e -> bufio.Flush b s = (Some e, b, s).
Proof. intros He. unfold bufio.Flush. rewrite He. reflexivity. Qed.

Lemma bufio_Write_stuck b e p s :
  bufio.err b = Some e -> bufio.Write b p s = ((0, Some e), b, s).
Proof.
  intros He.
  assert (Hr : forall n, bufio.round b p n s = (b, p, n, s)).
  { intros n. unfold bufio.round, bufio.guard. rewrite He.
    rewrite bool_decide_eq_false_2 by discriminate. rewrite andb_false_r.
    reflexivity. }
  unfold bufio.Write. rewrite !Hr, He. reflexivity.
Qed.

(** X9.  Once the buffer of a buffering writer has recorded a write error, the
    writer is stuck with it: every [Write] returns 0 and that error, flush
    ticks and rotation ticks change nothing, also when a new name is due, and
    [Close] returns the error and leaves file and buffer in place. *)
Theorem buffer_error_sticks `{GoLib} (e : error) (s : os.FS) (f : FileWriter)
    (p : string) :
  wedged e f ->
  Write p (s, f) = Done ((0, Some e), (s, f)) /\
  flushBuffer (s, f) = Done (tt, (s, f)) /\
  checkAndRotate (s, f) = Done (tt, (s, f)) /\
  Close (s, f) = Done (Some e, (s, set_done true f)).
Proof.
  intros [[fd Hf] [Hne [b [Hb He]]]].
  assert (Hsame : set_buf (Some b) f = f)
    by (rewrite <- Hb; apply set_buf_same).
  apply Z.eqb_neq in Hne.
  pose proof (bufio_Write_stuck _ _ p s He) as Hw.
  pose proof (Flush_stuck _ _ s He) as Hfl.
  split; [|split; [|split]].
  - unfold Write, buf_Write. do 3 (go; rewrite ?Hne, ?Hb, ?Hw, ?Hsame).
    reflexivity.
  - unfold flushBuffer, buf_Flush. do 3 (go; rewrite ?Hb, ?Hfl, ?Hsame).
    reflexivity.
  - unfold checkAndRotate, buf_Flush. go.
    destruct (String.eqb _ (current f)); go; [reflexivity|].
    do 3 (go; rewrite ?Hb, ?Hfl, ?Hsame). reflexivity.
  - unfold Close, buf_Flush. do 3 (go; rewrite ?Hb, ?Hfl).
    destruct f; cbn in *; subst; reflexivity.
Qed.

End wedge.


(* ===================================================================== *)
(** ** File names, once more *)
(* ===================================================================== *)

Section names2.

#[local] Arguments Ascii.eqb !a !b : simpl nomatch.

(** *** The check interval, exactly *)

Lemma HasPrefix_nil s : strings_.HasPrefix s EmptyString = true.
Proof. destruct s; reflexivity. Qed.

Lemma Contains_byte c s :
  strings_.Contains s (String c EmptyString) = true <->
  In c (list_ascii_of_string s).
Proof.
  induction s as [|b s IH]; cbn [strings_.Contains strings_.HasPrefix
                                   list_ascii_of_string In].
  - split; [discriminate|tauto].
  - rewrite HasPrefix_nil, orb_true_iff, andb_true_r, IH, Ascii.eqb_eq. split.
    + intros [->|Hin]; auto.
    + intros [->|Hin]; auto.
Qed.

Lemma Contains_05_5 s :
  strings_.Contains s "05" = true -> strings_.Contains s "5" = true.
Proof.
  induction s as [|b s IH]; cbn [strings_.Contains strings_.HasPrefix];
    [discriminate|].
  intros Hc. apply orb_true_iff in Hc as [Hp|Hc].
  - apply andb_true_iff in Hp as [_ Hp]. apply orb_true_iff. right.
    destruct s as [|b' s']; [discriminate|].
    cbn [strings_.Contains]. rewrite Hp. reflexivity.
  - rewrite (IH Hc). apply orb_true_r.
Qed.

(** X16.  The rotation check runs every second exactly when the file name
    holds the byte [5], and every minute otherwise: the test for [05] adds
    nothing to the test for [5]. *)
Theorem getCheckInterval_byte_5 (f : FileWriter) :
  (In "5"%char (list_ascii_of_string (fileName f)) ->
   getCheckInterval f = time.Second) /\
  (~ In "5"%char (list_ascii_of_string (fileName f)) ->
   getCheckInterval f = time.Minute).
Proof.
  unfold getCheckInterval. split; intros Hin.
  - apply Contains_byte in Hin. rewrite Hin, orb_true_r. reflexivity.
  - destruct (strings_.Contains (fileName f) "5") eqn:E5.
    + exfalso. apply Hin, Contains_byte, E5.
    + destruct (strings_.Contains (fileName f) "05") eqn:E05; [|reflexivity].
      apply Contains_05_5 in E05. congruence.
Qed.

(** *** The shape of the glob *)

Lemma Contains_consC c w :
  strings_.Contains w "**" = false ->
  strings_.Contains (layout.consC c w) "**" = false.
Proof.
  intros Hw. unfold layout.consC.
  destruct (Ascii.eqb_spec c "*") as [->|Hc].
  - destruct w as [|c' w']; [reflexivity|].
    destruct (Ascii.eqb_spec c' "*") as [->|Hc']; [exact Hw|].
    cbn [strings_.Contains strings_.HasPrefix] in *.
    apply orb_false_iff in Hw as [_ Hw]. rewrite Hw.
    destruct (Ascii.eqb_spec "*" c') as [<-|_]; [contradiction|]. reflexivity.
  - cbn [strings_.Contains strings_.HasPrefix].
    destruct (Ascii.eqb_spec "*" c) as [<-|_]; [contradiction|].
    cbn. exact Hw.
Qed.

Lemma collapse_no_run z : strings_.Contains (layout.collapse z) "**" = false.
Proof.
  induction z as [|c z IH]; [reflexivity|].
  rewrite collapse_cons. apply Contains_consC, IH.
Qed.

Lemma In_consC a c w :
  In a (list_ascii_of_string (layout.consC c w)) ->
  a = c \/ In a (list_ascii_of_string w).
Proof.
  unfold layout.consC. destruct (Ascii.eqb c "*").
  - destruct w as [|c' w']; cbn; [intuition (subst; auto)|].
    destruct (Ascii.eqb c' "*"); cbn; intuition (subst; auto).
  - cbn. intuition (subst; auto).
Qed.

Lemma In_collapse a z :
  In a (list_ascii_of_string (layout.collapse z)) -> In a (list_ascii_of_string z).
Proof.
  induction z as [|c z IH]; [tauto|].
  rewrite collapse_cons. intros Hin. apply In_consC in Hin as [->|Hin]; cbn; auto.
Qed.

Lemma In_wildcarded a toks s : forall k,
  In a (list_ascii_of_string (layout.wildcarded (layout.scan toks k s))) ->
  a = "*"%char \/ exists s', layout.tokenAt toks (String a s') = None.
Proof.
  induction s as [|c s IH]; intros k; cbn [layout.scan]; [intros []|].
  destruct k as [|k]; [|apply IH].
  destruct (layout.tokenAt toks (String c s)) as [t|] eqn:Et;
    rewrite wildcarded_cons; cbn [layout.wild]; rewrite append_one;
    cbn [list_ascii_of_string In]; intros [<-|Hin]; eauto.
Qed.

Lemma tokenAt_None_digit a s' :
  layout.tokenAt layout.numericTokens (String a s') = None ->
  regexp.inRange "1" "5" a = false.
Proof.
  intros Hnone.
  destruct (regexp.inRange "1" "5" a) eqn:Hr; [|reflexivity]. exfalso.
  rewrite inRange_1_5 in Hr.
  unfold layout.tokenAt in Hnone.
  assert (Hall : forall t, In t layout.numericTokens ->
            strings_.HasPrefix (String a s') t = false).
  { intros t Hin. eapply List.find_none in Hnone; [exact Hnone|exact Hin]. }
  repeat (apply orb_true_iff in Hr as [Hr|Hr]);
    apply Ascii.eqb_eq in Hr; subst a;
    match type of Hall with
    | context [String ?d s'] =>
        assert (Hp : strings_.HasPrefix (String d s') (String d EmptyString) = false)
          by (apply Hall; cbn; tauto)
    end;
    cbn [strings_.HasPrefix] in Hp; rewrite HasPrefix_nil in Hp; discriminate.
Qed.

(** X17.  The glob made from a file name never holds two wildcards in a row,
    and none of the digits 1 to 5. *)
Theorem globName_shape (fileName : string) :
  strings_.Contains (globName fileName) "**" = false /\
  forall c, In c (list_ascii_of_string (globName fileName)) ->
            regexp.inRange "1" "5" c = false.
Proof.
  rewrite globName_tokens. split; [apply collapse_no_run|].
  intros c Hin. apply In_collapse in Hin.
  apply In_wildcarded in Hin as [->|[s' Hnone]]; [reflexivity|].
  exact (tokenAt_None_digit _ _ Hnone).
Qed.

(** *** Static names *)




End names2.


(* ===================================================================== *)
(** ** Pruning, the flush interval and the constructor *)
(* ===================================================================== *)

Section more.

#[local] Arguments bufio.Flush : simpl never.
#[local] Arguments bufio.Write : simpl never.
#[local] Arguments os.Write : simpl never.
#[local] Arguments os.Close : simpl never.
#[local] Arguments os.OpenFile : simpl never.
#[local] Arguments os.Remove : simpl never.
#[local] Arguments Z.ltb : simpl never.
#[local] Arguments Z.leb : simpl never.
#[local] Arguments Z.eqb : simpl never.
#[local] Arguments Z.mul : simpl never.
#[local] Arguments wrap64 : simpl never.
#[local] Arguments String.eqb : simpl never.

(** *** Pruning unlinks old files and nothing else *)

Lemma Remove_cases name s e s' :
  os.Remove name s = (e, s') ->
  s' = s \/ (is_Some (os.nodes s !! name) /\
             s' = os.setNodes (delete name (os.nodes s)) s).
Proof.
  unfold os.Remove. destruct (os.nodes s !! name) as [n|]; [|intros [= _ <-]; auto].
  destruct (os.immutable n); [intros [= _ <-]; auto|].
  destruct (os.nkind n); try (intros [= _ <-]; eauto).
  destruct (existsb _ _); intros [= _ <-]; eauto.
Qed.

Lemma Remove_changes name s e s' :
  os.Remove name s = (e, s') ->
  os.handles s' = os.handles s /\ os.free s' = os.free s /\
  os.clock s' = os.clock s /\
  forall p, os.nodes s' !! p = os.nodes s !! p \/
            (os.nodes s' !! p = None /\ p = name).
Proof.
  intros Hr. apply Remove_cases in Hr as [->|[_ ->]]; [auto 10|].
  split; [reflexivity|]. split; [reflexivity|]. split; [reflexivity|].
  intros p. cbn. destruct (decide (p = name)) as [->|Hne].
  - right. split; [apply lookup_delete_eq|reflexivity].
  - left. apply lookup_delete_ne. congruence.
Qed.

Lemma removeEach_changes files : forall s f e s' f',
  removeEach files (s, f) = Done (e, (s', f')) ->
  os.handles s' = os.handles s /\ os.free s' = os.free s /\
  os.clock s' = os.clock s /\
  forall p, os.nodes s' !! p = os.nodes s !! p \/
            (os.nodes s' !! p = None /\ p ∈ name <$> files).
Proof.
  induction files as [|x rest IH]; intros s f e s' f'; cbn [removeEach]; unfold_M.
  - intros [= _ <- <-]. auto.
  - destruct (os.Remove (name x) s) as [[err|] s1] eqn:Hr;
      apply Remove_changes in Hr as [Hh1 [Hf1 [Hc1 Hn1]]].
    + intros [= _ <- <-]. split; [exact Hh1|]. split; [exact Hf1|].
      split; [exact Hc1|]. intros p. destruct (Hn1 p) as [Hp|[Hnone ->]]; [auto|].
      right. split; [exact Hnone|]. cbn. apply elem_of_cons. auto.
    + intros Hrest. apply IH in Hrest as [Hh [Hf [Hc Hn]]].
      split; [congruence|]. split; [congruence|]. split; [congruence|].
      intros p. cbn [fmap list_fmap]. rewrite elem_of_cons.
      destruct (Hn p) as [Hp|[Hnone Hin]]; [|auto].
      rewrite Hp. destruct (Hn1 p) as [Hp1|[Hnone ->]]; auto.
Qed.

Section with_lib.
Context `{GoLib}.

Lemma Stat_Regular p s t :
  os.Stat p s = inr (os.mkInfo false t) ->
  exists nd, os.nodes s !! p = Some nd /\ os.nkind nd = os.Regular.
Proof.
  unfold os.Stat. destruct (os.nodes s !! p) as [nd|]; [|discriminate].
  destruct (os.nkind nd) eqn:Hk; try discriminate. eauto.
Qed.

Lemma cleanOldFiles_changes s s' f f' e :
  sorts After ->
  cleanOldFiles (s, f) = Done (e, (s', f')) ->
  f' = f /\ os.handles s' = os.handles s /\ os.free s' = os.free s /\
  forall p, os.nodes s' !! p = os.nodes s !! p \/
    (os.nodes s' !! p = None /\
     p <> current f /\
     filepath_Match (buildGlobPattern f) p = Some true /\
     (exists nd, os.nodes s !! p = Some nd /\ os.nkind nd = os.Regular) /\
     (0 < maxFiles f < Z.of_nat (length (oldFiles s f)))%Z).
Proof.
  intros Hsort. unfold cleanOldFiles. unfold_M.
  destruct (maxFiles f <=? 0)%Z eqn:Hmf; [intros [= _ <- <-]; auto|].
  unfold oldFiles.
  destruct (filepath_Glob (buildGlobPattern f) s) as [err|ms] eqn:Hglob;
    [intros [= _ <- <-]; auto|].
  destruct (Z.of_nat (length (candidates (current f) s ms)) <=? maxFiles f)%Z
    eqn:Hlen; [intros [= _ <- <-]; auto|].
  intros Hrun.
  pose proof (removeEach_frame _ _ _ _ _ _ Hrun) as [Hff _].
  apply removeEach_changes in Hrun as [Hh [Hf [_ Hn]]].
  split; [exact Hff|]. split; [exact Hh|]. split; [exact Hf|].
  intros p. destruct (Hn p) as [Heq|[Hnone Hin]]; [auto|]. right.
  split; [exact Hnone|].
  apply list_elem_of_fmap in Hin as [x [-> Hx]].
  apply elem_of_drop_list in Hx.
  destruct (Hsort (candidates (current f) s ms)) as [Hperm _].
  rewrite Hperm in Hx. apply elem_of_candidates in Hx as [Hm [Hne Hst]].
  unfold filepath_Glob in Hglob.
  destruct (filepath_Match (buildGlobPattern f) EmptyString); [|discriminate].
  injection Hglob as <-. apply list_elem_of_filter in Hm as [Hm _].
  split; [exact Hne|]. split; [exact Hm|].
  split; [exact (Stat_Regular _ _ _ Hst)|].
  apply Z.leb_gt in Hmf, Hlen. lia.
Qed.


(** *** A negative flush interval *)


(** *** The constructor *)

#[local] Arguments cleanOldFiles : simpl never.

(** What the constructor returns, by the outcome of the first open. *)
Lemma constructor_result (path : string) (maxFiles flushIntervalSeconds : Z)
    (s : os.FS) :
  sorts After ->
  let new := filepath_Join (filepath_Dir path)
               (time_Format (os.clock s) (filepath_Base path)) in
  let fi := wrap64 (flushIntervalSeconds * time.Second) in
  new <> EmptyString ->
  exists fw s',
    NewFileWriterWithFlushInterval path maxFiles flushIntervalSeconds s
      = Done (fw, s') /\
    match os.OpenFile new s with
    | (inl e, _) =>
        s' = s /\
        fw = mkFileWriter path (filepath_Dir path) (filepath_Base path) new
               None None maxFiles fi false
    | (inr fd, s1) =>
        fw = mkFileWriter path (filepath_Dir path) (filepath_Base path) new
               (Some fd)
               (if (0 <? fi)%Z then Some (bufio.NewWriter (Some fd)) else None)
               maxFiles fi false /\
        os.handles s' = os.handles s1 /\ os.free s' = os.free s1 /\
        os.nodes s' !! new = os.nodes s1 !! new
    end.
Proof.
  intros Hsort new fi Hnew.
  unfold NewFileWriterWithFlushInterval, checkAndRotate. go. fold new. fold fi.
  apply String.eqb_neq in Hnew. rewrite Hnew. go.
  unfold openCurrentLocked. go.
  destruct (os.OpenFile new s) as [[e|fd] s1] eqn:Ho; go.
  - pose proof (OpenFile_err _ _ _ _ Ho) as Hs1. subst s1.
    do 2 eexists. split; [reflexivity|]. cbn. auto.
  - destruct (0 <? fi)%Z; go;
      (destruct (0 <? maxFiles)%Z; go;
       [ match goal with
         | |- context [cleanOldFiles (s1, ?f3)] =>
             destruct (cleanOldFiles_Done s1 f3) as [e [s4 Hcl]]; rewrite Hcl;
             destruct (cleanOldFiles_changes _ _ _ _ _ Hsort Hcl)
               as [_ [Hh4 [Hf4 Hn4]]]
         end;
         do 2 eexists; (split; [reflexivity|]); cbn;
         (split; [reflexivity|]); (split; [exact Hh4|]); (split; [exact Hf4|]);
         destruct (Hn4 new) as [Heq|[_ [Hne _]]];
         [exact Heq|cbn in Hne; contradiction]
       | do 2 eexists; (split; [reflexivity|]); cbn; auto ]).
Qed.

(** X12.  The constructor always returns a writer, its current path the name
    the clock gives. When the file cannot be opened the error is dropped: the
    file system is as before, the writer has no file, and every [Write] tries
    again and returns the error of the open. Otherwise the writer holds a
    descriptor open on that path, which exists. *)
Theorem NewFileWriterWithFlushInterval_opens (path : string)
    (maxFiles flushIntervalSeconds : Z) (s : os.FS) :
  sorts After ->
  let new := filepath_Join (filepath_Dir path)
               (time_Format (os.clock s) (filepath_Base path)) in
  new <> EmptyString ->
  exists fw s',
    NewFileWriterWithFlushInterval path maxFiles flushIntervalSeconds s
      = Done (fw, s') /\
    current fw = new /\
    match os.OpenFile new s with
    | (inl e, _) =>
        s' = s /\ file fw = None /\ buf fw = None /\
        forall p, Write p (s', fw) = Done ((0, Some e), (s', fw))
    | (inr fd, _) =>
        file fw = Some fd /\ os.handles s' !! fd = Some new /\
        is_Some (os.nodes s' !! new)
    end.
Proof.
  intros Hsort new Hnew.
  destruct (constructor_result path maxFiles flushIntervalSeconds s Hsort Hnew)
    as [fw [s' [Hn Hres]]].
  exists fw, s'. split; [exact Hn|]. fold new in Hres.
  destruct (os.OpenFile new s) as [[e|fd] s1] eqn:Ho.
  - destruct Hres as [-> ->]. cbn [current file buf].
    split; [reflexivity|]. split; [reflexivity|]. split; [reflexivity|].
    split; [reflexivity|]. intros p.
    rewrite Write_reopen by reflexivity. cbn [current]. rewrite Ho.
    rewrite (OpenFile_err _ _ _ _ Ho). reflexivity.
  - destruct Hres as [-> [Hh [_ Hnd]]]. cbn [current file].
    split; [reflexivity|]. split; [reflexivity|].
    pose proof (OpenFile_frame _ _ _ _ Ho) as [_ [Hh1 [Hex _]]].
    rewrite Hh, Hh1, Hnd. split; [apply lookup_insert_eq|exact Hex].
Qed.

(** *** No panic *)

Lemma NewFileWriter_returns path mf secs s :
  exists fw s', NewFileWriterWithFlushInterval path mf secs s = Done (fw, s').
Proof.
  unfold NewFileWriterWithFlushInterval.
  match goal with
  | |- context [checkAndRotate (s, ?f0)] =>
      destruct (checkAndRotate_keeps s f0) as [s' [f' [Hc _]]]; rewrite Hc
  end.
  eauto.
Qed.

Lemma Write_returns p st : exists r st', Write p st = Done (r, st').
Proof.
  destruct st as [s f].
  destruct (Write_count_aux p s f) as [n [e [s' [f' [Hw _]]]]].
  rewrite Hw. eauto.
Qed.

#[local] Arguments Write : simpl never.
#[local] Arguments Close : simpl never.
#[local] Arguments flushBuffer : simpl never.
#[local] Arguments checkAndRotate : simpl never.

Lemma handle_returns e st : exists st', handle e st = Done (tt, st').
Proof.
  destruct st as [s f]. destruct e as [p| | | |t]; cbn [handle]; go.
  - destruct (Write_returns p (s, f)) as [r [st' Hw]]. rewrite Hw. eauto.
  - destruct (Close_keeps s f) as [r [s' [f' [Hw _]]]]. rewrite Hw. eauto.
  - destruct (done f); [eauto|].
    destruct (checkAndRotate_keeps s f) as [s' [f' [Hw _]]]. rewrite Hw. eauto.
  - destruct (done f || negb (0 <? flushInterval f)%Z); [eauto|].
    destruct (flushBuffer_keeps s f) as [s' [f' [Hw _]]]. rewrite Hw. eauto.
  - eauto.
Qed.

Lemma runEvents_returns_aux es : forall st, exists st', runEvents es st = Done st'.
Proof.
  induction es as [|e es IH]; intros st; cbn [runEvents]; [eauto|].
  destruct (handle_returns e st) as [st' He]. rewrite He. apply IH.
Qed.

(** X13.  A writer from the constructor never panics: the constructor
    returns, and so does every run of writes, ticks, clock changes and
    calls of [Close] after it; the buffer is never used through a nil
    pointer. *)
Theorem no_panic_after_construction (path : string)
    (maxFiles flushIntervalSeconds : Z) (s : os.FS) (es : list event) :
  exists fw s' st',
    NewFileWriterWithFlushInterval path maxFiles flushIntervalSeconds s
      = Done (fw, s') /\
    runEvents es (s', fw) = Done st'.
Proof.
  destruct (NewFileWriter_returns path maxFiles flushIntervalSeconds s)
    as [fw [s' Hn]].
  destruct (runEvents_returns_aux es (s', fw)) as [st' Hr].
  exists fw, s', st'. split; [exact Hn|exact Hr].
Qed.

End with_lib.
End more.


(* ===================================================================== *)
(** ** After [Close], and after pruning *)
(* ===================================================================== *)

Section after_close.

#[local] Arguments bufio.Flush : simpl never.
#[local] Arguments bufio.Write : simpl never.
#[local] Arguments os.Write : simpl never.
#[local] Arguments os.Close : simpl never.
#[local] Arguments os.OpenFile : simpl never.
#[local] Arguments os.Remove : simpl never.
#[local] Arguments Z.ltb : simpl never.
#[local] Arguments Z.leb : simpl never.
#[local] Arguments Z.eqb : simpl never.
#[local] Arguments String.eqb : simpl never.

Lemma Write_same_file p s f r s' f' :
  Write p (s, f) = Done (r, (s', f')) ->
  done f' = done f /\ current f' = current f.
Proof.
  unfold Write, openCurrentLocked, buf_Write.
  crunch; intros [= _ <- <-]; cbn; auto.
Qed.

Lemma Close_done s f e s' f' :
  Close (s, f) = Done (e, (s', f')) -> done f' = true /\ current f' = current f.
Proof.
  unfold Close, buf_Flush. crunch; intros [= _ <- <-]; cbn; auto.
Qed.

Section with_lib.
Context `{GoLib}.

#[local] Arguments Write : simpl never.
#[local] Arguments Close : simpl never.
#[local] Arguments flushBuffer : simpl never.
#[local] Arguments checkAndRotate : simpl never.

Lemma handle_done e s f s' f' :
  done f = true -> handle e (s, f) = Done (tt, (s', f')) ->
  done f' = true /\ current f' = current f.
Proof.
  intros Hd. destruct e as [p| | | |t]; cbn [handle]; go; rewrite ?Hd; go.
  - destruct (Write p (s, f)) as [[r [s1 f1]]|] eqn:Hw; [|discriminate].
    intros [= <- <-]. apply Write_same_file in Hw as [Hd1 Hc1].
    split; congruence.
  - destruct (Close (s, f)) as [[r [s1 f1]]|] eqn:Hw; [|discriminate].
    intros [= <- <-]. exact (Close_done _ _ _ _ _ Hw).
  - intros [= <- <-]. auto.
  - intros [= <- <-]. auto.
  - intros [= <- <-]. auto.
Qed.

Lemma runEvents_done es : forall s f s' f',
  done f = true -> runEvents es (s, f) = Done (s', f') ->
  done f' = true /\ current f' = current f.
Proof.
  induction es as [|e es IH]; intros s f s' f' Hd; cbn [runEvents].
  - intros [= <- <-]. auto.
  - destruct (handle_returns e (s, f)) as [[s1 f1] He]. rewrite He.
    apply handle_done in He as [Hd1 Hc1]; [|exact Hd].
    intros Hr. apply IH in Hr as [Hd2 Hc2]; [|exact Hd1]. split; congruence.
Qed.

(** X10.  [Close], whether it returns an error or not, ends rotation for good:
    whatever is written and whatever the clock shows afterwards, the writer
    keeps the current path it had when it was closed. *)
Theorem Close_ends_rotation (s s' s1 : os.FS) (f f' : FileWriter)
    (e : option error) (es : list event) :
  Close (s, f) = Done (e, (s', f')) ->
  exists s2 f2,
    runEvents es (s1, f') = Done (s2, f2) /\
    done f2 = true /\ current f2 = current f.
Proof.
  intros Hc. apply Close_done in Hc as [Hd Hcur].
  destruct (runEvents_returns_aux es (s1, f')) as [[s2 f2] Hr].
  exists s2, f2. split; [exact Hr|].
  apply runEvents_done in Hr as [Hd2 Hc2]; [|exact Hd]. split; congruence.
Qed.

(** X1.  On a writer from the constructor, whatever was written and
    whichever ticks and calls came before, [Close] returns, with nil or
    with an error: no call through [f.buf] or [f.file] is made on a nil
    pointer.  The rotation is over afterwards and the current path as it
    was; after nil the writer holds neither file nor buffer. *)
Theorem Close_returns_after_construction (path : string)
    (maxFiles flushIntervalSeconds : Z) (s : os.FS) (es : list event) :
  exists fw s' s1 f1 e s2 f2,
    NewFileWriterWithFlushInterval path maxFiles flushIntervalSeconds s
      = Done (fw, s') /\
    runEvents es (s', fw) = Done (s1, f1) /\
    Close (s1, f1) = Done (e, (s2, f2)) /\
    done f2 = true /\ current f2 = current f1 /\
    (e = None -> file f2 = None /\ buf f2 = None).
Proof.
  destruct (NewFileWriter_returns path maxFiles flushIntervalSeconds s)
    as [fw [s' Hn]].
  destruct (runEvents_returns_aux es (s', fw)) as [[s1 f1] Hr].
  destruct (Close_total (s1, f1)) as [e [[s2 f2] Hc]].
  exists fw, s', s1, f1, e, s2, f2.
  split; [exact Hn|]. split; [exact Hr|]. split; [exact Hc|].
  destruct (Close_done _ _ _ _ _ Hc) as [Hd Hcur].
  split; [exact Hd|]. split; [exact Hcur|].
  intros ->. apply Close_ok_state in Hc as [Hf [Hb _]]. auto.
Qed.

(** *** A second pruning pass finds nothing to do *)

Lemma cleanOldFiles_leaves_few s s' f f' :
  (0 < maxFiles f)%Z -> sorts After ->
  cleanOldFiles (s, f) = Done (None, (s', f')) ->
  f' = f /\ length (oldFiles s' f) <= Z.to_nat (maxFiles f).
Proof.
  intros Hpos Hsort Hrun. unfold cleanOldFiles in Hrun. unfold_M.
  destruct (maxFiles f <=? 0)%Z eqn:Hmf; [apply Z.leb_le in Hmf; lia|].
  destruct (filepath_Glob (buildGlobPattern f) s) as [err|ms] eqn:Hglob;
    [discriminate|].
  set (files := candidates (current f) s ms) in *.
  destruct (Hsort files) as [Hperm _].
  destruct (Z.of_nat (length files) <=? maxFiles f)%Z eqn:Hlen.
  - injection Hrun as <- <-. split; [reflexivity|]. apply Z.leb_le in Hlen.
    unfold oldFiles. rewrite Hglob. fold files. lia.
  - apply removeEach_ok in Hrun as [-> Hnodes]. split; [reflexivity|].
    pose proof (oldFiles_after s s' f) as Hafter.
    pose proof (NoDup_oldFiles s' f) as Hnd.
    pose proof (oldFiles_exists s' f) as Hex.
    unfold oldFiles in Hafter at 2. rewrite Hglob in Hafter. fold files in Hafter.
    set (N := Z.to_nat (maxFiles f)) in *.
    transitivity (length (take N (sort_Slice After files)));
      [|apply firstn_le_length].
    apply submseteq_length, NoDup_submseteq; [exact Hnd|].
    intros x Hx.
    assert (Hin : x ∈ sort_Slice After files).
    { rewrite Hperm. apply Hafter; [|exact Hx].
      intros p Hp. rewrite Hnodes in Hp |- *.
      destruct (decide _); [destruct Hp; discriminate|reflexivity]. }
    rewrite <- (take_drop N (sort_Slice After files)) in Hin.
    apply elem_of_app in Hin as [Hin|Hin]; [exact Hin|].
    exfalso. specialize (Hex x Hx). rewrite Hnodes in Hex.
    rewrite decide_True in Hex; [destruct Hex; discriminate|].
    apply list_elem_of_fmap. exists x. auto.
Qed.

(** X15.  A pruning pass that returned no error leaves nothing to prune: a
    second pass on its result returns no error and changes nothing. *)
Theorem cleanOldFiles_twice (s s' : os.FS) (f f' : FileWriter) :
  sorts After ->
  cleanOldFiles (s, f) = Done (None, (s', f')) ->
  cleanOldFiles (s', f') = Done (None, (s', f')).
Proof.
  intros Hsort Hrun.
  destruct (Z.leb_spec (maxFiles f) 0) as [Hle|Hpos].
  - assert (Hf : f' = f).
    { destruct (cleanOldFiles_Done s f) as [e0 [s0 Hd]]. congruence. }
    subst f'. unfold cleanOldFiles. unfold_M.
    apply Z.leb_le in Hle. rewrite Hle. reflexivity.
  - destruct (cleanOldFiles_leaves_few _ _ _ _ Hpos Hsort Hrun) as [-> Hfew].
    assert (Hglob : exists ms, filepath_Glob (buildGlobPattern f) s = inr ms).
    { unfold cleanOldFiles in Hrun. unfold_M.
      destruct (maxFiles f <=? 0)%Z eqn:Hmf; [apply Z.leb_le in Hmf; lia|].
      destruct (filepath_Glob (buildGlobPattern f) s) as [err|ms];
        [discriminate|eauto]. }
    destruct Hglob as [ms Hglob].
    unfold cleanOldFiles. unfold_M.
    destruct (maxFiles f <=? 0)%Z eqn:Hmf; [reflexivity|].
    unfold oldFiles in Hfew. unfold filepath_Glob in *.
    destruct (filepath_Match (buildGlobPattern f) EmptyString); [|discriminate].
    replace (Z.of_nat _ <=? maxFiles f)%Z with true; [reflexivity|].
    symmetry. apply Z.leb_le. lia.
Qed.

End with_lib.
End after_close.


(* ===================================================================== *)
(** ** [ParseLevel] *)
(* ===================================================================== *)

Section levels.
Context `{GoText}.

#[local] Arguments String.eqb : simpl nomatch.

Lemma allBytes_app P s t :
  allBytes P (s +:+ t) = allBytes P s && allBytes P t.
Proof.
  induction s as [|c s IH]; [reflexivity|].
  change (String c s +:+ t) with (String c (s +:+ t)). cbn [allBytes].
  rewrite IH, andb_assoc. reflexivity.
Qed.

Lemma allBytes_impl (P Q : ascii -> bool) s :
  (forall c, P c = true -> Q c = true) -> allBytes P s = true -> allBytes Q s = true.
Proof.
  intros HPQ. induction s as [|c s IH]; [reflexivity|]. cbn [allBytes].
  intros Hs. apply andb_true_iff in Hs as [Hc Hs]. rewrite (HPQ _ Hc), (IH Hs).
  reflexivity.
Qed.

Lemma trimRight_solid s : allBytes solid s = true -> trimRight s = inl s.
Proof.
  induction s as [|c s IH]; [reflexivity|]. cbn [allBytes trimRight].
  intros Hs. apply andb_true_iff in Hs as [Hc Hs]. rewrite (IH Hs).
  destruct s as [|c' t]; [|reflexivity].
  unfold solid in Hc. apply andb_true_iff in Hc as [Ha Hsp].
  apply negb_true_iff in Hsp. rewrite Ha, Hsp. reflexivity.
Qed.

Lemma TrimSpace_solid s : allBytes solid s = true -> strings_TrimSpace s = s.
Proof.
  intros Hs. unfold strings_TrimSpace.
  assert (Hl : trimLeft s = inl s).
  { destruct s as [|c s]; [reflexivity|]. cbn [allBytes trimLeft] in *.
    apply andb_true_iff in Hs as [Hc _]. unfold solid in Hc.
    apply andb_true_iff in Hc as [Ha Hsp]. apply negb_true_iff in Hsp.
    rewrite Ha, Hsp. reflexivity. }
  rewrite Hl, (trimRight_solid _ Hs). reflexivity.
Qed.

Lemma solid_ascii c : solid c = true -> isASCII c = true.
Proof. unfold solid. intros Hc. apply andb_true_iff in Hc as [Ha _]. exact Ha. Qed.

Lemma ToLower_ascii s :
  allBytes isASCII s = true -> strings_ToLower s = mapBytes lowerByte s.
Proof. intros Hs. unfold strings_ToLower. rewrite Hs. reflexivity. Qed.

Lemma digit_byte n : isDigit (ascii_of_N (48 + n mod 10)) = true.
Proof.
  assert (Hlt : (n mod 10 < 10)%N) by (apply N.mod_lt; discriminate).
  remember (n mod 10)%N as d eqn:Hd. clear Hd.
  do 10 (destruct d as [|d] using N.peano_ind; [reflexivity|];
         apply N.succ_lt_mono in Hlt || (exfalso; lia)).
  exfalso. lia.
Qed.

Lemma digitsOf_bytes fuel : forall n acc,
  allBytes isDigit acc = true -> allBytes isDigit (digitsOf fuel n acc) = true.
Proof.
  induction fuel as [|fuel IH]; intros n acc Hacc; [exact Hacc|].
  cbn [digitsOf].
  assert (Hacc' : allBytes isDigit (String (ascii_of_N (48 + n mod 10)) acc) = true)
    by (cbn [allBytes]; rewrite digit_byte, Hacc; reflexivity).
  destruct (n <? 10)%N; [exact Hacc'|apply IH, Hacc'].
Qed.

Lemma decimal_bytes n : allBytes isDigit (decimal n) = true.
Proof. apply digitsOf_bytes. reflexivity. Qed.


Lemma digit_solid c : isDigit c = true -> solid c = true.
Proof.
  destruct c as [[] [] [] [] [] [] [] []]; vm_compute; intros Hd;
    first [reflexivity|discriminate].
Qed.

(** A level name followed by a signed distance is no name [ParseLevel]
    knows. *)
Lemma ParseLevel_offset base sgn ds :
  In base ["DEBUG"; "INFO"; "WARN"; "ERROR"]%string ->
  In sgn ["+"; "-"]%char ->
  allBytes isDigit ds = true ->
  ParseLevel (base +:+ String sgn ds) = slog.LevelInfo.
Proof.
  intros Hbase Hsgn Hds.
  assert (Hsolid : allBytes solid (base +:+ String sgn ds) = true).
  { rewrite allBytes_app. cbn [allBytes].
    rewrite (allBytes_impl _ _ _ digit_solid Hds).
    cbn in Hbase, Hsgn.
    destruct Hbase as [<-|[<-|[<-|[<-|[]]]]]; destruct Hsgn as [<-|[<-|[]]];
      reflexivity. }
  unfold ParseLevel. rewrite (TrimSpace_solid _ Hsolid).
  rewrite ToLower_ascii by (exact (allBytes_impl _ _ _ solid_ascii Hsolid)).
  cbn in Hbase, Hsgn.
  destruct Hbase as [<-|[<-|[<-|[<-|[]]]]]; destruct Hsgn as [<-|[<-|[]]];
    reflexivity.
Qed.

Lemma signed_shape val :
  exists sgn ds, signed val = String sgn ds /\ In sgn ["+"; "-"]%char /\
                 allBytes isDigit ds = true.
Proof.
  unfold signed. destruct (val <? 0)%Z; do 2 eexists;
    (split; [reflexivity|]); (split; [cbn; auto|apply decimal_bytes]).
Qed.

Lemma ParseLevel_names :
  ParseLevel "DEBUG" = slog.LevelDebug /\ ParseLevel "INFO" = slog.LevelInfo /\
  ParseLevel "WARN" = slog.LevelWarn /\ ParseLevel "ERROR" = slog.LevelError.
Proof. repeat split; reflexivity. Qed.

(** X19.  [ParseLevel] reads back the name [Level.String] gives to each of the
    four named levels; every other level, printed as a name and a signed
    distance, is read as [LevelInfo]. *)
Theorem ParseLevel_Level_String (l : slog.Level) :
  ParseLevel (slog_Level_String l) =
  if bool_decide (l ∈ [slog.LevelDebug; slog.LevelInfo; slog.LevelWarn;
                       slog.LevelError])
  then l else slog.LevelInfo.
Proof.
  destruct ParseLevel_names as [Hd [Hi [Hw He]]].
  assert (Hoff : forall base val,
            In base ["DEBUG"; "INFO"; "WARN"; "ERROR"]%string ->
            ParseLevel (base +:+ signed val) = slog.LevelInfo).
  { intros base val Hbase. destruct (signed_shape val) as [sgn [ds [-> [Hs Hds]]]].
    apply ParseLevel_offset; assumption. }
  unfold slog_Level_String, slog.LevelDebug, slog.LevelInfo, slog.LevelWarn,
    slog.LevelError in *.
  destruct (l <? 0)%Z eqn:H0; [|destruct (l <? 4)%Z eqn:H4;
                                 [|destruct (l <? 8)%Z eqn:H8]];
    match goal with
    | |- context [(?v =? 0)%Z] => destruct (Z.eqb_spec v 0) as [Hv|Hv]
    end;
    try apply Z.ltb_lt in H0; try apply Z.ltb_ge in H0;
    try apply Z.ltb_lt in H4; try apply Z.ltb_ge in H4;
    try apply Z.ltb_lt in H8; try apply Z.ltb_ge in H8.
  - replace l with (-4)%Z by lia. exact Hd.
  - rewrite Hoff by (cbn; auto). rewrite bool_decide_eq_false_2; [reflexivity|].
    rewrite !elem_of_cons, elem_of_nil. lia.
  - replace l with 0%Z by lia. exact Hi.
  - rewrite Hoff by (cbn; auto). rewrite bool_decide_eq_false_2; [reflexivity|].
    rewrite !elem_of_cons, elem_of_nil. lia.
  - replace l with 4%Z by lia. exact Hw.
  - rewrite Hoff by (cbn; auto). rewrite bool_decide_eq_false_2; [reflexivity|].
    rewrite !elem_of_cons, elem_of_nil. lia.
  - replace l with 8%Z by lia. exact He.
  - rewrite Hoff by (cbn; auto). rewrite bool_decide_eq_false_2; [reflexivity|].
    rewrite !elem_of_cons, elem_of_nil. lia.
Qed.


(** *** Case and surrounding space *)

Lemma space_ascii c : asciiSpace c = true -> isASCII c = true.
Proof.
  destruct c as [[] [] [] [] [] [] [] []]; vm_compute; intros Hc;
    first [reflexivity|discriminate].
Qed.

Lemma upperByte_class c :
  isASCII (upperByte c) = isASCII c /\ asciiSpace (upperByte c) = asciiSpace c /\
  lowerByte (upperByte c) = lowerByte c.
Proof. destruct c as [[] [] [] [] [] [] [] []]; vm_compute; auto. Qed.

Lemma allBytes_map P g s :
  (forall c, P (g c) = P c) -> allBytes P (mapBytes g s) = allBytes P s.
Proof.
  intros Hg. induction s as [|c s IH]; [reflexivity|].
  cbn [mapBytes allBytes]. rewrite Hg. f_equal. exact IH.
Qed.

Lemma mapBytes_compose g1 g2 g s :
  (forall c, g1 (g2 c) = g c) -> mapBytes g1 (mapBytes g2 s) = mapBytes g s.
Proof.
  intros Hg. induction s as [|c s IH]; [reflexivity|].
  cbn [mapBytes]. rewrite Hg. f_equal. exact IH.
Qed.

Lemma trimLeft_pad pre x :
  allBytes asciiSpace pre = true -> trimLeft (pre +:+ x) = trimLeft x.
Proof.
  induction pre as [|c pre IH]; [reflexivity|]. cbn [allBytes].
  intros Hp. apply andb_true_iff in Hp as [Hc Hp].
  change (String c pre +:+ x) with (String c (pre +:+ x)). cbn [trimLeft].
  rewrite (space_ascii _ Hc), Hc. cbn [negb]. apply IH, Hp.
Qed.

Lemma trimLeft_spaces post :
  allBytes asciiSpace post = true -> trimLeft post = inl EmptyString.
Proof.
  intros Hp. rewrite <- (append_nil_r post). rewrite trimLeft_pad by exact Hp.
  reflexivity.
Qed.

Lemma trimRight_spaces post :
  allBytes asciiSpace post = true -> trimRight post = inl EmptyString.
Proof.
  induction post as [|c post IH]; [reflexivity|]. cbn [allBytes trimRight].
  intros Hp. apply andb_true_iff in Hp as [Hc Hp]. rewrite (IH Hp).
  rewrite (space_ascii _ Hc), Hc. reflexivity.
Qed.

Lemma trimRight_pad x post :
  allBytes asciiSpace post = true -> trimRight (x +:+ post) = trimRight x.
Proof.
  intros Hp. induction x as [|c x IH]; [exact (trimRight_spaces _ Hp)|].
  change (String c x +:+ post) with (String c (x +:+ post)). cbn [trimRight].
  rewrite IH. reflexivity.
Qed.

(** On ASCII input both loops end without the slow path. *)
Lemma trimLeft_ascii s :
  allBytes isASCII s = true ->
  exists r, trimLeft s = inl r /\ allBytes isASCII r = true /\
    forall post, allBytes asciiSpace post = true ->
      trimLeft (s +:+ post) =
      inl (match r with EmptyString => EmptyString | _ => r +:+ post end).
Proof.
  induction s as [|c s IH]; cbn [allBytes trimLeft].
  - intros _. exists EmptyString. split; [reflexivity|]. split; [reflexivity|].
    intros post Hp. exact (trimLeft_spaces _ Hp).
  - intros Hs. pose proof Hs as Hall. apply andb_true_iff in Hs as [Hc Hs].
    rewrite Hc. cbn [negb].
    change (String c s +:+ ?p) with (String c (s +:+ p)). cbn [trimLeft].
    rewrite Hc. cbn [negb].
    destruct (asciiSpace c); [exact (IH Hs)|].
    exists (String c s). split; [reflexivity|]. split; [exact Hall|].
    reflexivity.
Qed.

Lemma trimRight_ascii s :
  allBytes isASCII s = true ->
  exists t, trimRight s = inl t /\ allBytes isASCII t = true.
Proof.
  induction s as [|c s IH]; cbn [allBytes trimRight]; [eauto|].
  intros Hs. apply andb_true_iff in Hs as [Hc Hs].
  destruct (IH Hs) as [t [-> Ht]]. rewrite Hc. cbn [negb].
  destruct t as [|c' t].
  - destruct (asciiSpace c); eexists; (split; [reflexivity|]);
      cbn [allBytes]; rewrite ?Hc; reflexivity.
  - eexists. split; [reflexivity|]. cbn [allBytes] in *. rewrite Hc, Ht.
    reflexivity.
Qed.

Lemma TrimSpace_ascii s :
  allBytes isASCII s = true ->
  exists r t, trimLeft s = inl r /\ trimRight r = inl t /\
              strings_TrimSpace s = t /\ allBytes isASCII t = true.
Proof.
  intros Hs. destruct (trimLeft_ascii _ Hs) as [r [Hl [Hr _]]].
  destruct (trimRight_ascii _ Hr) as [t [Ht Hta]].
  exists r, t. unfold strings_TrimSpace. rewrite Hl, Ht. auto.
Qed.

Lemma TrimSpace_pad pre x post :
  allBytes asciiSpace pre = true -> allBytes asciiSpace post = true ->
  allBytes isASCII x = true ->
  strings_TrimSpace (pre +:+ x +:+ post) = strings_TrimSpace x.
Proof.
  intros Hpre Hpost Hx. unfold strings_TrimSpace.
  rewrite (trimLeft_pad _ _ Hpre).
  destruct (trimLeft_ascii _ Hx) as [r [Hl [Hr Hpad]]].
  rewrite (Hpad _ Hpost), Hl.
  destruct r as [|c r]; [reflexivity|].
  rewrite (trimRight_pad _ _ Hpost). reflexivity.
Qed.

Lemma trimLeft_upper s :
  trimLeft (mapBytes upperByte s) =
  match trimLeft s with
  | inl r => inl (mapBytes upperByte r)
  | inr r => inr (mapBytes upperByte r)
  end.
Proof.
  induction s as [|c s IH]; [reflexivity|]. cbn [mapBytes trimLeft].
  destruct (upperByte_class c) as [-> [-> _]].
  destruct (isASCII c); cbn [negb]; [|reflexivity].
  destruct (asciiSpace c); [exact IH|reflexivity].
Qed.

Lemma trimRight_upper s :
  trimRight (mapBytes upperByte s) =
  match trimRight s with
  | inl r => inl (mapBytes upperByte r)
  | inr r => inr (mapBytes upperByte r)
  end.
Proof.
  induction s as [|c s IH]; [reflexivity|]. cbn [mapBytes trimRight].
  rewrite IH. destruct (upperByte_class c) as [Ha [Hsp _]].
  destruct (trimRight s) as [[|c' t]|t]; cbn [mapBytes]; try reflexivity.
  rewrite Ha, Hsp. destruct (isASCII c); cbn [negb]; [|reflexivity].
  destruct (asciiSpace c); reflexivity.
Qed.

(** X20.  [ParseLevel] ignores ASCII case and ASCII white space around the
    word: an ASCII word in capitals between runs of space parses as the word
    itself. *)
Theorem ParseLevel_case_and_space (pre s post : string) :
  allBytes asciiSpace pre = true ->
  allBytes asciiSpace post = true ->
  allBytes isASCII s = true ->
  ParseLevel (pre +:+ mapBytes upperByte s +:+ post) = ParseLevel s.
Proof.
  intros Hpre Hpost Hs.
  assert (Hup : allBytes isASCII (mapBytes upperByte s) = true).
  { rewrite allBytes_map; [exact Hs|]. intros c. apply upperByte_class. }
  unfold ParseLevel. rewrite (TrimSpace_pad _ _ _ Hpre Hpost Hup).
  destruct (TrimSpace_ascii _ Hs) as [r [t [Hl [Hr [Ht Hta]]]]].
  assert (Htu : strings_TrimSpace (mapBytes upperByte s) = mapBytes upperByte t).
  { unfold strings_TrimSpace. rewrite trimLeft_upper, Hl, trimRight_upper, Hr.
    reflexivity. }
  rewrite Htu, Ht.
  assert (Hlow : strings_ToLower (mapBytes upperByte t) = strings_ToLower t).
  { rewrite !ToLower_ascii; [|exact Hta|].
    - apply mapBytes_compose. intros c. apply upperByte_class.
    - rewrite allBytes_map; [exact Hta|]. intros c. apply upperByte_class. }
  rewrite Hlow. reflexivity.
Qed.

End levels.


(* ===================================================================== *)
(** ** What [NewHandler] builds *)
(* ===================================================================== *)

Section construct.
Context `{GoLib}.

(** What [NewHandler] builds around the writer it chose. *)
Lemma NewHandler_chosen (o : Options) (hp : Heap) :
  exists w hp',
    NewHandler (Some o) hp =
    Done (mkHandler o w
            (let ho := slog.mkHandlerOptions (Some (Level o)) (AddSource o)
                         (mergeReplaceAttr (Some defaultTimeReplaceAttr)
                                           (ReplaceAttr o)) in
             match Format o with
             | FormatJSON => JSONHandler w ho
             | FormatText => TextHandler w ho
             | FormatLine | FormatUnknown _ => LineHandler w ho [] []
             end)
            (optTraceExtractor o) (TraceIDFieldName o) (SpanIDFieldName o)
            (optRecordHandler o), hp') /\
    match Writer o with
    | Some w0 => w = w0 /\ hp' = hp
    | None =>
        if String.eqb (LogPath o) EmptyString then w = W_File Stdout /\ hp' = hp
        else
          w = W_FileWriter (freshAddr hp) /\
          exists fw s',
            NewFileWriterWithFlushInterval (LogPath o) (MaxFiles o)
              (FlushInterval o) (fs hp) = Done (fw, s') /\
            hp' = mkHeap s' (<[freshAddr hp := fw]> (writers hp)) (stores hp)
    end.
Proof.
  unfold NewHandler.
  destruct (Writer o) as [w0|] eqn:Hw.
  - exists w0, hp. split; [|auto].
    destruct (Format o); reflexivity.
  - destruct (String.eqb (LogPath o) EmptyString) eqn:Hp; cbn [negb].
    + exists (W_File Stdout), hp. split; [|auto].
      destruct (Format o); reflexivity.
    + destruct (NewFileWriter_returns (LogPath o) (MaxFiles o) (FlushInterval o)
                  (fs hp)) as [fw [s' Hn]].
      rewrite Hn. do 2 eexists. split; [|eauto].
      destruct (Format o); reflexivity.
Qed.

(** X21.  [NewHandler] always returns a handler: it is enabled exactly for the
    levels from [Options.Level] up, and it writes to [Options.Writer] when
    that is set, else to a new file writer when [LogPath] is not empty (every
    writer that existed is left as it was), else to standard output. *)
Theorem NewHandler_threshold_and_writer (o : Options) (hp : Heap) :
  exists h hp',
    NewHandler (Some o) hp = Done (h, hp') /\
    (forall level, Enabled h level = true <-> (Level o <= level)%Z) /\
    match Writer o with
    | Some w => writer h = w /\ hp' = hp
    | None =>
        if String.eqb (LogPath o) EmptyString
        then writer h = W_File Stdout /\ hp' = hp
        else writer h = W_FileWriter (freshAddr hp) /\
             writers hp !! freshAddr hp = None /\
             is_Some (writers hp' !! freshAddr hp) /\
             (forall a, a <> freshAddr hp ->
                        writers hp' !! a = writers hp !! a) /\
             stores hp' = stores hp
    end.
Proof.
  destruct (NewHandler_chosen o hp) as [w [hp' [Hn Hw]]].
  do 2 eexists. split; [exact Hn|]. split.
  - intros level. unfold Enabled. cbn [handler].
    destruct (Format o); cbn; apply Z.leb_le.
  - cbn [writer]. destruct (Writer o) as [w0|]; [exact Hw|].
    destruct (String.eqb (LogPath o) EmptyString); [exact Hw|].
    destruct Hw as [-> [fw [s' [_ ->]]]]. cbn [writers stores].
    split; [reflexivity|]. split.
    { assert (Hfresh : freshAddr hp ∉ dom (writers hp))
        by (unfold freshAddr; apply is_fresh).
      apply not_elem_of_dom in Hfresh. exact Hfresh. }
    split; [rewrite lookup_insert_eq; eauto|].
    split; [|reflexivity].
    intros a Ha. apply lookup_insert_ne. congruence.
Qed.

(** X22.  The [ReplaceAttr] of the inner handler formats a top-level [time]
    attribute before the user's function sees it, passes every other attribute
    to the user's function unchanged, and panics on a top-level attribute with
    key [time] whose value is no time. *)
Theorem NewHandler_formats_time_first (o : Options) (hp hp' : Heap)
    (h : Handler) :
  NewHandler (Some o) hp = Done (h, hp') ->
  let user := match ReplaceAttr o with
              | Some replace => replace
              | None => fun _ a => Done a
              end in
  exists replace,
    slog.hoReplaceAttr (handlerOptions (handler h)) = Some replace /\
    (forall t,
       replace [] (slog.mkAttr slog.TimeKey (slog.TimeValue t)) =
       user [] (slog.mkAttr slog.TimeKey
                  (slog.StringValue (time_Format t "2006-01-02 15:04:05")))) /\
    (forall v,
       (forall t, v <> slog.TimeValue t) ->
       replace [] (slog.mkAttr slog.TimeKey v) = Panic) /\
    (forall groups a,
       groups <> [] \/ slog.Key a <> slog.TimeKey ->
       replace groups a = user groups a).
Proof.
  intros Hn user.
  destruct (NewHandler_chosen o hp) as [w [hp1 [Hn1 _]]].
  rewrite Hn1 in Hn. injection Hn as <- <-. cbn [handler].
  assert (Hother : forall groups (a : slog.Attr),
            groups <> [] \/ slog.Key a <> slog.TimeKey ->
            defaultTimeReplaceAttr groups a = Done a).
  { intros groups a Hga. unfold defaultTimeReplaceAttr.
    destruct groups as [|g groups]; cbn [length Nat.eqb andb]; [|reflexivity].
    destruct Hga as [Hg|Hk]; [contradiction|].
    apply String.eqb_neq in Hk. rewrite Hk. reflexivity. }
  exists (match ReplaceAttr o with
          | Some u => fun groups a =>
              match defaultTimeReplaceAttr groups a with
              | Done a' => u groups a'
              | Panic => Panic
              end
          | None => defaultTimeReplaceAttr
          end).
  split; [destruct (Format o), (ReplaceAttr o); reflexivity|].
  subst user. split; [|split].
  - intros t. destruct (ReplaceAttr o); reflexivity.
  - intros v Hv.
    assert (Hp : defaultTimeReplaceAttr [] (slog.mkAttr slog.TimeKey v) = Panic).
    { unfold defaultTimeReplaceAttr. cbn.
      destruct v as [s0|t|x]; try reflexivity. destruct (Hv t eq_refl). }
    destruct (ReplaceAttr o); rewrite Hp; reflexivity.
  - intros groups a Hga. destruct (ReplaceAttr o);
      rewrite (Hother _ _ Hga); reflexivity.
Qed.

End construct.


(* ===================================================================== *)
(** ** The fields of a line *)
(* ===================================================================== *)

Section logging.
Context `{GoLib} `{GoText}.

Lemma andThen_Panic {A B} (x : outcome A) : andThen x (fun _ => @Panic B) = Panic.
Proof. destruct x; reflexivity. Qed.

(** *** The fields *)

Lemma addAttrs_plain o prefix groups attrs : forall fields,
  slog.hoReplaceAttr o = None ->
  addAttrs o prefix groups attrs fields = Done (foldl (put prefix) fields attrs).
Proof.
  induction attrs as [|a attrs IH]; intros fields Ho; [reflexivity|].
  cbn [addAttrs foldl]. unfold addAttr at 1, replaced. rewrite Ho.
  cbn [andThen]. unfold put at 2.
  destruct (String.eqb (slog.Key a) EmptyString); cbn [andThen]; apply IH, Ho.
Qed.

Lemma fields_plain o attrs groups r :
  slog.hoReplaceAttr o = None ->
  LineHandler_fields o attrs groups r =
  Done (foldl (put (strings_Join groups ".")) ∅ (attrs ++ rAttrs r)).
Proof.
  intros Ho. unfold LineHandler_fields.
  rewrite addAttrs_plain by exact Ho. cbn [andThen].
  rewrite addAttrs_plain by exact Ho. rewrite foldl_app. reflexivity.
Qed.

Lemma qualify_inj prefix k k' : qualify prefix k = qualify prefix k' -> k = k'.
Proof.
  unfold qualify. destruct (negb (String.eqb prefix EmptyString)); [|auto].
  intros Heq. apply String.app_inj in Heq. apply String.app_inj in Heq.
  exact Heq.
Qed.

Lemma foldl_put_other prefix l : forall m k,
  (forall b, In b l -> slog.Key b <> k) ->
  foldl (put prefix) m l !! qualify prefix k = m !! qualify prefix k.
Proof.
  induction l as [|b l IH]; intros m k Hl; [reflexivity|].
  cbn [foldl]. rewrite IH by (intros b' Hb'; apply Hl; right; exact Hb').
  unfold put. destruct (String.eqb (slog.Key b) EmptyString); [reflexivity|].
  apply lookup_insert_ne. intros Heq. apply qualify_inj in Heq.
  apply (Hl b); [left; reflexivity|exact Heq].
Qed.

Lemma foldl_put_last prefix before a after m :
  slog.Key a <> EmptyString ->
  (forall b, In b after -> slog.Key b <> slog.Key a) ->
  foldl (put prefix) m (before ++ a :: after) !! qualify prefix (slog.Key a)
  = Some (slog.Val a).
Proof.
  intros Hk Hafter. rewrite foldl_app. cbn [foldl].
  rewrite (foldl_put_other _ _ _ _ Hafter). unfold put.
  apply String.eqb_neq in Hk. rewrite Hk. apply lookup_insert_eq.
Qed.

Lemma foldl_put_requalify p p' l : forall m m',
  (forall k, m' !! qualify p' k = m !! qualify p k) ->
  forall k, foldl (put p') m' l !! qualify p' k = foldl (put p) m l !! qualify p k.
Proof.
  induction l as [|a l IH]; intros m m' Hm; [exact Hm|].
  cbn [foldl]. apply IH. intros k. unfold put.
  destruct (String.eqb (slog.Key a) EmptyString); [apply Hm|].
  destruct (decide (k = slog.Key a)) as [->|Hne].
  - rewrite !lookup_insert_eq. reflexivity.
  - rewrite !lookup_insert_ne; [apply Hm| |];
      intros Heq; apply qualify_inj in Heq; congruence.
Qed.

(** X23.  Without [ReplaceAttr], an attribute of the record with a non-empty
    key is a field of the line under its key behind the group prefix, with the
    value of the last attribute of that key: a later attribute replaces an
    earlier one, and the record's replace the handler's. *)
Theorem LineHandler_fields_last_wins (o : slog.HandlerOptions)
    (attrs : list slog.Attr) (groups : list string) (r : slog_Record)
    (before after : list slog.Attr) (a : slog.Attr) :
  slog.hoReplaceAttr o = None ->
  rAttrs r = before ++ a :: after ->
  slog.Key a <> EmptyString ->
  (forall b, In b after -> slog.Key b <> slog.Key a) ->
  exists fields,
    LineHandler_fields o attrs groups r = Done fields /\
    fields !! qualify (strings_Join groups ".") (slog.Key a) = Some (slog.Val a).
Proof.
  intros Ho Hr Hk Hafter. eexists. split; [apply fields_plain, Ho|].
  rewrite Hr, app_assoc. apply foldl_put_last; assumption.
Qed.

(** X24.  [WithGroup] after [WithAttrs] moves every field, also those of the
    attributes added before, under the longer prefix: what was the field [key]
    behind the old groups is the field [key] behind the old groups and the new
    name. *)
Theorem WithGroup_requalifies (w : io_Writer) (o : slog.HandlerOptions)
    (attrs more : list slog.Attr) (groups : list string) (name : string)
    (r : slog_Record) :
  slog.hoReplaceAttr o = None ->
  exists fields fields',
    fieldsOf (LineHandler_WithAttrs w o attrs groups more) r = Done fields /\
    fieldsOf (LineHandler_WithGroup w o (attrs ++ more) groups name) r
      = Done fields' /\
    forall key,
      fields' !! qualify (strings_Join (groups ++ [name]) ".") key =
      fields !! qualify (strings_Join groups ".") key.
Proof.
  intros Ho. do 2 eexists. cbn [fieldsOf LineHandler_WithAttrs LineHandler_WithGroup].
  split; [apply fields_plain, Ho|]. split; [apply fields_plain, Ho|].
  apply foldl_put_requalify. intros k. rewrite !lookup_empty. reflexivity.
Qed.

(** *** The line *)

Lemma line_plain o attrs groups r fields :
  slog.hoReplaceAttr o = None ->
  LineHandler_fields o attrs groups r = Done fields ->
  LineHandler_line o attrs groups r =
  Done ("[" +:+ time_Format (rTime r) "2006-01-02 15:04:05" +:+ "] " +:+
        slog_Level_String (rLevel r) +:+ ": " +:+ rMessage r +:+
        (if bool_decide (fields = ∅) then EmptyString
         else match json_Marshal fields with
              | Some b => " " +:+ b
              | None => EmptyString
              end) +:+ newline).
Proof.
  intros Ho Hf. unfold LineHandler_line, replaced. rewrite Ho, Hf. reflexivity.
Qed.

End logging.


(* ===================================================================== *)
(** ** [Handle] *)
(* ===================================================================== *)

Section logging2.
Context `{GoLib} `{GoText}.

Lemma NewHandler_line (o : Options) (hp hp' : Heap) (h : Handler) :
  NewHandler (Some o) hp = Done (h, hp') ->
  (Format o = FormatLine \/ exists n, Format o = FormatUnknown n) ->
  handler h = LineHandler (writer h) (builtOptions o) [] [] /\
  traceExtractor h = optTraceExtractor o /\
  traceIDFieldName h = TraceIDFieldName o /\
  spanIDFieldName h = SpanIDFieldName o /\
  recordHandle h = optRecordHandler o.
Proof.
  intros Hn Hf. destruct (NewHandler_chosen o hp) as [w [hp1 [Hn1 _]]].
  rewrite Hn1 in Hn. injection Hn as <- <-. cbn.
  destruct Hf as [->|[n ->]]; auto.
Qed.

Lemma default_other groups (a : slog.Attr) :
  groups <> [] \/ slog.Key a <> slog.TimeKey ->
  defaultTimeReplaceAttr groups a = Done a.
Proof.
  intros Hga. unfold defaultTimeReplaceAttr.
  destruct groups as [|g groups]; cbn [length Nat.eqb andb]; [|reflexivity].
  destruct Hga as [Hg|Hk]; [contradiction|].
  apply String.eqb_neq in Hk. rewrite Hk. reflexivity.
Qed.

Lemma default_stray v :
  (forall t, v <> slog.TimeValue t) ->
  defaultTimeReplaceAttr [] (slog.mkAttr slog.TimeKey v) = Panic.
Proof.
  intros Hv. unfold defaultTimeReplaceAttr. cbn.
  destruct v as [s0|t|x]; try reflexivity. destruct (Hv t eq_refl).
Qed.

Lemma replaced_built_stray o v :
  (forall t, v <> slog.TimeValue t) ->
  replaced (builtOptions o) [] (slog.mkAttr slog.TimeKey v) = Panic.
Proof.
  intros Hv. unfold replaced, builtOptions. cbn [slog.hoReplaceAttr].
  unfold mergeReplaceAttr.
  destruct (ReplaceAttr o); rewrite (default_stray _ Hv); reflexivity.
Qed.

Lemma replaced_default_other o groups a :
  ReplaceAttr o = None ->
  groups <> [] \/ slog.Key a <> slog.TimeKey ->
  replaced (builtOptions o) groups a = Done a.
Proof.
  intros Ho Hga. unfold replaced, builtOptions. cbn [slog.hoReplaceAttr].
  unfold mergeReplaceAttr. rewrite Ho. apply default_other, Hga.
Qed.

Lemma replaced_default_time o t :
  ReplaceAttr o = None ->
  replaced (builtOptions o) [] (slog.mkAttr slog.TimeKey (slog.TimeValue t)) =
  Done (slog.mkAttr slog.TimeKey
          (slog.StringValue (time_Format t "2006-01-02 15:04:05"))).
Proof.
  intros Ho. unfold replaced, builtOptions. cbn [slog.hoReplaceAttr].
  unfold mergeReplaceAttr. rewrite Ho. reflexivity.
Qed.

Lemma addAttrs_panics o prefix groups a attrs : forall fields,
  In a attrs -> replaced o groups a = Panic ->
  addAttrs o prefix groups attrs fields = Panic.
Proof.
  induction attrs as [|b attrs IH]; intros fields Hin Hp; [destruct Hin|].
  cbn [addAttrs]. destruct Hin as [->|Hin].
  - unfold addAttr. rewrite Hp. reflexivity.
  - destruct (addAttr o prefix groups b fields); [|reflexivity].
    cbn [andThen]. apply IH; assumption.
Qed.

Lemma addAttrs_same o prefix groups attrs : forall fields,
  (forall a, In a attrs -> replaced o groups a = Done a) ->
  addAttrs o prefix groups attrs fields = Done (foldl (put prefix) fields attrs).
Proof.
  induction attrs as [|a attrs IH]; intros fields Ha; [reflexivity|].
  cbn [addAttrs foldl]. unfold addAttr at 1.
  rewrite (Ha a (or_introl eq_refl)). cbn [andThen]. unfold put at 2.
  destruct (String.eqb (slog.Key a) EmptyString); cbn [andThen];
    apply IH; intros b Hb; apply Ha; right; exact Hb.
Qed.

Lemma In_withTrace h ctx r a : In a (rAttrs r) -> In a (rAttrs (withTrace h ctx r)).
Proof.
  intros Hin. unfold withTrace.
  destruct (traceExtractor h) as [ex|]; [|exact Hin].
  destruct (ex ctx) as [ti|]; [|exact Hin].
  destruct (negb (String.eqb (TraceID ti) EmptyString));
    destruct (negb (String.eqb (SpanID ti) EmptyString));
    cbn [AddAttrs rAttrs]; rewrite ?in_app_iff; auto.
Qed.

(** X27.  A line handler built by [NewHandler] panics on a record that has an
    attribute with key [time] whose value is no time: the default
    [ReplaceAttr] reads the value as a time. *)
Theorem Handle_time_attribute_panics (o : Options) (hp hp' hp1 : Heap)
    (h : Handler) (ctx : context.Context) (r : slog_Record) (v : slog.Value) :
  NewHandler (Some o) hp = Done (h, hp') ->
  (Format o = FormatLine \/ exists n, Format o = FormatUnknown n) ->
  optRecordHandler o = None ->
  In (slog.mkAttr slog.TimeKey v) (rAttrs r) ->
  (forall t, v <> slog.TimeValue t) ->
  Handler_Handle h ctx r hp1 = Panic.
Proof.
  intros Hn Hf Hrh Hin Hv.
  destruct (NewHandler_line _ _ _ _ Hn Hf) as [Hh [_ [_ [_ Hr]]]].
  unfold Handler_Handle. rewrite Hr, Hrh, Hh. cbn [inner_Handle].
  unfold LineHandler_Handle, LineHandler_line, LineHandler_fields.
  cbn [addAttrs andThen].
  rewrite (addAttrs_panics _ _ _ _ _ _ (In_withTrace h ctx r _ Hin)
             (replaced_built_stray o v Hv)).
  cbn [andThen].
  match goal with
  | |- andThen (andThen ?x _) _ = _ => destruct x; [|reflexivity]
  end.
  cbn [andThen].
  match goal with
  | |- andThen (andThen ?x _) _ = _ => destruct x; reflexivity
  end.
Qed.

Lemma Handle_plain_line (o : Options) (h : Handler) (w : io_Writer)
    (ctx : context.Context) (r : slog_Record) (hp1 : Heap) :
  handler h = LineHandler w (builtOptions o) [] [] ->
  traceExtractor h = None -> recordHandle h = None ->
  ReplaceAttr o = None -> rAttrs r = [] ->
  Handler_Handle h ctx r hp1 =
  andThen (io_Write w
             ("[" +:+ time_Format (rTime r) "2006-01-02 15:04:05" +:+ "] " +:+
              slog_Level_String (rLevel r) +:+ ": " +:+ rMessage r +:+ newline)
             hp1)
          (fun '((_, err), hp2) => Done (err, hp2)).
Proof.
  intros Hh Ht Hrh Ho Hr.
  unfold Handler_Handle, withTrace. rewrite Ht, Hrh, Hh. cbn [inner_Handle].
  unfold LineHandler_Handle, LineHandler_line, LineHandler_fields.
  rewrite Hr, (replaced_default_time _ _ Ho). cbn [andThen addAttrs].
  rewrite (replaced_default_other o) by (exact Ho || (right; discriminate)).
  cbn [andThen slog.Val isKindString Value_String].
  rewrite bool_decide_eq_true_2 by reflexivity. reflexivity.
Qed.

(** X25.  A handler built with nil options writes a record without attributes
    to standard output as one line: the time in brackets, the name of the
    level, a colon, the message and a line feed; it returns the error of that
    write. *)
Theorem Handle_default_line (hp hp1 : Heap) (ctx : context.Context)
    (r : slog_Record) :
  rAttrs r = [] ->
  exists h,
    NewHandler None hp = Done (h, hp) /\
    Handler_Handle h ctx r hp1 =
    andThen (io_Write (W_File Stdout)
               ("[" +:+ time_Format (rTime r) "2006-01-02 15:04:05" +:+ "] " +:+
                slog_Level_String (rLevel r) +:+ ": " +:+ rMessage r +:+ newline)
               hp1)
            (fun '((_, err), hp2) => Done (err, hp2)).
Proof.
  intros Hr. eexists. split; [reflexivity|].
  apply (Handle_plain_line defaultOptions); try reflexivity. exact Hr.
Qed.


Lemma DefaultTraceExtractor_trace_id ctx tid :
  ctx (Str "trace_id") = Str tid -> tid <> EmptyString ->
  DefaultTraceExtractor ctx = Some (mkTraceInfo tid (firstString ctx spanKeys)).
Proof.
  intros Hc Hne. unfold DefaultTraceExtractor.
  assert (Ht : firstString ctx traceKeys = tid).
  { unfold traceKeys. cbn [firstString]. rewrite Hc.
    apply String.eqb_neq in Hne. rewrite Hne. reflexivity. }
  rewrite Ht. apply String.eqb_neq in Hne. rewrite Hne. reflexivity.
Qed.

(** X26.  With the default trace extractor and no field names set, a record
    handled under a context that carries a non-empty string under [trace_id]
    has the field [trace_id] with that string in the JSON part of its line. *)
Theorem Handle_logs_trace_id (w : option io_Writer) (logPath : string)
    (maxFiles flushInterval : Z) (level : slog.Level) (addSource : bool)
    (hp hp' hp1 : Heap) (h : Handler) (ctx : context.Context)
    (r : slog_Record) (tid : string) :
  NewHandler
    (Some (mkOptions w logPath maxFiles flushInterval level FormatLine addSource
             None (Some DefaultTraceExtractor) EmptyString EmptyString None))
    hp = Done (h, hp') ->
  ctx (Str "trace_id") = Str tid ->
  tid <> EmptyString ->
  (forall a, In a (rAttrs r) -> slog.Key a <> slog.TimeKey) ->
  exists fields,
    fields !! defaultTraceIDFieldName = Some (slog.StringValue tid) /\
    Handler_Handle h ctx r hp1 =
    andThen (io_Write (writer h)
               ("[" +:+ time_Format (rTime r) "2006-01-02 15:04:05" +:+ "] " +:+
                slog_Level_String (rLevel r) +:+ ": " +:+ rMessage r +:+
                match json_Marshal fields with
                | Some b => " " +:+ b
                | None => EmptyString
                end +:+ newline)
               hp1)
            (fun '((_, err), hp2) => Done (err, hp2)).
Proof.
  intros Hn Hctx Htid Hkeys.
  set (o := mkOptions w logPath maxFiles flushInterval level FormatLine addSource
              None (Some DefaultTraceExtractor) EmptyString EmptyString None) in *.
  destruct (NewHandler_line o _ _ _ Hn (or_introl eq_refl))
    as [Hh [Hex [Htn [Hsn Hrh]]]].
  cbn in Hex, Htn, Hsn, Hrh.
  set (span := firstString ctx spanKeys).
  set (trace := slog.mkAttr defaultTraceIDFieldName (slog.StringValue tid)).
  (* the record the inner handler sees *)
  assert (Hattrs : exists after,
            rAttrs (withTrace h ctx r) = rAttrs r ++ trace :: after /\
            (forall b, In b after -> slog.Key b = defaultSpanIDFieldName) /\
            rTime (withTrace h ctx r) = rTime r /\
            rLevel (withTrace h ctx r) = rLevel r /\
            rMessage (withTrace h ctx r) = rMessage r).
  { unfold withTrace. rewrite Hex, (DefaultTraceExtractor_trace_id _ _ Hctx Htid).
    rewrite Htn, Hsn. cbn [TraceID SpanID String.eqb].
    apply String.eqb_neq in Htid. rewrite Htid. cbn [negb]. fold span.
    destruct (String.eqb span EmptyString); cbn [negb AddAttrs rAttrs rTime
                                                   rLevel rMessage].
    - exists []. split; [reflexivity|]. split; [intros b []|auto].
    - eexists [_]. rewrite <- app_assoc. split; [reflexivity|].
      split; [|auto]. intros b [<-|[]]. reflexivity. }
  destruct Hattrs as [after [Ha [Hafter [Hti [Hle Hme]]]]].
  set (fields := foldl (put EmptyString) ∅ (rAttrs (withTrace h ctx r))).
  assert (Hlook : fields !! defaultTraceIDFieldName = Some (slog.StringValue tid)).
  { unfold fields. rewrite Ha.
    apply (foldl_put_last EmptyString (rAttrs r) trace after ∅); [discriminate|].
    intros b Hb. rewrite (Hafter b Hb). discriminate. }
  exists fields. split; [exact Hlook|].
  assert (Hsame : forall a, In a (rAttrs (withTrace h ctx r)) ->
            replaced (builtOptions o) [] a = Done a).
  { intros a Hin. apply replaced_default_other; [reflexivity|]. right.
    rewrite Ha in Hin. apply in_app_iff in Hin as [Hin|[<-|Hin]].
    - apply Hkeys, Hin.
    - discriminate.
    - rewrite (Hafter a Hin). discriminate. }
  unfold Handler_Handle. rewrite Hrh, Hh. cbn [inner_Handle].
  unfold LineHandler_Handle, LineHandler_line, LineHandler_fields.
  rewrite Hti, Hle, Hme.
  rewrite (replaced_default_time o) by reflexivity. cbn [andThen addAttrs].
  rewrite (replaced_default_other o) by (reflexivity || (right; discriminate)).
  cbn [andThen slog.Val isKindString Value_String strings_Join].
  rewrite (addAttrs_same _ _ _ _ _ Hsame). cbn [andThen]. fold fields.
  rewrite bool_decide_eq_false_2; [reflexivity|].
  intros Hempty. rewrite Hempty, lookup_empty in Hlook. discriminate.
Qed.

End logging2.


(* ===================================================================== *)
(** ** Logging to a file *)
(* ===================================================================== *)

Section to_file.
Context `{GoLib} `{GoText}.

#[local] Arguments os.Write : simpl never.
#[local] Arguments os.OpenFile : simpl never.
#[local] Arguments Z.eqb : simpl never.
#[local] Arguments Z.ltb : simpl never.
#[local] Arguments wrap64 : simpl never.
#[local] Arguments String.eqb : simpl never.

Lemma NewHandler_file logPath maxFiles flushInterval level hp h hp' :
  logPath <> EmptyString ->
  NewHandler (Some (fileOptions logPath maxFiles flushInterval level)) hp
    = Done (h, hp') ->
  exists fw s',
    NewFileWriterWithFlushInterval logPath maxFiles flushInterval (fs hp)
      = Done (fw, s') /\
    hp' = mkHeap s' (<[freshAddr hp := fw]> (writers hp)) (stores hp) /\
    writer h = W_FileWriter (freshAddr hp) /\
    handler h = LineHandler (W_FileWriter (freshAddr hp))
                  (builtOptions (fileOptions logPath maxFiles flushInterval level))
                  [] [] /\
    traceExtractor h = None /\ recordHandle h = None.
Proof.
  intros Hp Hn.
  destruct (NewHandler_chosen (fileOptions logPath maxFiles flushInterval level) hp)
    as [w [hp1 [Hn1 Hw]]].
  rewrite Hn1 in Hn. injection Hn as <- <-. cbn [Writer LogPath fileOptions] in Hw.
  apply String.eqb_neq in Hp. rewrite Hp in Hw.
  destruct Hw as [-> [fw [s' [Hfw ->]]]].
  exists fw, s'. cbn. auto 10.
Qed.

Lemma Write_unbuffered s f fd p :
  file f = Some fd -> flushInterval f = 0%Z ->
  Write p (s, f) = let '(r, s2) := os.Write (Some fd) p s in Done (r, (s2, f)).
Proof.
  intros Hf Hz.
  assert (Hzb : (flushInterval f =? 0)%Z = true) by (rewrite Hz; reflexivity).
  unfold Write. do 2 (go; rewrite ?Hf, ?Hzb).
  destruct (os.Write (Some fd) p s) as [r s2]. reflexivity.
Qed.

(** X28.  When the log file cannot be opened, [NewHandler] (for a log path
    and otherwise plain options of the line format) still returns a
    handler, and [Handle] on a record without attributes tries the open
    again and returns its error, the record lost. *)
Theorem Handle_reports_open_error (logPath : string)
    (maxFiles flushInterval : Z) (level : slog.Level) (hp hp' : Heap)
    (h : Handler) (ctx : context.Context) (r : slog_Record) (e : error)
    (s1 : os.FS) :
  sorts After ->
  logPath <> EmptyString ->
  let new := filepath_Join (filepath_Dir logPath)
               (time_Format (os.clock (fs hp)) (filepath_Base logPath)) in
  new <> EmptyString ->
  os.OpenFile new (fs hp) = (inl e, s1) ->
  rAttrs r = [] ->
  NewHandler (Some (fileOptions logPath maxFiles flushInterval level)) hp
    = Done (h, hp') ->
  fs hp' = fs hp /\
  Handler_Handle h ctx r hp' = Done (Some e, hp').
Proof.
  intros Hsort Hp new Hnew Ho Hr Hn.
  destruct (NewHandler_file _ _ _ _ _ _ _ Hp Hn)
    as [fw [s' [Hfw [-> [Hw [Hh [Ht Hrh]]]]]]].
  destruct (constructor_result logPath maxFiles flushInterval (fs hp) Hsort Hnew)
    as [fw' [s'' [Hfw' Hres]]].
  rewrite Hfw in Hfw'. injection Hfw' as <- <-. fold new in Hres.
  rewrite Ho in Hres. destruct Hres as [-> ->]. split; [reflexivity|].
  rewrite (Handle_plain_line _ _ _ _ _ _ Hh Ht Hrh eq_refl Hr).
  cbn [io_Write writers fs stores]. rewrite lookup_insert_eq.
  rewrite Write_reopen by reflexivity. cbn [current]. rewrite Ho.
  cbn [andThen set_buf]. rewrite (OpenFile_err _ _ _ _ Ho).
  rewrite insert_insert_eq. reflexivity.
Qed.

(** X29.  A handler on a log path, without buffering and on a device without a
    limit, appends the line of a record to the log file and returns no error. *)
Theorem Handle_appends_line_to_file (logPath : string) (maxFiles : Z)
    (level : slog.Level) (hp hp' : Heap) (h : Handler) (ctx : context.Context)
    (r : slog_Record) (fd : os.File) (s1 : os.FS) :
  sorts After ->
  logPath <> EmptyString ->
  let new := filepath_Join (filepath_Dir logPath)
               (time_Format (os.clock (fs hp)) (filepath_Base logPath)) in
  new <> EmptyString ->
  os.OpenFile new (fs hp) = (inr fd, s1) ->
  os.free (fs hp) = None ->
  rAttrs r = [] ->
  NewHandler (Some (fileOptions logPath maxFiles 0 level)) hp = Done (h, hp') ->
  exists hp2,
    Handler_Handle h ctx r hp' = Done (None, hp2) /\
    os.contents (fs hp2) new =
    Some (default EmptyString (os.contents (fs hp) new) +:+
          "[" +:+ time_Format (rTime r) "2006-01-02 15:04:05" +:+ "] " +:+
          slog_Level_String (rLevel r) +:+ ": " +:+ rMessage r +:+ newline).
Proof.
  intros Hsort Hp new Hnew Ho Hfree Hr Hn.
  destruct (NewHandler_file _ _ _ _ _ _ _ Hp Hn)
    as [fw [s' [Hfw [-> [Hw [Hh [Ht Hrh]]]]]]].
  destruct (constructor_result logPath maxFiles 0 (fs hp) Hsort Hnew)
    as [fw' [s'' [Hfw' Hres]]].
  rewrite Hfw in Hfw'. injection Hfw' as <- <-. fold new in Hres.
  rewrite Ho in Hres. destruct Hres as [Hfwd [Hh' [Hf' Hnd']]].
  pose proof (OpenFile_ok _ _ _ _ Ho) as [Hfd [nd [Hnd [Hdata Hfree1]]]].
  assert (Hz : flushInterval fw = 0%Z) by (rewrite Hfwd; reflexivity).
  assert (Hfile : file fw = Some fd) by (rewrite Hfwd; reflexivity).
  set (line := "[" +:+ time_Format (rTime r) "2006-01-02 15:04:05" +:+ "] " +:+
               slog_Level_String (rLevel r) +:+ ": " +:+ rMessage r +:+ newline).
  destruct (os_Write_ok fd new nd line s') as [s2 [Hwr Hc]].
  { rewrite Hh'. exact Hfd. }
  { rewrite Hnd'. exact Hnd. }
  { rewrite Hf', Hfree1, Hfree. reflexivity. }
  rewrite (Handle_plain_line _ _ _ _ _ _ Hh Ht Hrh eq_refl Hr). fold line.
  cbn [io_Write writers fs stores]. rewrite lookup_insert_eq.
  rewrite (Write_unbuffered _ _ _ _ Hfile Hz), Hwr. cbn [andThen].
  eexists. split; [reflexivity|]. cbn [fs]. rewrite Hc, Hdata. reflexivity.
Qed.

End to_file.


(* ===================================================================== *)
(** ** Instances *)
(* ===================================================================== *)

(** The example states are what the code computes. *)
Example buffered_opens :
  demo.buffered demo.emptyLogs [] = Done demo.bufferedOpen.
Proof. vm_compute. reflexivity. Qed.

Example full_device_sticks :
  demo.buffered demo.fullLogs [EvWrite "x"; EvFlushTick] = Done demo.stuck.
Proof. vm_compute. reflexivity. Qed.

Example negative_seconds :
  NewFileWriterWithFlushInterval (H := demo.lib) "logs/app.log" 0 (-1) demo.emptyLogs
  = Done (demo.negative.2, demo.negative.1).
Proof. vm_compute. reflexivity. Qed.

Lemma bufferedOpen_attached :
  attached demo.bufferedOpen.1 demo.bufferedOpen.2 3%nat.
Proof.
  split; [reflexivity|]. split; [vm_compute; reflexivity|]. split.
  - exists (demo.regular 0 EmptyString). split; [vm_compute; reflexivity|reflexivity].
  - intros b Hb. injection Hb as <-. repeat split. vm_compute. discriminate.
Qed.

(** X7, an instance: a buffered writer, two writes with a flush tick between
    them. *)
Lemma writes_reach_file_witness :
  exists s1 f1 s2 f2,
    runEvents (H := demo.lib)
      [EvWrite "a"; EvFlushTick; EvWrite "b"; EvRotateTick]
      (demo.bufferedOpen.1, demo.bufferedOpen.2) = Done (s1, f1) /\
    Close (s1, f1) = Done (None, (s2, f2)) /\
    os.contents s2 "logs/app.log" = Some "ab" /\
    os.handles s2 !! 3%nat = None /\ file f2 = None /\ buf f2 = None.
Proof.
  exact (writes_reach_file (H := demo.lib) demo.bufferedOpen.1
           demo.bufferedOpen.2 3%nat
           [EvWrite "a"; EvFlushTick; EvWrite "b"; EvRotateTick]
           bufferedOpen_attached eq_refl eq_refl eq_refl).
Defined.

Lemma rotating_attached :
  attached (os.setClock 5 demo.prunable) (demo.rotating 2) 3%nat.
Proof.
  split; [reflexivity|]. split; [vm_compute; reflexivity|]. split.
  - exists (demo.regular 4 EmptyString). split; [vm_compute; reflexivity|reflexivity].
  - intros b Hb. discriminate.
Qed.

(** X8, an instance: a writer on [app-00-00-04.log] when the clock shows
    second 5. *)
Lemma checkAndRotate_switches_witness :
  exists s' f',
    checkAndRotate (H := demo.lib) (os.setClock 5 demo.prunable, demo.rotating 2)
      = Done (tt, (s', f')) /\
    current f' = "logs/app-00-00-05.log" /\
    os.handles s' !! 3%nat = None /\
    (os.contents s' "logs/app-00-00-04.log" = Some EmptyString \/
     (0 < 2)%Z /\ os.contents s' "logs/app-00-00-04.log" = None) /\
    match file f' with
    | Some fd' => os.handles s' !! fd' = Some "logs/app-00-00-05.log" /\
                  pendingBytes f' = EmptyString
    | None => buf f' = None
    end.
Proof.
  exact (checkAndRotate_switches (H := demo.lib) (os.setClock 5 demo.prunable)
           (demo.rotating 2) 3%nat rotating_attached eq_refl
           ltac:(vm_compute; lia) ltac:(vm_compute; discriminate)).
Defined.

Lemma stuck_wedged : wedged ErrNoSpace demo.stuck.2.
Proof.
  split; [eexists; reflexivity|]. split; [vm_compute; discriminate|].
  eexists. split; reflexivity.
Qed.

(** X9, an instance: the buffered writer after a flush on a full device. *)
Lemma buffer_error_sticks_witness :
  Write "y" demo.stuck = Done ((0, Some ErrNoSpace), demo.stuck) /\
  flushBuffer demo.stuck = Done (tt, demo.stuck) /\
  checkAndRotate (H := demo.lib) demo.stuck = Done (tt, demo.stuck) /\
  Close demo.stuck =
    Done (Some ErrNoSpace, (demo.stuck.1, set_done true demo.stuck.2)).
Proof.
  exact (buffer_error_sticks (H := demo.lib) ErrNoSpace demo.stuck.1
           demo.stuck.2 "y" stuck_wedged).
Defined.




(** X12, an instance: a log directory that exists. *)
Lemma NewFileWriterWithFlushInterval_opens_witness :
  exists fw s',
    NewFileWriterWithFlushInterval (H := demo.lib) "logs/app.log" 3 0 demo.emptyLogs
      = Done (fw, s') /\
    current fw = "logs/app.log" /\
    file fw = Some 3%nat /\ os.handles s' !! 3%nat = Some "logs/app.log" /\
    is_Some (os.nodes s' !! "logs/app.log").
Proof.
  exact (NewFileWriterWithFlushInterval_opens (H := demo.lib) "logs/app.log" 3 0
           demo.emptyLogs demo_sort_sorts ltac:(vm_compute; discriminate)).
Defined.

(** X20, an instance: [WARNING] between spaces parses as [warning]. *)
Lemma ParseLevel_case_and_space_witness :
  ParseLevel (H := demo.plainText) "  WARNING "
  = ParseLevel (H := demo.plainText) "warning".
Proof.
  exact (ParseLevel_case_and_space (H := demo.plainText) "  " "warning" " "
           eq_refl eq_refl eq_refl).
Defined.

(** X22, an instance: the default options. *)
Lemma NewHandler_formats_time_first_witness :
  exists replace,
    slog.hoReplaceAttr
      (handlerOptions
         (LineHandler (W_File Stdout) (builtOptions (H := demo.lib) defaultOptions)
            [] [])) = Some replace /\
    (forall t,
       replace [] (slog.mkAttr slog.TimeKey (slog.TimeValue t)) =
       Done (slog.mkAttr slog.TimeKey
               (slog.StringValue
                  (time_Format (GoLib := demo.lib) t "2006-01-02 15:04:05")))) /\
    (forall v,
       (forall t, v <> slog.TimeValue t) ->
       replace [] (slog.mkAttr slog.TimeKey v) = Panic) /\
    (forall groups a,
       groups <> [] \/ slog.Key a <> slog.TimeKey ->
       replace groups a = Done a).
Proof.
  exact (NewHandler_formats_time_first (H := demo.lib) defaultOptions demo.heap0
           demo.heap0 _ eq_refl).
Defined.

(** X23, an instance: the key [method] three times, under the group [http]. *)
Lemma LineHandler_fields_last_wins_witness :
  exists fields,
    LineHandler_fields (slog.mkHandlerOptions None false None)
      [slog.mkAttr "method" (slog.StringValue "HEAD")] ["http"]
      (mkRecord 0 "req" slog.LevelInfo
         [slog.mkAttr "method" (slog.StringValue "GET");
          slog.mkAttr "method" (slog.StringValue "POST");
          slog.mkAttr "code" (slog.StringValue "200")]) = Done fields /\
    fields !! "http.method" = Some (slog.StringValue "POST").
Proof.
  exact (LineHandler_fields_last_wins (slog.mkHandlerOptions None false None)
           [slog.mkAttr "method" (slog.StringValue "HEAD")] ["http"]
           (mkRecord 0 "req" slog.LevelInfo
              [slog.mkAttr "method" (slog.StringValue "GET");
               slog.mkAttr "method" (slog.StringValue "POST");
               slog.mkAttr "code" (slog.StringValue "200")])
           [slog.mkAttr "method" (slog.StringValue "GET")]
           [slog.mkAttr "code" (slog.StringValue "200")]
           (slog.mkAttr "method" (slog.StringValue "POST"))
           eq_refl eq_refl ltac:(discriminate)
           ltac:(intros b [<-|[]]; discriminate)).
Defined.

(** X24, an instance: the attribute [app] and the group [http]. *)
Lemma WithGroup_requalifies_witness :
  exists fields fields',
    fieldsOf (LineHandler_WithAttrs (W_File Stdout)
                (slog.mkHandlerOptions None false None) [] []
                [slog.mkAttr "app" (slog.StringValue "demo")])
      (mkRecord 0 "req" slog.LevelInfo
         [slog.mkAttr "method" (slog.StringValue "GET")]) = Done fields /\
    fieldsOf (LineHandler_WithGroup (W_File Stdout)
                (slog.mkHandlerOptions None false None)
                ([] ++ [slog.mkAttr "app" (slog.StringValue "demo")]) [] "http")
      (mkRecord 0 "req" slog.LevelInfo
         [slog.mkAttr "method" (slog.StringValue "GET")]) = Done fields' /\
    forall key, fields' !! ("http." +:+ key) = fields !! key.
Proof.
  exact (WithGroup_requalifies (W_File Stdout)
           (slog.mkHandlerOptions None false None) []
           [slog.mkAttr "app" (slog.StringValue "demo")] [] "http"
           (mkRecord 0 "req" slog.LevelInfo
              [slog.mkAttr "method" (slog.StringValue "GET")])
           eq_refl).
Defined.

(** X27, an instance: the attribute [time] with the string [noon]. *)
Lemma Handle_time_attribute_panics_witness :
  Handler_Handle (H := demo.lib) (H0 := demo.plainText)
    (mkHandler defaultOptions (W_File Stdout)
       (LineHandler (W_File Stdout) (builtOptions (H := demo.lib) defaultOptions)
          [] [])
       None defaultTraceIDFieldName defaultSpanIDFieldName None)
    context.Background demo.noon demo.heap0 = Panic.
Proof.
  exact (Handle_time_attribute_panics (H := demo.lib) (H0 := demo.plainText)
           defaultOptions demo.heap0 demo.heap0 demo.heap0 _ context.Background
           demo.noon (slog.StringValue "noon") eq_refl (or_introl eq_refl)
           eq_refl (or_introl eq_refl) ltac:(discriminate)).
Defined.

(** X25, an instance: the record [hello]. *)
Lemma Handle_default_line_witness :
  exists h,
    NewHandler (H := demo.lib) None demo.heap0 = Done (h, demo.heap0) /\
    Handler_Handle (H := demo.lib) (H0 := demo.plainText) h context.Background
      demo.hello demo.heap0 =
    andThen (io_Write (W_File Stdout)
               ("[2006-01-02 01:01:01] INFO: hello" +:+ newline) demo.heap0)
            (fun '((_, err), hp2) => Done (err, hp2)).
Proof.
  exact (Handle_default_line (H := demo.lib) (H0 := demo.plainText) demo.heap0
           demo.heap0 context.Background demo.hello eq_refl).
Defined.

(** X26, an instance: a context that carries [abc]. *)
Lemma Handle_logs_trace_id_witness :
  exists fields,
    fields !! "trace_id" = Some (slog.StringValue "abc") /\
    Handler_Handle (H := demo.lib) (H0 := demo.plainText)
      (mkHandler demo.tracedOptions (W_User (demo.bytesBuffer 0))
         (LineHandler (W_User (demo.bytesBuffer 0))
            (builtOptions (H := demo.lib) demo.tracedOptions) [] [])
         (Some DefaultTraceExtractor) EmptyString EmptyString None)
      demo.requestCtx demo.hello demo.heap0 =
    andThen (io_Write (W_User (demo.bytesBuffer 0))
               ("[2006-01-02 01:01:01] INFO: hello" +:+
                match json_Marshal (GoText := demo.plainText) fields with
                | Some b => " " +:+ b
                | None => EmptyString
                end +:+ newline)
               demo.heap0)
            (fun '((_, err), hp2) => Done (err, hp2)).
Proof.
  exact (Handle_logs_trace_id (H := demo.lib) (H0 := demo.plainText)
           (Some (W_User (demo.bytesBuffer 0))) EmptyString 0 0 slog.LevelInfo
           false demo.heap0 demo.heap0 demo.heap0 _ demo.requestCtx demo.hello "abc"
           eq_refl eq_refl ltac:(discriminate) ltac:(intros a [])).
Defined.

(** X28, an instance: a directory that does not exist. *)
Lemma Handle_reports_open_error_witness :
  exists h hp',
    NewHandler (H := demo.lib)
      (Some (fileOptions "nonexistent/test.log" 0 0 slog.LevelInfo))
      demo.heap0 = Done (h, hp') /\
    fs hp' = demo.emptyLogs /\
    Handler_Handle (H := demo.lib) (H0 := demo.plainText) h context.Background
      demo.hello hp' = Done (Some ErrNotExist, hp').
Proof.
  destruct (NewHandler (H := demo.lib)
              (Some (fileOptions "nonexistent/test.log" 0 0 slog.LevelInfo))
              demo.heap0) as [[h hp']|] eqn:Hn; [|vm_compute in Hn; discriminate].
  exists h, hp'. split; [reflexivity|].
  exact (Handle_reports_open_error (H := demo.lib) (H0 := demo.plainText)
           "nonexistent/test.log" 0 0 slog.LevelInfo demo.heap0 hp' h
           context.Background demo.hello ErrNotExist demo.emptyLogs
           demo_sort_sorts ltac:(discriminate) ltac:(vm_compute; discriminate)
           ltac:(vm_compute; reflexivity) eq_refl Hn).
Defined.

(** X29, an instance: a first record in an empty log directory. *)
Lemma Handle_appends_line_to_file_witness :
  exists h hp',
    NewHandler (H := demo.lib)
      (Some (fileOptions "logs/app.log" 0 0 slog.LevelInfo)) demo.heap0
      = Done (h, hp') /\
    exists hp2,
      Handler_Handle (H := demo.lib) (H0 := demo.plainText) h context.Background
        demo.hello hp' = Done (None, hp2) /\
      os.contents (fs hp2) "logs/app.log" =
      Some ("[2006-01-02 01:01:01] INFO: hello" +:+ newline).
Proof.
  destruct (NewHandler (H := demo.lib)
              (Some (fileOptions "logs/app.log" 0 0 slog.LevelInfo))
              demo.heap0) as [[h hp']|] eqn:Hn; [|vm_compute in Hn; discriminate].
  exists h, hp'. split; [reflexivity|].
  exact (Handle_appends_line_to_file (H := demo.lib) (H0 := demo.plainText)
           "logs/app.log" 0 slog.LevelInfo demo.heap0 hp' h
           context.Background demo.hello 3%nat
           (os.OpenFile "logs/app.log" demo.emptyLogs).2
           demo_sort_sorts ltac:(discriminate) ltac:(vm_compute; discriminate)
           ltac:(vm_compute; reflexivity) eq_refl eq_refl Hn).
Defined.

(** X10, an instance: a write after [Close], a hundred seconds later. *)
Lemma Close_ends_rotation_witness :
  exists s2 f2,
    runEvents (H := demo.lib) [EvClock 100; EvRotateTick; EvWrite "z"]
      (demo.emptyLogs, demo.closed 0) = Done (s2, f2) /\
    done f2 = true /\ current f2 = "logs/app.log".
Proof.
  exact (Close_ends_rotation (H := demo.lib) demo.opened.1 _ demo.emptyLogs
           demo.opened.2 (demo.closed 0) None
           [EvClock 100; EvRotateTick; EvWrite "z"] eq_refl).
Defined.

(** X15, an instance: the directory left by a pass with room for one old file. *)
Lemma cleanOldFiles_twice_witness :
  let s' := os.setNodes
              (delete "logs/app-00-00-01.log"
                 (delete "logs/app-00-00-02.log" (os.nodes demo.prunable)))
              demo.prunable in
  cleanOldFiles (H := demo.lib) (s', demo.rotating 1)
  = Done (None, (s', demo.rotating 1)).
Proof.
  exact (cleanOldFiles_twice (H := demo.lib) demo.prunable _ (demo.rotating 1)
           (demo.rotating 1) demo_sort_sorts ltac:(vm_compute; reflexivity)).
Defined.
